(** * go-muxrpc: the session multiplexer, the byte source and its frame buffer

    A shallow embedding of [rpc.go] (both revisions of the session that the
    repository carries) and of the [ByteSource] / [frameBuffer] pair, with
    the properties the specification states about them.

    Conventions.
    - Go's [int32] and [uint32] are [Z] with the wrap-around written out
      ([wrap_int32], [wrap_uint32]).
    - [[]byte] is [list byte]; Go strings are [string].
    - A Go [error] is [option error] ([None] is [nil]).
    - A [map[int32]*Request] is a [gmap Z loc] next to a heap
      [gmap loc Request]: the table holds pointers and the requests are
      mutated through them.
    - [go f()] appends a task to the session's [spawned] list; the task's
      body is a function of this file that can be run on a later state. *)

From Stdlib Require Import ZArith Lia.
From Stdlib.Strings Require Import Byte.
From stdpp Require Import base option list gmap strings.

Local Open Scope Z_scope.

#[global] Instance byte_eq_decision : EqDecision byte := Byte.byte_eq_dec.

(** ** Machine integers *)

Definition MaxInt32 : Z := 2147483647.
Definition MinInt32 : Z := -2147483648.

(** Two's complement wrap of a signed 32-bit result. *)
Definition wrap_int32 (z : Z) : Z := (z + 2 ^ 31) mod 2 ^ 32 - 2 ^ 31.

(** Wrap of an unsigned 32-bit result. *)
Definition wrap_uint32 (z : Z) : Z := z mod 2 ^ 32.

(** ** Errors *)

(** [CallError] (rpc.go, the struct returned when a call fails). *)
Record CallError := mkCallError {
  Name : string;
  Message : string;
  Stack : string
}.

(** The error values the modelled code creates or inspects.  [ErrWrap e msg]
    is [errors.Wrap(e, msg)], [ErrNew msg] is [errors.New] / [errors.Errorf] /
    [fmt.Errorf] with the finished message, [ErrOther tag] stands for an
    error of a collaborator (transport, context, JSON library). *)
Inductive error :=
  | EOS                                  (* luigi.EOS{} *)
  | ErrSessionTerminated                 (* "muxrpc: session terminated" *)
  | ErrNew (msg : string)
  | ErrWrap (e : error) (msg : string)
  | ErrCall (c : CallError)              (* a *CallError used as an error *)
  | ErrOther (tag : string).

(** [errors.Cause]: strips the wrappers. *)
Fixpoint Cause (e : error) : error :=
  match e with
  | ErrWrap e' _ => Cause e'
  | _ => e
  end.

(** [luigi.IsEOS]: the cause is the end-of-stream sentinel; [nil] is not. *)
Definition IsEOS (err : option error) : bool :=
  match err with
  | Some e => match Cause e with EOS => true | _ => false end
  | None => false
  end.

(** [errors.Wrap(err, msg)] is [nil] when [err] is [nil]. *)
Definition Wrap (err : option error) (msg : string) : option error :=
  match err with
  | Some e => Some (ErrWrap e msg)
  | None => None
  end.

(** What a Go call does: it returns, or it panics with the state it had
    reached. *)
Inductive outcome (S A : Type) :=
  | Returned (s : S) (a : A)
  | Panicked (s : S) (msg : string).
Arguments Returned {S A} s a.
Arguments Panicked {S A} s msg.

(** ** frameBuffer: length-prefixed frames in one byte buffer *)

(** [byte(v)]: the low eight bits. *)
Definition byte_of_Z (z : Z) : byte :=
  default x00 (Byte.of_N (Z.to_N (z mod 256))).

Definition Z_of_byte (b : byte) : Z := Z.of_N (Byte.to_N b).

(** [binary.LittleEndian.PutUint32]: least significant byte first. *)
Definition PutUint32 (v : Z) : list byte :=
  [byte_of_Z v; byte_of_Z (v / 2 ^ 8); byte_of_Z (v / 2 ^ 16); byte_of_Z (v / 2 ^ 24)].

(** [binary.LittleEndian.Uint32] of the four bytes of [lenBuf]. *)
Definition Uint32 (b : list byte) : Z :=
  Z_of_byte (default x00 (b !! 0%nat))
  + Z_of_byte (default x00 (b !! 1%nat)) * 2 ^ 8
  + Z_of_byte (default x00 (b !! 2%nat)) * 2 ^ 16
  + Z_of_byte (default x00 (b !! 3%nat)) * 2 ^ 24.

(** An [io.Reader] handed to [copyBody]: the bytes it yields before it
    ends, and how it ends ([None]: [io.EOF], which [io.Copy] reports as
    success; [Some e]: a read error). *)
Record reader := mkReader {
  rd_data : list byte;
  rd_err : option error
}.

(** [type frameBuffer struct].  [store] is the unread part of the
    [bytes.Buffer]; [waiting] says whether the [waiting] channel is non-nil;
    [lenBuf] always holds four bytes. *)
Record frameBuffer := mkFrameBuffer {
  store : list byte;
  waiting : bool;
  currentFrameTotal : Z;
  currentFrameRead : Z;
  frames : Z;
  lenBuf : list byte
}.

(** The zero value over an empty buffer from the pool ([newByteSource]). *)
Definition newFrameBuffer : frameBuffer :=
  {| store := []; waiting := false; currentFrameTotal := 0;
     currentFrameRead := 0; frames := 0; lenBuf := [x00; x00; x00; x00] |}.

(** [func (fw *frameBuffer) Frames() uint32] *)
Definition Frames (fw : frameBuffer) : Z := frames fw.

(** [func (fw *frameBuffer) copyBody(pktLen uint32, rd io.Reader) error]
    The length prefix and whatever [io.Copy] got are in [store] before the
    checks; [frames] is incremented only when both pass. *)
Definition copyBody (pktLen : Z) (rd : reader) (fw : frameBuffer)
  : frameBuffer * option error :=
  let lb := PutUint32 pktLen in
  let fw1 := {| store := store fw ++ lb; waiting := waiting fw;
                currentFrameTotal := currentFrameTotal fw;
                currentFrameRead := currentFrameRead fw;
                frames := frames fw; lenBuf := lb |} in
  let copied := Z.of_nat (length (rd_data rd)) in
  let fw2 := {| store := store fw1 ++ rd_data rd; waiting := waiting fw1;
                currentFrameTotal := currentFrameTotal fw1;
                currentFrameRead := currentFrameRead fw1;
                frames := frames fw1; lenBuf := lenBuf fw1 |} in
  match rd_err rd with
  | Some e => (fw2, Some e)
  | None =>
      if negb (wrap_uint32 copied =? pktLen)
      then (fw2, Some (ErrNew "frameBuffer: failed to consume whole body"))
      else ({| store := store fw2; waiting := false;
               currentFrameTotal := currentFrameTotal fw2;
               currentFrameRead := currentFrameRead fw2;
               frames := wrap_uint32 (frames fw2 + 1); lenBuf := lenBuf fw2 |},
            None)
  end.

(** The first block of [getNextFrameReader]: when the last frame has not
    been fully read, what is left of it is copied to [ioutil.Discard].  The
    result is the buffer's content afterwards.  [diff] is a [uint32]
    difference widened to [int64]. *)
Definition skipUnread (fw : frameBuffer) : list byte :=
  if negb (currentFrameTotal fw =? 0) then
    let diff := wrap_uint32 (currentFrameTotal fw - currentFrameRead fw) in
    if 0 <? diff then drop (Z.to_nat diff) (store fw) else store fw
  else store fw.

(** [func (fw *frameBuffer) getNextFrameReader() (uint32, io.Reader, error)]
    The returned reader is the buffer itself, limited to the frame and
    counted in [currentFrameRead]: see [readFrame].  [store.Read] of an empty
    buffer is [io.EOF]; otherwise it fills [lenBuf] with up to four bytes. *)
Definition getNextFrameReader (fw : frameBuffer) : frameBuffer * (Z + error) :=
  let skipped := skipUnread fw in
  match skipped with
  | [] =>
      ({| store := skipped; waiting := waiting fw;
          currentFrameTotal := currentFrameTotal fw;
          currentFrameRead := currentFrameRead fw;
          frames := frames fw; lenBuf := lenBuf fw |},
       inr (ErrOther "EOF"))
  | _ :: _ =>
      let lb := take 4 skipped ++ drop (length (take 4 skipped)) (lenBuf fw) in
      let pktLen := Uint32 lb in
      ({| store := drop 4 skipped; waiting := waiting fw;
          currentFrameTotal := pktLen;
          currentFrameRead := 0;
          frames := wrap_uint32 (frames fw + (2 ^ 32 - 1)); lenBuf := lb |},
       inl pktLen)
  end.

(** [countingReader.Read] over [io.LimitReader(fw.store, pktLen)], for the
    reader of the current frame and a destination of [n] bytes.  The limit
    the reader has left is [currentFrameTotal - currentFrameRead], as every
    byte it hands out is counted.  The result is the bytes read and whether
    the call reported [io.EOF]. *)
Definition readFrame (n : nat) (fw : frameBuffer) : frameBuffer * (list byte * bool) :=
  let left := currentFrameTotal fw - currentFrameRead fw in
  if left <=? 0 then (fw, ([], true))
  else
    let n' := Nat.min n (Z.to_nat left) in
    match store fw with
    | [] => (fw, ([], negb (Nat.eqb n' 0)))
    | _ :: _ =>
        let got := take n' (store fw) in
        ({| store := drop n' (store fw); waiting := waiting fw;
            currentFrameTotal := currentFrameTotal fw;
            currentFrameRead :=
              if Nat.eqb (length got) 0 then currentFrameRead fw
              else wrap_uint32 (currentFrameRead fw + Z.of_nat (length got));
            frames := frames fw; lenBuf := lenBuf fw |},
         (got, false))
    end.

(** [func (fw *frameBuffer) waitForMore() <-chan struct{}]
    The result says whether the channel returned is closed already; a
    channel that is not is the one kept in [waiting], which [copyBody] closes
    when it has stored a frame. *)
Definition waitForMore (fw : frameBuffer) : outcome frameBuffer bool :=
  if 0 <? frames fw then Returned fw true
  else if waiting fw then Panicked fw "muxrpc: already waiting"
  else Returned {| store := store fw; waiting := true;
                   currentFrameTotal := currentFrameTotal fw;
                   currentFrameRead := currentFrameRead fw;
                   frames := frames fw; lenBuf := lenBuf fw |} false.

(** [ioutil.ReadAll] on the reader of the current frame: [Read] is called
    with the free part of the result slice, which is never empty
    ([S (room n)] bytes once [n] bytes are in), until it reports [io.EOF];
    [fuel] bounds the number of calls.  The reader of a frame reports no
    other error. *)
Fixpoint ReadAll (fuel : nat) (room : nat -> nat) (acc : list byte) (fw : frameBuffer)
    : option (frameBuffer * list byte) :=
  match fuel with
  | O => None
  | S fuel' =>
      let '(fw', (got, eof)) := readFrame (S (room (length acc))) fw in
      if eof then Some (fw', acc ++ got) else ReadAll fuel' room (acc ++ got) fw'
  end.

(** ** ByteSource *)

Module ByteSource.

(** [type ByteSource struct]: the frame buffer, the [failed] slot and the
    [closed] channel ([true] once [close(bs.closed)] has run). *)
Record t := mk {
  buf : frameBuffer;
  failed : option error;
  closed : bool
}.

(** [newByteSource]: an empty buffer, nothing failed, the channel open. *)
Definition new : t := {| buf := newFrameBuffer; failed := None; closed := false |}.

(** [func (bs *ByteSource) CloseWithError(err error) error]
    The assignment to [failed] comes first; [close] of a closed channel
    panics. *)
Definition CloseWithError (err : option error) (bs : t) : outcome t (option error) :=
  let bs1 := {| buf := buf bs;
                failed := Some (match err with None => EOS | Some e => e end);
                closed := closed bs |} in
  if closed bs1
  then Panicked bs1 "close of closed channel"
  else Returned {| buf := buf bs1; failed := failed bs1; closed := true |} None.

(** [func (bs *ByteSource) Close() error] *)
Definition Close (bs : t) : outcome t (option error) := CloseWithError None bs.

(** [func (bs *ByteSource) Cancel(err error)]: guarded by [failed != nil];
    the result of [CloseWithError] is dropped, a panic is not. *)
Definition Cancel (err : option error) (bs : t) : outcome t unit :=
  match failed bs with
  | Some _ => Returned bs tt
  | None =>
      match CloseWithError err bs with
      | Returned bs' _ => Returned bs' tt
      | Panicked bs' msg => Panicked bs' msg
      end
  end.

(** [func (bs *ByteSource) consume(pktLen uint32, r io.Reader) error] *)
Definition consume (pktLen : Z) (r : reader) (bs : t) : t * option error :=
  match failed bs with
  | Some e => (bs, Some (ErrWrap e "muxrpc: byte source canceled"))
  | None =>
      let '(fw, err) := copyBody pktLen r (buf bs) in
      ({| buf := fw; failed := failed bs; closed := closed bs |}, err)
  end.

(** [errors.Is(err, context.Canceled)]: an error of the chain [err] wraps
    is that value, which the context package makes with the text below. *)
Fixpoint Is_Canceled (e : error) : bool :=
  match e with
  | ErrOther tag => bool_decide (tag = "context canceled")
  | ErrWrap e' _ => Is_Canceled e'
  | _ => false
  end.

(** [func (bs *ByteSource) Err() error] *)
Definition Err (bs : t) : option error :=
  if IsEOS (failed bs) || match failed bs with Some e => Is_Canceled e | None => false end
  then None
  else failed bs.

(** The channel the [select] of [Next] proceeds on; a context's [Done]
    comes with the error the context then reports. *)
Inductive selected :=
  | SelStreamDone (err : error)
  | SelCtxDone (err : error)
  | SelClosed
  | SelMore.

(** [func (bs *ByteSource) Next(ctx context.Context) bool], up to its
    [select]: [Some b] when it returns [b] without waiting, [None] when it
    goes on to the [select], whose channels have been evaluated by then
    ([waitForMore()] is one of them).  Handing the buffer back to the pool
    before [false] is returned is not modelled. *)
Definition Next (bs : t) : outcome t (option bool) :=
  if bool_decide (failed bs <> None) && (frames (buf bs) =? 0) then Returned bs (Some false)
  else if 0 <? frames (buf bs) then Returned bs (Some true)
  else
    match waitForMore (buf bs) with
    | Panicked fw msg => Panicked {| buf := fw; failed := failed bs; closed := closed bs |} msg
    | Returned fw _ => Returned {| buf := fw; failed := failed bs; closed := closed bs |} None
    end.

(** What [Next] does and returns when its [select] proceeds on [sel]; [bs]
    is the byte source at that moment. *)
Definition Next_selected (sel : selected) (bs : t) : t * bool :=
  match sel with
  | SelStreamDone err =>
      ({| buf := buf bs; failed := Some err; closed := closed bs |}, 0 <? Frames (buf bs))
  | SelCtxDone err => ({| buf := buf bs; failed := Some err; closed := closed bs |}, false)
  | SelClosed => (bs, 0 <? Frames (buf bs))
  | SelMore => (bs, true)
  end.

(** Whether the [select] can proceed on [sel]: [bs.closed] has been closed;
    the channel [waitForMore] has put in [waiting] has been closed by
    [copyBody], which resets the field.  A context is cancelled from
    outside. *)
Definition ready (sel : selected) (bs : t) : bool :=
  match sel with
  | SelStreamDone _ | SelCtxDone _ => true
  | SelClosed => closed bs
  | SelMore => negb (waiting (buf bs))
  end.

(** [func (bs *ByteSource) Bytes() ([]byte, error)]; [None] when [fuel] is
    too small for [ReadAll]. *)
Definition Bytes (fuel : nat) (room : nat -> nat) (bs : t) : option (t * (list byte + error)) :=
  let '(fw, r) := getNextFrameReader (buf bs) in
  match r with
  | inr err => Some ({| buf := fw; failed := failed bs; closed := closed bs |}, inr err)
  | inl _ =>
      match ReadAll fuel room [] fw with
      | None => None
      | Some (fw', b) => Some ({| buf := fw'; failed := failed bs; closed := closed bs |}, inl b)
      end
  end.

(** The states of a byte source with one consumer.  The producer
    ([consume]) and whoever ends the stream ([CloseWithError], [Close],
    [Cancel]) act at any time; the consumer calls [Next] and [Bytes] one after
    the other, and while its [Next] is in the [select] ([true] in the first
    argument) it does nothing until a channel that is ready lets it
    proceed. *)
Inductive reach : bool -> t -> Prop :=
  | reach_new : reach false new
  | reach_consume w bs pktLen rd :
      reach w bs -> reach w (consume pktLen rd bs).1
  | reach_close w bs err bs' res :
      reach w bs -> CloseWithError err bs = Returned bs' res -> reach w bs'
  | reach_cancel w bs err bs' :
      reach w bs -> Cancel err bs = Returned bs' tt -> reach w bs'
  | reach_next bs bs' b :
      reach false bs -> Next bs = Returned bs' (Some b) -> reach false bs'
  | reach_select bs bs' :
      reach false bs -> Next bs = Returned bs' None -> reach true bs'
  | reach_proceed bs sel :
      reach true bs -> ready sel bs = true -> reach false (Next_selected sel bs).1
  | reach_bytes bs fuel room bs' res :
      reach false bs -> Bytes fuel room bs = Some (bs', res) -> reach false bs'.

End ByteSource.

(** *** Driving the buffer, and the queue it is meant to be *)

(** The calls a producer and a consumer make on one [frameBuffer]:
    [copyBody], [getNextFrameReader], and a [Read] of at most [n] bytes on
    the reader of the current frame. *)
Inductive op :=
  | OpCopy (pktLen : Z) (rd : reader)
  | OpGet
  | OpRead (n : nat).

(** What each call reports back. *)
Inductive event :=
  | EvCopied (err : option error)
  | EvFrame (r : Z + error)
  | EvRead (got : list byte) (eof : bool).

Definition step (o : op) (fw : frameBuffer) : frameBuffer * event :=
  match o with
  | OpCopy pktLen rd => let '(fw', e) := copyBody pktLen rd fw in (fw', EvCopied e)
  | OpGet => let '(fw', r) := getNextFrameReader fw in (fw', EvFrame r)
  | OpRead n => let '(fw', (got, eof)) := readFrame n fw in (fw', EvRead got eof)
  end.


(** The first-in-first-out queue of bodies: [current] is what is left of
    the frame handed out last, [pending] the bodies stored and not yet handed
    out, oldest first. *)
Record fifo := mkFifo {
  current : list byte;
  pending : list (list byte)
}.

Definition fifo_empty : fifo := {| current := []; pending := [] |}.

(** The queue's behaviour.  A body is stored when the reader delivers
    exactly the [pktLen] bytes announced; a frame is handed out when one is
    pending (what [ByteSource.Next] has the consumer wait for), and handing
    it out drops what was left of the previous one.  Calls outside of this
    are not the queue's: [None]. *)
Definition fifo_step (o : op) (q : fifo) : option (fifo * event) :=
  match o with
  | OpCopy pktLen rd =>
      match rd_err rd with
      | Some _ => None
      | None =>
          if (Z.of_nat (length (rd_data rd)) =? pktLen) && (pktLen <? 2 ^ 32)
          then Some ({| current := current q; pending := pending q ++ [rd_data rd] |},
                     EvCopied None)
          else None
      end
  | OpGet =>
      match pending q with
      | b :: rest =>
          Some ({| current := b; pending := rest |}, EvFrame (inl (Z.of_nat (length b))))
      | [] => None
      end
  | OpRead n =>
      Some ({| current := drop n (current q); pending := pending q |},
            EvRead (take n (current q))
                   (match current q with [] => true | _ :: _ => false end))
  end.






(** A stored frame: the little-endian length, then the body. *)
Definition frame_bytes (b : list byte) : list byte :=
  PutUint32 (Z.of_nat (length b)) ++ b.

(** The bytes of a run of stored frames, oldest first. *)
Definition stored (bs : list (list byte)) : list byte :=
  concat (map frame_bytes bs).

(** When a [frameBuffer] represents a queue: the buffer holds what is left
    of the current frame followed by the pending frames, the two counters
    account for exactly that remainder, and [frames] counts the pending
    frames in [uint32]. *)
Record refines (fw : frameBuffer) (q : fifo) : Prop := mkRefines {
  ref_store : store fw = current q ++ stored (pending q);
  ref_left : currentFrameTotal fw - currentFrameRead fw = Z.of_nat (length (current q));
  ref_read : 0 <= currentFrameRead fw;
  ref_total : currentFrameTotal fw < 2 ^ 32;
  ref_frames : frames fw = wrap_uint32 (Z.of_nat (length (pending q)));
  ref_lenBuf : length (lenBuf fw) = 4%nat;
  ref_sizes : Forall (λ b, Z.of_nat (length b) < 2 ^ 32) (pending q)
}.

(** ** The collaborators of the session *)

(** Modelled from the spec: the flag byte of a frame (§4.1: bit 3 [stream],
    bit 2 [endOrError], bits 1..0 the body kind with 01 a string and 10
    JSON) and [codec.Flag]'s [Set] and [Get], which or a mask in and test
    that all its bits are set; the codec package is not among the sources. *)
Definition FlagString : Z := 1.
Definition FlagJSON : Z := 2.
Definition FlagEndErr : Z := 4.
Definition FlagStream : Z := 8.

Definition Flag_Set (f g : Z) : Z := Z.lor f g.
Definition Flag_Get (f g : Z) : bool := Z.land f g =? g.

(** [codec.Header] and [codec.Packet]. *)
Record Header := mkHeader {
  hFlag : Z;
  hLen : Z;
  hReq : Z
}.

Record Packet := mkPacket {
  Flag : Z;
  Req : Z;
  Body : list byte
}.

(** [var trueBytes = []byte{'t', 'r', 'u', 'e'}] *)
Definition trueBytes : list byte := [x74; x72; x75; x65].

(** [func isTrue(data []byte) bool] (the same in both revisions). *)
Definition isTrue (data : list byte) : bool :=
  Nat.eqb (length data) 4
  && bool_decide (data !! 0%nat = Some x74)
  && bool_decide (data !! 1%nat = Some x72)
  && bool_decide (data !! 2%nat = Some x75)
  && bool_decide (data !! 3%nat = Some x65).

(** [func buildEndPacket(req int32) *codec.Packet] (older revision). *)
Definition buildEndPacket (req : Z) : Packet :=
  {| Flag := Z.lor (Z.lor FlagJSON FlagEndErr) FlagStream; Req := req; Body := trueBytes |}.

(** A JSON text as a value.  Numbers keep their literal. *)
#[local] Set Warnings "-register-all".
Inductive json :=
  | JNull
  | JBool (b : bool)
  | JNumber (lit : string)
  | JString (s : string)
  | JArray (items : list json)
  | JObject (members : list (string * json)).

(** A pointer to a request. *)
Definition loc := nat.

(** What the session takes from outside this file: Go's [encoding/json]
    (reading and writing JSON texts, the case-insensitive match of member
    names, and the (un)marshalling of [Request], whose declaration is not among
    the sources; the fields with a 0 are those of the older revision, whose
    requests carry [Args] and not [RawArgs]), [isAlreadyClosed], the body a
    stream sends for an error, and
    the order in which [range] visits the request table (any enumeration of
    the table). *)
Class Collaborators := mkCollaborators {
  json_parse : list byte -> json + error;
  json_print : json -> list byte;
  equalFold : string -> string -> bool;
  Marshal_Request : string -> list string -> list byte -> list byte + error;
  Decode_Request : list byte -> (string * list string * list byte) + error;
  Marshal_args : list json -> list byte + error;
  Marshal_Request0 : string -> list string -> list json -> list byte + error;
  Decode_Request0 : list byte -> (string * list string * list json) + error;
  isAlreadyClosed : error -> bool;
  errorBody : error -> list byte;
  range_order : gmap Z loc -> list (Z * loc);
  range_order_perm : forall m, range_order m ≡ₚ map_to_list m
}.

(** Modelled from the spec: the Packer's writing side (§4.2): [Pour] puts
    one whole packet on the wire, [Close] closes the transport and is
    idempotent; a packet poured after [Close] is refused. *)
Record Packer := mkPacker {
  sent : list Packet;
  pkr_closed : bool
}.

Definition Packer_Pour (pkt : Packet) (pk : Packer) : Packer * option error :=
  if pkr_closed pk
  then (pk, Some (ErrOther "pour to closed packer"))
  else ({| sent := sent pk ++ [pkt]; pkr_closed := false |}, None).

Definition Packer_Close (pk : Packer) : Packer * option error :=
  ({| sent := sent pk; pkr_closed := true |}, None).

(** What the Packer's reading side hands to [Serve] for one frame: the
    header, and the reader of its body. *)
Record wireFrame := mkWireFrame {
  wf_hdr : Header;
  wf_body : reader
}.

(** [ReadBodyInto(buf, hdr.Len)] / [io.ReadFull] over
    [NextBodyReader(hdr.Len)]: the [hdr.Len] bytes of the body, or an
    error. *)
Definition readBody (hdr : Header) (rd : reader) : list byte + error :=
  match rd_err rd with
  | Some e => inr e
  | None =>
      if Z.of_nat (length (rd_data rd)) =? hLen hdr
      then inl (rd_data rd)
      else inr (ErrOther "unexpected EOF")
  end.

(** The buffered pipe of [luigi.NewPipe(luigi.WithBuffer(n))]: [n]
    values fit before a [Pour] has to wait for the reader. *)
Record pipe := mkPipe {
  queue : list Packet;
  capacity : nat;
  pipe_closed : option error
}.

Definition NewPipe (n : nat) : pipe :=
  {| queue := []; capacity := n; pipe_closed := None |}.

Inductive pourResult :=
  | Poured (p : pipe)
  | PourFailed (e : error)
  | PourBlocks.

Definition pipe_Pour (v : Packet) (p : pipe) : pourResult :=
  match pipe_closed p with
  | Some e => PourFailed (ErrOther "pour to closed sink")
  | None =>
      if (length (queue p) <? capacity p)%nat
      then Poured {| queue := queue p ++ [v]; capacity := capacity p; pipe_closed := None |}
      else PourBlocks
  end.

(** Modelled from the spec: [RequestType.Flags] (§4.5, the table's column
    "flag: stream"): the stream flag for the three streaming call types. *)
Definition RequestType_Flags (t : string) : Z :=
  if bool_decide (t = "source" \/ t = "sink" \/ t = "duplex") then FlagStream else 0.

(** ** CallError on the wire *)

(** The members [json.Marshal] writes for a [CallError], by the struct's
    tags and in the order of its fields. *)
Definition CallError_toJSON (e : CallError) : json :=
  JObject [("name", JString (Name e)); ("message", JString (Message e));
           ("stack", JString (Stack e))].

Inductive CallError_field := FName | FMessage | FStack.

Definition CallError_tag (f : CallError_field) : string :=
  match f with FName => "name" | FMessage => "message" | FStack => "stack" end.

(** The field a member name selects: the tag that is equal to it, and
    failing that, the first that matches it without regard to case. *)
Definition CallError_lookup `{Collaborators} (key : string) : option CallError_field :=
  match List.find (fun f => bool_decide (CallError_tag f = key)) [FName; FMessage; FStack] with
  | Some f => Some f
  | None => List.find (fun f => equalFold (CallError_tag f) key) [FName; FMessage; FStack]
  end.

Definition CallError_set (f : CallError_field) (s : string) (e : CallError) : CallError :=
  match f with
  | FName => {| Name := s; Message := Message e; Stack := Stack e |}
  | FMessage => {| Name := Name e; Message := s; Stack := Stack e |}
  | FStack => {| Name := Name e; Message := Message e; Stack := s |}
  end.

(** Decoding the members of an object into a [CallError], in their order:
    a string sets its field, [null] leaves it, any other value is a type
    error, which is kept (the first one) while decoding goes on; members
    that select no field are skipped. *)
Fixpoint CallError_members `{Collaborators} (ms : list (string * json))
    (acc : CallError * option error) : CallError * option error :=
  match ms with
  | [] => acc
  | (key, v) :: ms' =>
      let '(e, saved) := acc in
      match CallError_lookup key with
      | None => CallError_members ms' acc
      | Some f =>
          match v with
          | JString s => CallError_members ms' (CallError_set f s e, saved)
          | JNull => CallError_members ms' acc
          | _ =>
              CallError_members ms'
                (e, match saved with
                    | Some err => Some err
                    | None => Some (ErrOther "json: cannot unmarshal into Go struct field")
                    end)
          end
      end
  end.

(** [json.Unmarshal(data, &e)] for [var e CallError]: the text is read
    first; [null] leaves the zero value, an object is decoded member by
    member, anything else is a type error. *)
Definition Unmarshal_CallError `{Collaborators} (data : list byte) : CallError * option error :=
  let zero := {| Name := ""; Message := ""; Stack := "" |} in
  match json_parse data with
  | inr err => (zero, Some err)
  | inl JNull => (zero, None)
  | inl (JObject ms) => CallError_members ms (zero, None)
  | inl _ => (zero, Some (ErrOther "json: cannot unmarshal into Go value of type muxrpc.CallError"))
  end.

(** [func (e *CallError) Error() string] *)
Definition CallError_Error (e : CallError) : string :=
  "muxrpc CallError: " +:+ Name e +:+ " - " +:+ Message e.

(** [json.Marshal] of a [CallError]. *)
Definition Marshal_CallError `{Collaborators} (e : CallError) : list byte :=
  json_print (CallError_toJSON e).

(** [func parseError(data []byte)], which returns a [CallError] pointer
    and an error. *)
Definition parseError `{Collaborators} (data : list byte) : option CallError * option error :=
  let '(e, err) := Unmarshal_CallError data in
  match err with
  | Some err' => (None, Some (ErrWrap err' "error unmarshaling error packet"))
  | None => (Some e, None)
  end.

(** [%q] of [fmt]: the string between double quotes (the escapes of
    special characters are not modelled). *)
Definition fmt_q (s : string) : string :=
  String (Ascii.ascii_of_nat 34) s +:+ String (Ascii.ascii_of_nat 34) EmptyString.

(** ** The session, newer revision (rpc.go, second part) *)

Module Rpc.

(** [const bufSize = 150] *)
Definition bufSize : nat := 150.

(** [var ErrSessionTerminated] is the constructor of the same name. *)

Inductive streamCapability :=
  | streamCapNone
  | streamCapOnce
  | streamCapMultiple.

(** Modelled from the spec: the stream end-point (§3, §4.3), whose code is
    not among the sources: the request id it stamps on its frames, the type
    hint, the two capabilities in the order [newStream] takes them (input,
    output), the inbound direction ([None] while open, then the end-of-stream
    or error it was closed with) and the outbound direction. *)
Record stream := mkStream {
  s_req : Z;
  s_tipe : option string;
  s_in : streamCapability;
  s_out : streamCapability;
  s_inClosed : option error;
  s_outClosed : bool
}.

Definition newStream (req : Z) (ins outs : streamCapability) : stream :=
  {| s_req := req; s_tipe := None; s_in := ins; s_out := outs;
     s_inClosed := None; s_outClosed := false |}.

Definition WithReq (req : Z) (s : stream) : stream :=
  {| s_req := req; s_tipe := s_tipe s; s_in := s_in s; s_out := s_out s;
     s_inClosed := s_inClosed s; s_outClosed := s_outClosed s |}.

Definition WithType (tipe : option string) (s : stream) : stream :=
  {| s_req := s_req s; s_tipe := tipe; s_in := s_in s; s_out := s_out s;
     s_inClosed := s_inClosed s; s_outClosed := s_outClosed s |}.

(** The [abort] field of a request: [nil], the no-op [Do] installs, or the
    cancel function of the handler's context ([fetchRequest]). *)
Inductive abortFn :=
  | AbortNil
  | AbortNoop
  | AbortCancel.

(** [Request], by the fields rpc.go reads and writes.  [in_] is the sink of
    the request's pipe ([None] is [nil]: the request is fed through
    [consume]); [source] is the byte source behind [consume] and [done];
    [ctxDone] says whether the handler's context has been cancelled. *)
Record Request := mkRequest {
  Type_ : string;
  Method : list string;
  RawArgs : option (list byte);
  tipe : option string;
  id : Z;
  Stream : stream;
  in_ : option pipe;
  source : option ByteSource.t;
  abort : abortFn;
  ctxDone : bool
}.

Definition set_Stream (s : stream) (r : Request) : Request :=
  {| Type_ := Type_ r; Method := Method r; RawArgs := RawArgs r; tipe := tipe r;
     id := id r; Stream := s; in_ := in_ r; source := source r; abort := abort r;
     ctxDone := ctxDone r |}.

Definition set_id (i : Z) (r : Request) : Request :=
  {| Type_ := Type_ r; Method := Method r; RawArgs := RawArgs r; tipe := tipe r;
     id := i; Stream := Stream r; in_ := in_ r; source := source r; abort := abort r;
     ctxDone := ctxDone r |}.

Definition set_abort (a : abortFn) (r : Request) : Request :=
  {| Type_ := Type_ r; Method := Method r; RawArgs := RawArgs r; tipe := tipe r;
     id := id r; Stream := Stream r; in_ := in_ r; source := source r; abort := a;
     ctxDone := ctxDone r |}.

Definition set_RawArgs (a : option (list byte)) (r : Request) : Request :=
  {| Type_ := Type_ r; Method := Method r; RawArgs := a; tipe := tipe r;
     id := id r; Stream := Stream r; in_ := in_ r; source := source r; abort := abort r;
     ctxDone := ctxDone r |}.

Definition set_Type (t : string) (r : Request) : Request :=
  {| Type_ := t; Method := Method r; RawArgs := RawArgs r; tipe := tipe r;
     id := id r; Stream := Stream r; in_ := in_ r; source := source r; abort := abort r;
     ctxDone := ctxDone r |}.

Definition set_in (p : option pipe) (r : Request) : Request :=
  {| Type_ := Type_ r; Method := Method r; RawArgs := RawArgs r; tipe := tipe r;
     id := id r; Stream := Stream r; in_ := p; source := source r; abort := abort r;
     ctxDone := ctxDone r |}.

Definition set_source (b : option ByteSource.t) (r : Request) : Request :=
  {| Type_ := Type_ r; Method := Method r; RawArgs := RawArgs r; tipe := tipe r;
     id := id r; Stream := Stream r; in_ := in_ r; source := b; abort := abort r;
     ctxDone := ctxDone r |}.

Definition set_ctxDone (d : bool) (r : Request) : Request :=
  {| Type_ := Type_ r; Method := Method r; RawArgs := RawArgs r; tipe := tipe r;
     id := id r; Stream := Stream r; in_ := in_ r; source := source r; abort := abort r;
     ctxDone := d |}.

(** Calling [req.abort()]: [None] is the panic of calling a nil function. *)
Definition call_abort (r : Request) : option Request :=
  match abort r with
  | AbortNil => None
  | AbortNoop => Some r
  | AbortCancel => Some (set_ctxDone true r)
  end.

(** What [go] has started. *)
Inductive task :=
  | TaskHandleConnect
  | TaskHandleCall (p : loc)
  | TaskCloseStream (p : loc) (streamErr : option error).

(** [type rpc struct].  [heap] holds the requests the pointers of [reqs]
    and of the callers refer to; [cancelled] says whether the root context's
    [cancel] has been called; [spawned] lists the goroutines started. *)
Record rpc := mkRpc {
  pkr : Packer;
  reqs : gmap Z loc;
  highest : Z;
  terminated : bool;
  cancelled : bool;
  heap : list Request;
  spawned : list task
}.

Definition set_pkr (x : Packer) (r : rpc) : rpc :=
  {| pkr := x; reqs := reqs r; highest := highest r; terminated := terminated r;
     cancelled := cancelled r; heap := heap r; spawned := spawned r |}.

Definition set_reqs (x : gmap Z loc) (r : rpc) : rpc :=
  {| pkr := pkr r; reqs := x; highest := highest r; terminated := terminated r;
     cancelled := cancelled r; heap := heap r; spawned := spawned r |}.

Definition set_highest (x : Z) (r : rpc) : rpc :=
  {| pkr := pkr r; reqs := reqs r; highest := x; terminated := terminated r;
     cancelled := cancelled r; heap := heap r; spawned := spawned r |}.

Definition set_terminated (x : bool) (r : rpc) : rpc :=
  {| pkr := pkr r; reqs := reqs r; highest := highest r; terminated := x;
     cancelled := cancelled r; heap := heap r; spawned := spawned r |}.

Definition set_cancelled (x : bool) (r : rpc) : rpc :=
  {| pkr := pkr r; reqs := reqs r; highest := highest r; terminated := terminated r;
     cancelled := x; heap := heap r; spawned := spawned r |}.

Definition set_heap (x : list Request) (r : rpc) : rpc :=
  {| pkr := pkr r; reqs := reqs r; highest := highest r; terminated := terminated r;
     cancelled := cancelled r; heap := x; spawned := spawned r |}.

Definition spawn (t : task) (r : rpc) : rpc :=
  {| pkr := pkr r; reqs := reqs r; highest := highest r; terminated := terminated r;
     cancelled := cancelled r; heap := heap r; spawned := spawned r ++ [t] |}.

(** [&Request{...}]: a new cell of the heap. *)
Definition alloc (req : Request) (r : rpc) : rpc * loc :=
  (set_heap (heap r ++ [req]) r, length (heap r)).

(** [func handle(pkr, handler, remote, logger) Endpoint] (and [Handle],
    [HandleWithRemote], [HandleWithLogger], which differ in the logger and
    the remote address only). *)
Definition Handle (pk : Packer) : rpc :=
  {| pkr := pk; reqs := ∅; highest := 0; terminated := false; cancelled := false;
     heap := []; spawned := [TaskHandleConnect] |}.

(** [func marshalCallArgs(args []interface{}) ([]byte, error)] *)
Definition marshalCallArgs `{Collaborators} (args : list json) : list byte + error :=
  match args with
  | [] => inl [x5b; x5d]
  | _ :: _ =>
      match Marshal_args args with
      | inr err => inr (ErrWrap err "error marshaling request arguments")
      | inl argData => inl argData
      end
  end.

(** [func (r *rpc) Do(ctx context.Context, req *Request) error] *)
Definition Do `{Collaborators} (p : loc) (r : rpc) : outcome rpc (option error) :=
  match heap r !! p with
  | None => Panicked r "invalid memory address or nil pointer dereference"
  | Some req0 =>
      let req1 := match abort req0 with AbortNil => set_abort AbortNoop req0 | _ => req0 end in
      let req2 := match RawArgs req1 with
                  | None => set_RawArgs (Some [x5b; x5d]) req1
                  | Some _ => req1
                  end in
      let flag := Flag_Set (Flag_Set 0 FlagJSON) (RequestType_Flags (Type_ req2)) in
      let marshalled := Marshal_Request (Type_ req2) (Method req2) (default [] (RawArgs req2)) in
      let h := wrap_int32 (highest r + 1) in
      let req3 := set_id h (set_Stream (WithType (tipe req2) (WithReq h (Stream req2))) req2) in
      let r1 := set_heap (<[p := req3]> (heap r))
                  (set_reqs (<[h := p]> (reqs r)) (set_highest h r)) in
      match marshalled with
      | inr err => Returned r1 (Some err)
      | inl body =>
          let '(pk, err) := Packer_Pour {| Flag := flag; Req := h; Body := body |} (pkr r1) in
          Returned (set_pkr pk r1) err
      end
  end.

(** The part of [Async], [Sink] and [Duplex] before the reply is awaited:
    the request is built over a new pipe and sent with [Do].  The result is
    the request's pointer, or the error the call returns. *)
Definition call `{Collaborators} (req : Request) (r : rpc) : outcome rpc (loc + error) :=
  let '(r1, p) := alloc req r in
  match Do p r1 with
  | Panicked r2 msg => Panicked r2 msg
  | Returned r2 (Some err) => Returned r2 (inr (ErrWrap err "error sending request"))
  | Returned r2 None => Returned r2 (inl p)
  end.

(** [func (r *rpc) Async(ctx, tipe, method, args...)], up to
    [req.Stream.Next(ctx)], the wait for the reply. *)
Definition Async `{Collaborators} (tp : option string) (method : list string) (args : list json)
    (r : rpc) : outcome rpc (loc + error) :=
  let inPipe := NewPipe bufSize in
  match marshalCallArgs args with
  | inr err => Returned r (inr err)
  | inl argData =>
      call {| Type_ := "async"; Method := method; RawArgs := Some argData; tipe := tp;
              id := 0; Stream := newStream 0 streamCapOnce streamCapNone;
              in_ := Some inPipe; source := None; abort := AbortNil; ctxDone := false |} r
  end.

(** [func (r *rpc) Source(ctx, tipe, method, args...)] (and [ByteSource],
    which builds the same request without the type hint and returns the byte
    source itself). *)
Definition Source `{Collaborators} (tp : option string) (method : list string) (args : list json)
    (r : rpc) : outcome rpc (loc + error) :=
  match marshalCallArgs args with
  | inr err => Returned r (inr err)
  | inl argData =>
      call {| Type_ := "source"; Method := method; RawArgs := Some argData; tipe := tp;
              id := 0; Stream := newStream 0 streamCapMultiple streamCapNone;
              in_ := None; source := Some ByteSource.new; abort := AbortNil;
              ctxDone := false |} r
  end.

(** [func (r *rpc) Sink(ctx, method, args...)] *)
Definition Sink `{Collaborators} (method : list string) (args : list json)
    (r : rpc) : outcome rpc (loc + error) :=
  let inPipe := NewPipe bufSize in
  match marshalCallArgs args with
  | inr err => Returned r (inr err)
  | inl argData =>
      call {| Type_ := "sink"; Method := method; RawArgs := Some argData; tipe := None;
              id := 0; Stream := newStream 0 streamCapNone streamCapMultiple;
              in_ := Some inPipe; source := None; abort := AbortNil; ctxDone := false |} r
  end.

(** [func (r *rpc) Duplex(ctx, tipe, method, args...)] *)
Definition Duplex `{Collaborators} (tp : option string) (method : list string) (args : list json)
    (r : rpc) : outcome rpc (loc + error) :=
  let inPipe := NewPipe bufSize in
  match marshalCallArgs args with
  | inr err => Returned r (inr err)
  | inl argData =>
      call {| Type_ := "duplex"; Method := method; RawArgs := Some argData; tipe := tp;
              id := 0; Stream := newStream 0 streamCapMultiple streamCapMultiple;
              in_ := Some inPipe; source := None; abort := AbortNil; ctxDone := false |} r
  end.

(** [func (r *rpc) ParseRequest(pkt *codec.Header)], which returns a
    request pointer and an error.
    [body] is what [r.pkr.r.NextBodyReader(pkt.Len)] yields to the JSON
    decoder.  The request is a local of the function until it is returned. *)
Definition ParseRequest `{Collaborators} (r : rpc) (pkt : Header) (body : reader)
    : Request + error :=
  if negb (Flag_Get (hFlag pkt) FlagJSON) then inr (ErrNew "expected JSON flag")
  else if 0 <=? hReq pkt then inr (ErrNew "expected negative request id")
  else
    match (match rd_err body with
           | Some err => inr err
           | None => Decode_Request (rd_data body)
           end) with
    | inr err => inr (ErrWrap err "error decoding packet")
    | inl (ty, method, args) =>
        let inPipe := NewPipe bufSize in
        let caps :=
          if Flag_Get (hFlag pkt) FlagStream then
            if bool_decide (ty = "duplex") then inl (ty, streamCapMultiple, streamCapMultiple)
            else if bool_decide (ty = "source") then inl (ty, streamCapNone, streamCapMultiple)
            else if bool_decide (ty = "sink") then inl (ty, streamCapMultiple, streamCapNone)
            else inr (ErrNew ("unhandled request type: " +:+ fmt_q ty))
          else
            let ty' := if bool_decide (ty = "") then "async" else ty in
            if negb (bool_decide (ty' = "async"))
            then inr (ErrNew ("unhandled request type: " +:+ fmt_q ty'))
            else inl (ty', streamCapNone, streamCapOnce) in
        match caps with
        | inr err => inr err
        | inl (ty', inStream, outStream) =>
            inl {| Type_ := ty'; Method := method; RawArgs := Some args; tipe := None;
                   id := hReq pkt; Stream := newStream (hReq pkt) inStream outStream;
                   in_ := Some inPipe; source := None; abort := AbortNil;
                   ctxDone := false |}
        end
    end.

(** [func (r *rpc) fetchRequest(ctx, hdr)], which returns the request, whether
    it is new, and an error. *)
Definition fetchRequest `{Collaborators} (hdr : Header) (body : reader) (r : rpc)
    : (rpc * loc * bool) + error :=
  match reqs r !! hReq hdr with
  | Some p => inl (r, p, false)
  | None =>
      match ParseRequest r hdr body with
      | inr err => inr (ErrWrap err "error parsing request")
      | inl req =>
          let '(r1, p) := alloc (set_abort AbortCancel req) r in
          inl (spawn (TaskHandleCall p) (set_reqs (<[hReq hdr := p]> (reqs r1)) r1), p, true)
      end
  end.

(** Modelled from the spec: [Request.CloseWithError] (§4.3, §4.4; the code
    is not among the sources): it fails the request on both sides.  The
    outbound direction, if still open, sends its [endOrError] frame ([true]
    for no error, else the error's JSON body; the [stream] flag when the
    output capability is many) and is closed; the inbound direction, if still
    open, is closed with the error, or with end-of-stream for no error.  A
    terminal state already there is not overwritten. *)
Definition Request_CloseWithError `{Collaborators} (cerr : option error) (req : Request)
    (pk : Packer) : Request * Packer * option error :=
  let s := Stream req in
  let '(pk', err) :=
    if s_outClosed s then (pk, None)
    else
      Packer_Pour
        {| Flag := Z.lor (Z.lor FlagJSON FlagEndErr)
                     (match s_out s with streamCapMultiple => FlagStream | _ => 0 end);
           Req := s_req s;
           Body := match cerr with None => trueBytes | Some e => errorBody e end |} pk in
  (set_Stream {| s_req := s_req s; s_tipe := s_tipe s; s_in := s_in s; s_out := s_out s;
                 s_inClosed := match s_inClosed s with
                               | Some e => Some e
                               | None => Some (default EOS cerr)
                               end;
                 s_outClosed := true |} req,
   pk', err).

(** [req.CloseWithError(cerr)] on the request [p] points to; the error it
    returns is dropped by both callers. *)
Definition closeRequest `{Collaborators} (cerr : option error) (p : loc) (r : rpc) : rpc :=
  match heap r !! p with
  | None => r
  | Some req =>
      let '(req', pk, _) := Request_CloseWithError cerr req (pkr r) in
      set_pkr pk (set_heap (<[p := req']> (heap r)) r)
  end.

(** [func (r *rpc) Terminate() error] *)
Definition Terminate `{Collaborators} (r : rpc) : rpc * option error :=
  let r1 := set_terminated true (set_cancelled true r) in
  let r2 := foldl (fun acc kp => closeRequest (Some ErrSessionTerminated) kp.2 acc) r1
              (range_order (reqs r1)) in
  let '(pk, err) := Packer_Close (pkr r2) in
  (set_pkr pk r2, err).

(** [func (r *rpc) closeStream(req *Request, streamErr error)], the body of
    the goroutine [Serve] starts for an end frame. *)
Definition closeStream `{Collaborators} (p : loc) (streamErr : option error) (r : rpc) : rpc :=
  let r1 := closeRequest streamErr p r in
  match heap r1 !! p with
  | None => r1
  | Some req => set_reqs (delete (id req) (reqs r1)) r1
  end.

(** Running a goroutine [Serve] has started. *)
Definition run_task `{Collaborators} (t : task) (r : rpc) : rpc :=
  match t with
  | TaskCloseStream p streamErr => closeStream p streamErr r
  | _ => r
  end.

(** One turn of [Serve]'s loop after a header has been read. *)
Inductive turn :=
  | Continue (r : rpc)
  | Return (r : rpc) (err : option error)
  | Blocks (r : rpc)
  | Panics (r : rpc) (msg : string).

(** The body of [Serve]'s loop for a frame whose header [NextHeader] has
    delivered. *)
Definition serveFrame `{Collaborators} (f : wireFrame) (r : rpc) : turn :=
  let hdr := wf_hdr f in
  if Flag_Get (hFlag hdr) FlagEndErr then
    match reqs r !! hReq hdr with
    | None => Continue r
    | Some p =>
        match heap r !! p with
        | None => Panics r "invalid memory address or nil pointer dereference"
        | Some req =>
            match call_abort req with
            | None => Panics r "invalid memory address or nil pointer dereference"
            | Some req' =>
                let r1 := set_heap (<[p := req']> (heap r)) r in
                match readBody hdr (wf_body f) with
                | inr err =>
                    Return r1 (Some (ErrWrap err
                      "muxrpc: failed to get error body for closing of req"))
                | inl body =>
                    if negb (isTrue body) then
                      match parseError body with
                      | (_, Some err) => Return r1 (Some (ErrWrap err "error parsing error packet"))
                      | (Some ce, None) =>
                          Continue (spawn (TaskCloseStream p (Some (ErrCall ce))) r1)
                      | (None, None) => Continue (spawn (TaskCloseStream p None) r1)
                      end
                    else Continue (spawn (TaskCloseStream p None) r1)
                end
            end
        end
    end
  else
    match fetchRequest hdr (wf_body f) r with
    | inr err => Return r (Some (ErrWrap err "muxrpc: error getting request"))
    | inl (r1, p, isNew) =>
        if isNew then Continue r1
        else
          match heap r1 !! p with
          | None => Panics r1 "invalid memory address or nil pointer dereference"
          | Some req =>
              match in_ req with
              | None =>
                  match source req with
                  | None => Panics r1 "invalid memory address or nil pointer dereference"
                  | Some bs =>
                      let '(bs', err) := ByteSource.consume (hLen hdr) (wf_body f) bs in
                      let r2 := set_heap (<[p := set_source (Some bs') req]> (heap r1)) r1 in
                      match err with
                      | Some e => Return r2 (Some (ErrWrap e "muxrpc: error pouring data to handler"))
                      | None => Continue r2
                      end
                  end
              | Some inSink =>
                  match readBody hdr (wf_body f) with
                  | inr err =>
                      Return r1 (Some (ErrWrap err
                        "muxrpc: failed to get error body for closing of"))
                  | inl body =>
                      match pipe_Pour {| Flag := hFlag hdr; Req := hReq hdr; Body := body |}
                                      inSink with
                      | PourFailed e =>
                          Return r1 (Some (ErrWrap e "muxrpc: error pouring data to handler"))
                      | PourBlocks => Blocks r1
                      | Poured inSink' =>
                          Continue (set_heap (<[p := set_in (Some inSink') req]> (heap r1)) r1)
                      end
                  end
              end
          end
    end.

(** The error [NextHeader] ends the loop with ([doRet]): end-of-stream and
    an already closed transport end it without an error, so does any error
    once the session is terminated; otherwise the error is wrapped. *)
Definition doRet `{Collaborators} (err : error) (r : rpc) : option error :=
  if IsEOS (Some err) || isAlreadyClosed err then None
  else if terminated r then None
  else Some (ErrWrap err "serve failed to read from packer").

(** [Serve]'s deferred function closes the Packer, whatever is returned. *)
Definition deferred (r : rpc) : rpc := set_pkr (Packer_Close (pkr r)).1 r.

(** How [Serve] ends. *)
Inductive served :=
  | ServeReturns (r : rpc) (err : option error)
  | ServeBlocks (r : rpc)
  | ServePanics (r : rpc) (msg : string).

(** [func (r *rpc) Serve(ctx context.Context) (err error)]: [frames] are
    the frames [NextHeader] delivers, in order, and [final] the error it
    returns after them. *)
Fixpoint Serve `{Collaborators} (frames : list wireFrame) (final : error) (r : rpc) : served :=
  match frames with
  | [] =>
      let err := doRet final r in
      ServeReturns (deferred (Terminate r).1) err
  | f :: frames' =>
      match serveFrame f r with
      | Continue r' => Serve frames' final r'
      | Return r' err => ServeReturns (deferred r') err
      | Blocks r' => ServeBlocks r'
      | Panics r' msg => ServePanics (deferred r') msg
      end
  end.

End Rpc.

(** ** The session, older revision (rpc.go, first part) *)

Module Legacy.

(** [const bufSize = 5] *)
Definition bufSize : nat := 5.

(** Modelled from the spec: the stream end-point of [NewStream(src, pkr,
    req)], which has no capabilities in this revision: the request id it
    stamps on its frames. *)
Record stream := mkStream {
  s_req : Z
}.

Definition NewStream (req : Z) : stream := {| s_req := req |}.

Definition WithReq (req : Z) (s : stream) : stream := {| s_req := req |}.

(** [Request], by the fields rpc.go reads and writes; [pkt] is the packet
    the request was sent or received with. *)
Record Request := mkRequest {
  Type_ : string;
  Method : list string;
  Args : list json;
  tipe : option string;
  Stream : stream;
  in_ : option pipe;
  pkt : option Packet
}.

(** What [go] has started. *)
Inductive task :=
  | TaskOnConnect
  | TaskOnCall (p : loc).

(** [type rpc struct] *)
Record rpc := mkRpc {
  pkr : Packer;
  reqs : gmap Z loc;
  highest : Z;
  terminated : bool;
  heap : list Request;
  spawned : list task
}.

(** [func Handle(pkr Packer, handler Handler) Endpoint] *)
Definition Handle (pk : Packer) : rpc :=
  {| pkr := pk; reqs := ∅; highest := 0; terminated := false; heap := [];
     spawned := [TaskOnConnect] |}.

(** [func (r *rpc) Do(ctx context.Context, req *Request) error] *)
Definition Do `{Collaborators} (p : loc) (r : rpc) : outcome rpc (option error) :=
  match heap r !! p with
  | None => Panicked r "invalid memory address or nil pointer dereference"
  | Some req =>
      let flag := Flag_Set (Flag_Set 0 FlagJSON) (RequestType_Flags (Type_ req)) in
      let marshalled := Marshal_Request0 (Type_ req) (Method req) (Args req) in
      let h := wrap_int32 (highest r + 1) in
      let packet := {| Flag := flag; Req := h; Body := match marshalled with
                                                        | inl body => body
                                                        | inr _ => []
                                                        end |} in
      let req' := {| Type_ := Type_ req; Method := Method req; Args := Args req;
                     tipe := tipe req; Stream := WithReq h (Stream req); in_ := in_ req;
                     pkt := Some packet |} in
      let r1 := {| pkr := pkr r; reqs := <[h := p]> (reqs r); highest := h;
                   terminated := terminated r; heap := <[p := req']> (heap r);
                   spawned := spawned r |} in
      match marshalled with
      | inr err => Returned r1 (Some err)
      | inl _ =>
          let '(pk, err) := Packer_Pour packet (pkr r1) in
          Returned {| pkr := pk; reqs := reqs r1; highest := highest r1;
                      terminated := terminated r1; heap := heap r1;
                      spawned := spawned r1 |} err
      end
  end.

(** The part [Async], [Source], [Sink] and [Duplex] share: the request,
    built over a new pipe, is sent with [Do]. *)
Definition call `{Collaborators} (req : Request) (r : rpc) : outcome rpc (loc + error) :=
  let p := length (heap r) in
  let r1 := {| pkr := pkr r; reqs := reqs r; highest := highest r;
               terminated := terminated r; heap := heap r ++ [req];
               spawned := spawned r |} in
  match Do p r1 with
  | Panicked r2 msg => Panicked r2 msg
  | Returned r2 (Some err) => Returned r2 (inr (ErrWrap err "error sending request"))
  | Returned r2 None => Returned r2 (inl p)
  end.

(** [func (r *rpc) Async(ctx, tipe, method, args...)], up to
    [req.Stream.Next(ctx)], the wait for the reply. *)
Definition Async `{Collaborators} (tp : option string) (method : list string) (args : list json)
    (r : rpc) : outcome rpc (loc + error) :=
  call {| Type_ := "async"; Method := method; Args := args; tipe := tp;
          Stream := NewStream 0; in_ := Some (NewPipe bufSize); pkt := None |} r.

(** [func (r *rpc) Source(ctx, tipe, method, args...)] *)
Definition Source `{Collaborators} (tp : option string) (method : list string) (args : list json)
    (r : rpc) : outcome rpc (loc + error) :=
  call {| Type_ := "source"; Method := method; Args := args; tipe := tp;
          Stream := NewStream 0; in_ := Some (NewPipe bufSize); pkt := None |} r.

(** [func (r *rpc) Sink(ctx, method, args...)] *)
Definition Sink `{Collaborators} (method : list string) (args : list json)
    (r : rpc) : outcome rpc (loc + error) :=
  call {| Type_ := "sink"; Method := method; Args := args; tipe := None;
          Stream := NewStream 0; in_ := Some (NewPipe bufSize); pkt := None |} r.

(** [func (r *rpc) Duplex(ctx, method, args...)] *)
Definition Duplex `{Collaborators} (method : list string) (args : list json)
    (r : rpc) : outcome rpc (loc + error) :=
  call {| Type_ := "duplex"; Method := method; Args := args; tipe := None;
          Stream := NewStream 0; in_ := Some (NewPipe bufSize); pkt := None |} r.

(** [func (r *rpc) Terminate() error] *)
Definition Terminate (r : rpc) : rpc * option error :=
  let '(pk, err) := Packer_Close (pkr r) in
  ({| pkr := pk; reqs := reqs r; highest := highest r; terminated := true;
      heap := heap r; spawned := spawned r |}, err).

(** [func (r *rpc) ParseRequest(pkt *codec.Packet)], which returns a
    request pointer and an error. *)
Definition ParseRequest `{Collaborators} (r : rpc) (packet : Packet) : Request + error :=
  if negb (Flag_Get (Flag packet) FlagJSON) then inr (ErrNew "expected JSON flag")
  else if 0 <=? Req packet then inr (ErrNew "expected negative request id")
  else
    match Decode_Request0 (Body packet) with
    | inr err => inr (ErrWrap err "error decoding packet")
    | inl (ty, method, args) =>
        inl {| Type_ := ty; Method := method; Args := args; tipe := None;
               Stream := NewStream (Req packet); in_ := Some (NewPipe bufSize);
               pkt := Some packet |}
    end.

(** [func (r *rpc) fetchRequest(ctx, pkt)], which returns the request,
    whether it is new, and an error. *)
Definition fetchRequest `{Collaborators} (packet : Packet) (r : rpc)
    : (rpc * loc * bool) + error :=
  match reqs r !! Req packet with
  | Some p => inl (r, p, false)
  | None =>
      match ParseRequest r packet with
      | inr err => inr (ErrWrap err "error parsing request")
      | inl req =>
          let p := length (heap r) in
          inl ({| pkr := pkr r; reqs := <[Req packet := p]> (reqs r); highest := highest r;
                  terminated := terminated r; heap := heap r ++ [req];
                  spawned := spawned r ++ [TaskOnCall p] |}, p, true)
      end
  end.

End Legacy.

(** ** A reference instance of the collaborators

    A JSON writer and reader to run the session on concrete wire data:
    objects, arrays, number literals, the three names, and strings written
    and read the way Go's [encoding/json] does it (the escapes it writes, the
    escapes it accepts, and its coercion of strings to well-formed UTF-8).
    It is what the examples below instantiate [Collaborators] with; the
    theorems about the session hold for every instance. *)

Module Ref.

Definition bytes_of (s : string) : list byte := String.list_byte_of_string s.
Definition string_of (b : list byte) : string := String.string_of_list_byte b.

(** *** Strings, as [encoding/json] writes and reads them *)

Definition in_range (lo hi : Z) (b : byte) : bool :=
  (lo <=? Z_of_byte b) && (Z_of_byte b <=? hi).

(** [utf8.DecodeRune]: the code point at the head of [bs] and its width;
    the replacement character with width 1 where the head is not the start
    of a well-formed sequence. *)
Definition decode_rune (bs : list byte) : Z * nat :=
  match bs with
  | [] => (65533, 0%nat)
  | b0 :: t =>
      let n0 := Z_of_byte b0 in
      if n0 <? 128 then (n0, 1%nat)
      else if in_range 194 223 b0 then
        match t with
        | b1 :: _ =>
            if in_range 128 191 b1
            then ((n0 - 192) * 64 + (Z_of_byte b1 - 128), 2%nat)
            else (65533, 1%nat)
        | _ => (65533, 1%nat)
        end
      else if in_range 224 239 b0 then
        match t with
        | b1 :: b2 :: _ =>
            if in_range (if n0 =? 224 then 160 else 128) (if n0 =? 237 then 159 else 191) b1
               && in_range 128 191 b2
            then ((n0 - 224) * 4096 + (Z_of_byte b1 - 128) * 64 + (Z_of_byte b2 - 128), 3%nat)
            else (65533, 1%nat)
        | _ => (65533, 1%nat)
        end
      else if in_range 240 244 b0 then
        match t with
        | b1 :: b2 :: b3 :: _ =>
            if in_range (if n0 =? 240 then 144 else 128) (if n0 =? 244 then 143 else 191) b1
               && in_range 128 191 b2 && in_range 128 191 b3
            then ((n0 - 240) * 262144 + (Z_of_byte b1 - 128) * 4096
                  + (Z_of_byte b2 - 128) * 64 + (Z_of_byte b3 - 128), 4%nat)
            else (65533, 1%nat)
        | _ => (65533, 1%nat)
        end
      else (65533, 1%nat)
  end.

(** [utf8.EncodeRune]: surrogates and code points past U+10FFFF are
    written as the replacement character. *)
Definition encode_rune (r : Z) : list byte :=
  if (r <? 0) || (1114111 <? r) || ((55296 <=? r) && (r <=? 57343))
  then [xef; xbf; xbd]
  else if r <? 128 then [byte_of_Z r]
  else if r <? 2048 then [byte_of_Z (192 + r / 64); byte_of_Z (128 + r mod 64)]
  else if r <? 65536 then
    [byte_of_Z (224 + r / 4096); byte_of_Z (128 + (r / 64) mod 64); byte_of_Z (128 + r mod 64)]
  else
    [byte_of_Z (240 + r / 262144); byte_of_Z (128 + (r / 4096) mod 64);
     byte_of_Z (128 + (r / 64) mod 64); byte_of_Z (128 + r mod 64)].

Definition hex_digit (n : Z) : byte :=
  if n <? 10 then byte_of_Z (48 + n) else byte_of_Z (87 + n).

(** The six bytes of a [\u] escape of a code point below 65536. *)
Definition u_escape (r : Z) : list byte :=
  [x5c; x75; hex_digit (r / 4096); hex_digit ((r / 256) mod 16);
   hex_digit ((r / 16) mod 16); hex_digit (r mod 16)].

(** The string writer of [json.Marshal] (with its escaping of the three
    HTML characters): [copy] bytes of a well-formed sequence are still to be
    copied, [skip] bytes of an escaped one still to be passed over. *)
Fixpoint quote_bytes (copy skip : nat) (b : list byte) : list byte :=
  match b with
  | [] => [x22]
  | c :: b' =>
      match copy, skip with
      | S copy', _ => c :: quote_bytes copy' skip b'
      | O, S skip' => quote_bytes O skip' b'
      | O, O =>
          let n := Z_of_byte c in
          if n <? 128 then
            if bool_decide (c = x22 \/ c = x5c) then x5c :: c :: quote_bytes O O b'
            else if bool_decide (c = x0a) then x5c :: x6e :: quote_bytes O O b'
            else if bool_decide (c = x0d) then x5c :: x72 :: quote_bytes O O b'
            else if bool_decide (c = x09) then x5c :: x74 :: quote_bytes O O b'
            else if (n <? 32) || bool_decide (c = x3c \/ c = x3e \/ c = x26)
            then u_escape n ++ quote_bytes O O b'
            else c :: quote_bytes O O b'
          else
            let '(r, size) := decode_rune b in
            if (r =? 65533) && Nat.eqb size 1 then u_escape 65533 ++ quote_bytes O O b'
            else if (r =? 8232) || (r =? 8233) then u_escape r ++ quote_bytes O (pred size) b'
            else c :: quote_bytes (pred size) O b'
      end
  end.

Definition print_string (s : string) : list byte := x22 :: quote_bytes O O (bytes_of s).

Fixpoint print (j : json) : list byte :=
  match j with
  | JNull => bytes_of "null"
  | JBool true => bytes_of "true"
  | JBool false => bytes_of "false"
  | JNumber lit => bytes_of lit
  | JString s => print_string s
  | JArray items =>
      x5b :: (fix go (l : list json) : list byte :=
                match l with
                | [] => [x5d]
                | [v] => print v ++ [x5d]
                | v :: l' => print v ++ x2c :: go l'
                end) items
  | JObject members =>
      x7b :: (fix go (l : list (string * json)) : list byte :=
                match l with
                | [] => [x7d]
                | [(k, v)] => print_string k ++ x3a :: print v ++ [x7d]
                | (k, v) :: l' => print_string k ++ x3a :: print v ++ x2c :: go l'
                end) members
  end.

Definition hex_value (c : byte) : option Z :=
  let n := Z_of_byte c in
  if in_range 48 57 c then Some (n - 48)
  else if in_range 97 102 c then Some (n - 87)
  else if in_range 65 70 c then Some (n - 55)
  else None.

(** [getu4]: the code unit of a [\u] escape at the head of [b]. *)
Definition getu4 (b : list byte) : option Z :=
  match b with
  | e :: u :: h3 :: h2 :: h1 :: h0 :: _ =>
      if bool_decide (e = x5c /\ u = x75) then
        h3' ← hex_value h3; h2' ← hex_value h2; h1' ← hex_value h1; h0' ← hex_value h0;
        Some (h3' * 4096 + h2' * 256 + h1' * 16 + h0')
      else None
  | _ => None
  end.

(** The string reader (the scanner's checks and [unquote]): the bytes of
    a string up to its closing quote, and the rest.  Control characters and
    unknown escapes are refused; a [\u] escape gives its code point, two of
    them a surrogate pair, a lone surrogate the replacement character; bytes
    that are not well-formed UTF-8 are replaced. *)
Fixpoint read_string_fuel (fuel : nat) (b : list byte) : option (list byte * list byte) :=
  match fuel with
  | O => None
  | S fuel' =>
      match b with
      | [] => None
      | c :: b' =>
          if bool_decide (c = x22) then Some ([], b')
          else if Z_of_byte c <? 32 then None
          else if bool_decide (c = x5c) then
            match b' with
            | [] => None
            | e :: b'' =>
                let simple (out : byte) :=
                  match read_string_fuel fuel' b'' with
                  | Some (s, rest) => Some (out :: s, rest)
                  | None => None
                  end in
                if bool_decide (e = x22 \/ e = x5c \/ e = x2f) then simple e
                else if bool_decide (e = x62) then simple x08
                else if bool_decide (e = x66) then simple x0c
                else if bool_decide (e = x6e) then simple x0a
                else if bool_decide (e = x72) then simple x0d
                else if bool_decide (e = x74) then simple x09
                else if bool_decide (e = x75) then
                  match getu4 b with
                  | None => None
                  | Some rr =>
                      let after := drop 6 b in
                      let '(r, after') :=
                        if (55296 <=? rr) && (rr <=? 57343) then
                          match getu4 after with
                          | Some rr1 =>
                              if (rr <=? 56319) && (56320 <=? rr1) && (rr1 <=? 57343)
                              then ((rr - 55296) * 1024 + (rr1 - 56320) + 65536, drop 6 after)
                              else (65533, after)
                          | None => (65533, after)
                          end
                        else (rr, after) in
                      match read_string_fuel fuel' after' with
                      | Some (s, rest) => Some (encode_rune r ++ s, rest)
                      | None => None
                      end
                  end
                else None
            end
          else if Z_of_byte c <? 128 then
            match read_string_fuel fuel' b' with
            | Some (s, rest) => Some (c :: s, rest)
            | None => None
            end
          else
            let '(r, size) := decode_rune b in
            match read_string_fuel fuel' (drop size b) with
            | Some (s, rest) => Some (encode_rune r ++ s, rest)
            | None => None
            end
      end
  end.

(** What the reader returns after a step that has produced [out]. *)
Definition read_more (out : list byte) (r : option (list byte * list byte))
    : option (list byte * list byte) :=
  match r with
  | Some (s, rest) => Some (out ++ s, rest)
  | None => None
  end.

Definition read_string (b : list byte) : option (list byte * list byte) :=
  read_string_fuel (S (length b)) b.

Definition is_space (c : byte) : bool :=
  bool_decide (c = x20 \/ c = x09 \/ c = x0a \/ c = x0d).

Fixpoint skip_space (b : list byte) : list byte :=
  match b with
  | c :: b' => if is_space c then skip_space b' else b
  | [] => []
  end.

Definition is_number_char (c : byte) : bool :=
  let n := Byte.to_N c in
  ((48 <=? n)%N && (n <=? 57)%N) || bool_decide (c = x2d \/ c = x2e \/ c = x2b \/ c = x65 \/ c = x45).

Fixpoint read_number (b : list byte) : list byte * list byte :=
  match b with
  | c :: b' =>
      if is_number_char c then let '(n, rest) := read_number b' in (c :: n, rest)
      else ([], b)
  | [] => ([], [])
  end.

Definition strip_prefix (p b : list byte) : option (list byte) :=
  if bool_decide (take (length p) b = p) then Some (drop (length p) b) else None.

(** One value, and what follows it.  [fuel] bounds the nesting and the
    number of items and members read. *)
Fixpoint read_value (fuel : nat) (b : list byte) : option (json * list byte) :=
  match fuel with
  | O => None
  | S fuel' =>
      match skip_space b with
      | [] => None
      | c :: b' =>
          if bool_decide (c = x22) then
            match read_string b' with
            | Some (s, rest) => Some (JString (string_of s), rest)
            | None => None
            end
          else if bool_decide (c = x5b) then
            match skip_space b' with
            | d :: rest => if bool_decide (d = x5d) then Some (JArray [], rest)
                           else read_items fuel' b'
            | [] => None
            end
          else if bool_decide (c = x7b) then
            match skip_space b' with
            | d :: rest => if bool_decide (d = x7d) then Some (JObject [], rest)
                           else read_members fuel' b'
            | [] => None
            end
          else if bool_decide (c = x6e) then
            match strip_prefix (bytes_of "ull") b' with
            | Some rest => Some (JNull, rest)
            | None => None
            end
          else if bool_decide (c = x74) then
            match strip_prefix (bytes_of "rue") b' with
            | Some rest => Some (JBool true, rest)
            | None => None
            end
          else if bool_decide (c = x66) then
            match strip_prefix (bytes_of "alse") b' with
            | Some rest => Some (JBool false, rest)
            | None => None
            end
          else if is_number_char c then
            let '(n, rest) := read_number (c :: b') in Some (JNumber (string_of n), rest)
          else None
      end
  end
with read_items (fuel : nat) (b : list byte) : option (json * list byte) :=
  match fuel with
  | O => None
  | S fuel' =>
      match read_value fuel' b with
      | None => None
      | Some (v, rest) =>
          match skip_space rest with
          | d :: rest' =>
              if bool_decide (d = x5d) then Some (JArray [v], rest')
              else if bool_decide (d = x2c) then
                match read_items fuel' rest' with
                | Some (JArray vs, rest'') => Some (JArray (v :: vs), rest'')
                | _ => None
                end
              else None
          | [] => None
          end
      end
  end
with read_members (fuel : nat) (b : list byte) : option (json * list byte) :=
  match fuel with
  | O => None
  | S fuel' =>
      match skip_space b with
      | q :: b' =>
          if bool_decide (q = x22) then
            match read_string b' with
            | Some (k, rest) =>
                match skip_space rest with
                | c :: rest' =>
                    if bool_decide (c = x3a) then
                      match read_value fuel' rest' with
                      | None => None
                      | Some (v, rest'') =>
                          match skip_space rest'' with
                          | d :: rest3 =>
                              if bool_decide (d = x7d)
                              then Some (JObject [(string_of k, v)], rest3)
                              else if bool_decide (d = x2c) then
                                match read_members fuel' rest3 with
                                | Some (JObject ms, rest4) =>
                                    Some (JObject ((string_of k, v) :: ms), rest4)
                                | _ => None
                                end
                              else None
                          | [] => None
                          end
                      end
                    else None
                | [] => None
                end
            | None => None
            end
          else None
      | [] => None
      end
  end.

(** A whole text: one value and nothing but blanks after it. *)
Definition parse (b : list byte) : json + error :=
  match read_value (S (length b)) b with
  | Some (v, rest) =>
      match skip_space rest with
      | [] => inl v
      | _ :: _ => inr (ErrOther "json: invalid character after top-level value")
      end
  | None => inr (ErrOther "json: syntax error")
  end.

Definition ascii_lower (c : byte) : byte :=
  let n := Byte.to_N c in
  if ((65 <=? n)%N && (n <=? 90)%N)%bool then default c (Byte.of_N (n + 32)) else c.

Definition fold_eq (a b : string) : bool :=
  bool_decide (map ascii_lower (bytes_of a) = map ascii_lower (bytes_of b)).

Definition member (k : string) (ms : list (string * json)) : option json :=
  snd <$> List.find (fun kv => bool_decide (kv.1 = k)) ms.

Definition strings_of (j : json) : option (list string) :=
  match j with
  | JArray items =>
      mapM (fun v => match v with JString s => Some s | _ => None end) items
  | _ => None
  end.

(** The request header on the wire (§4.4): [name], [type] and [args]. *)
Definition decode_request (b : list byte) : (string * list string * json) + error :=
  match parse b with
  | inr err => inr err
  | inl (JObject ms) =>
      match member "name" ms ≫= strings_of with
      | None => inr (ErrOther "json: cannot unmarshal request")
      | Some method =>
          let ty := match member "type" ms with Some (JString t) => t | _ => "" end in
          inl (ty, method, default JNull (member "args" ms))
      end
  | inl _ => inr (ErrOther "json: cannot unmarshal request")
  end.

Definition error_name (e : error) : string :=
  match Cause e with
  | EOS => "end of stream"
  | ErrSessionTerminated => "muxrpc: session terminated"
  | ErrNew msg => msg
  | ErrOther tag => tag
  | ErrCall c => Message c
  | ErrWrap _ msg => msg
  end.

Definition collaborators : Collaborators := {|
  json_parse := parse;
  json_print := print;
  equalFold := fold_eq;
  Marshal_Request := fun ty method args =>
    match parse args with
    | inr err => inr err
    | inl a => inl (print (JObject [("name", JArray (JString <$> method));
                                    ("type", JString ty); ("args", a)]))
    end;
  Decode_Request := fun b =>
    match decode_request b with
    | inr err => inr err
    | inl (ty, method, a) => inl (ty, method, print a)
    end;
  Marshal_args := fun args => inl (print (JArray args));
  Marshal_Request0 := fun ty method args =>
    inl (print (JObject [("name", JArray (JString <$> method));
                         ("type", JString ty); ("args", JArray args)]));
  Decode_Request0 := fun b =>
    match decode_request b with
    | inr err => inr err
    | inl (ty, method, JArray a) => inl (ty, method, a)
    | inl (ty, method, _) => inl (ty, method, [])
    end;
  isAlreadyClosed := fun e =>
    match Cause e with
    | ErrOther tag => bool_decide (tag = "use of closed network connection")
    | _ => false
    end;
  errorBody := fun e =>
    print (CallError_toJSON {| Name := "Error"; Message := error_name e; Stack := "" |});
  range_order := map_to_list;
  range_order_perm := fun m => reflexivity (map_to_list m)
|}.

(** [utf8.Valid]: every byte belongs to a well-formed sequence. *)
Fixpoint wellformed_fuel (fuel : nat) (b : list byte) : bool :=
  match b with
  | [] => true
  | _ :: _ =>
      match fuel with
      | O => false
      | S fuel' =>
          let '(r, size) := decode_rune b in
          if (r =? 65533) && Nat.eqb size 1 then false
          else wellformed_fuel fuel' (drop size b)
      end
  end.

Definition wellformed (s : string) : bool :=
  wellformed_fuel (length (bytes_of s)) (bytes_of s).

End Ref.

(** ** The statements of the specification that the code is compared with *)

(** The table of §4.5 as the receiving side reads it: the call type a
    request ends with and the input and output capability of its stream, by
    the [stream] flag of the initiation packet and the type it names; [None]
    where the type is not one the flag allows.  An empty type without the
    flag counts as [async]. *)
Definition capabilities_of (streamFlag : bool) (ty : string)
    : option (string * Rpc.streamCapability * Rpc.streamCapability) :=
  if streamFlag then
    if bool_decide (ty = "duplex") then Some ("duplex", Rpc.streamCapMultiple, Rpc.streamCapMultiple)
    else if bool_decide (ty = "source") then Some ("source", Rpc.streamCapNone, Rpc.streamCapMultiple)
    else if bool_decide (ty = "sink") then Some ("sink", Rpc.streamCapMultiple, Rpc.streamCapNone)
    else None
  else
    if bool_decide (ty = "" \/ ty = "async") then Some ("async", Rpc.streamCapNone, Rpc.streamCapOnce)
    else None.

(** Successive calls of [Do], one for each request of [ps]: the request ids
    they put on their initiation packets ([highest] after each call), and the
    session afterwards.  A call that panics ends the run. *)
Fixpoint Rpc_issue `{Collaborators} (ps : list loc) (r : Rpc.rpc) : list Z * Rpc.rpc :=
  match ps with
  | [] => ([], r)
  | p :: ps' =>
      match Rpc.Do p r with
      | Returned r' _ => let '(ids, r'') := Rpc_issue ps' r' in (Rpc.highest r' :: ids, r'')
      | Panicked r' _ => ([], r')
      end
  end.

Fixpoint Legacy_issue `{Collaborators} (ps : list loc) (r : Legacy.rpc) : list Z * Legacy.rpc :=
  match ps with
  | [] => ([], r)
  | p :: ps' =>
      match Legacy.Do p r with
      | Returned r' _ => let '(ids, r'') := Legacy_issue ps' r' in (Legacy.highest r' :: ids, r'')
      | Panicked r' _ => ([], r')
      end
  end.

(** The turns of [Serve]'s loop for [frames], as long as each goes on to
    the next header: the session before the next read, or [None] when a turn
    returns, blocks or panics. *)
Fixpoint Rpc_turns `{Collaborators} (frames : list wireFrame) (r : Rpc.rpc) : option Rpc.rpc :=
  match frames with
  | [] => Some r
  | f :: frames' =>
      match Rpc.serveFrame f r with
      | Rpc.Continue r' => Rpc_turns frames' r'
      | _ => None
      end
  end.

(** The terminal state the specification gives a stream closed with [cerr]
    ([None] for a plain end): both directions closed, the inbound one with
    the error, or end-of-stream, unless it was closed before. *)
Definition closed_with (cerr : option error) (s : Rpc.stream) : Rpc.stream :=
  {| Rpc.s_req := Rpc.s_req s; Rpc.s_tipe := Rpc.s_tipe s; Rpc.s_in := Rpc.s_in s;
     Rpc.s_out := Rpc.s_out s;
     Rpc.s_inClosed := match Rpc.s_inClosed s with
                       | Some e => Some e
                       | None => Some (default EOS cerr)
                       end;
     Rpc.s_outClosed := true |}.

(** ** Invariants of the session *)

(** A table entry is sound when its pointer leads to a request that
    carries the entry's key as its id, whose [abort] is set, and that can
    take a body: it has a pipe or a byte source. *)
Definition Rpc_entry_ok (r : Rpc.rpc) (k : Z) (p : loc) : bool :=
  match Rpc.heap r !! p with
  | None => false
  | Some req =>
      bool_decide (Rpc.id req = k)
      && match Rpc.abort req with Rpc.AbortNil => false | _ => true end
      && bool_decide (is_Some (Rpc.in_ req) \/ is_Some (Rpc.source req))
  end.

(** Every entry of the request table is sound. *)
Definition Rpc_wf (r : Rpc.rpc) : Prop :=
  map_Forall (fun k p => Rpc_entry_ok r k p = true) (Rpc.reqs r).

(** The ids in use: [highest] has not wrapped, and every key of the table
    is negative (a request of the peer) or one of the ids allocated so
    far. *)
Definition Rpc_ids_ok (r : Rpc.rpc) : Prop :=
  0 <= Rpc.highest r
  /\ map_Forall (fun k (_ : loc) => k < 0 \/ 1 <= k <= Rpc.highest r) (Rpc.reqs r).

(** The packet [Serve] pours into a request's pipe for a frame. *)
Definition packet_of (f : wireFrame) : Packet :=
  {| Flag := hFlag (wf_hdr f); Req := hReq (wf_hdr f); Body := rd_data (wf_body f) |}.

(** A payload frame for the request [k] whose body arrives whole. *)
Definition payload_for (k : Z) (f : wireFrame) : bool :=
  negb (Flag_Get (hFlag (wf_hdr f)) FlagEndErr)
  && (hReq (wf_hdr f) =? k)
  && bool_decide (rd_err (wf_body f) = None)
  && (Z.of_nat (length (rd_data (wf_body f))) =? hLen (wf_hdr f)).

(** ** Wire examples *)

Module Example.

Definition open_packer : Packer := {| sent := []; pkr_closed := false |}.

(** The initiation body of the specification's first scenario. *)
Definition whoami (ty : string) : list byte :=
  Ref.print (JObject [("name", JArray [JString "whoami"]); ("type", JString ty);
                      ("args", JArray [])]).

(** An initiation frame as the receiving side sees it. *)
Definition initiation (flag req : Z) (ty : string) : wireFrame :=
  {| wf_hdr := {| hFlag := flag; hLen := Z.of_nat (length (whoami ty)); hReq := req |};
     wf_body := {| rd_data := whoami ty; rd_err := None |} |}.

Definition payload (flag req : Z) (body : list byte) : wireFrame :=
  {| wf_hdr := {| hFlag := flag; hLen := Z.of_nat (length body); hReq := req |};
     wf_body := {| rd_data := body; rd_err := None |} |}.

(** A sink request not yet sent, and a session that holds it. *)
Definition sink_request : Rpc.Request :=
  {| Rpc.Type_ := "sink"; Rpc.Method := ["whoami"]; Rpc.RawArgs := None; Rpc.tipe := None;
     Rpc.id := 0; Rpc.Stream := Rpc.newStream 0 Rpc.streamCapNone Rpc.streamCapMultiple;
     Rpc.in_ := Some (NewPipe Rpc.bufSize); Rpc.source := None; Rpc.abort := Rpc.AbortNil;
     Rpc.ctxDone := false |}.

Definition session : Rpc.rpc := (Rpc.alloc sink_request (Rpc.Handle open_packer)).1.

Definition legacy_sink_request : Legacy.Request :=
  {| Legacy.Type_ := "sink"; Legacy.Method := ["whoami"]; Legacy.Args := [];
     Legacy.tipe := None; Legacy.Stream := Legacy.NewStream 0;
     Legacy.in_ := Some (NewPipe Legacy.bufSize); Legacy.pkt := None |}.

Definition legacy_session : Legacy.rpc :=
  {| Legacy.pkr := open_packer; Legacy.reqs := ∅; Legacy.highest := 0;
     Legacy.terminated := false; Legacy.heap := [legacy_sink_request];
     Legacy.spawned := [Legacy.TaskOnConnect] |}.

(** The two sessions once [highest] has reached the largest [int32]. *)
Definition session_at_max : Rpc.rpc := Rpc.set_highest MaxInt32 session.

Definition legacy_session_at_max : Legacy.rpc :=
  {| Legacy.pkr := open_packer; Legacy.reqs := ∅; Legacy.highest := MaxInt32;
     Legacy.terminated := false; Legacy.heap := [legacy_sink_request];
     Legacy.spawned := [Legacy.TaskOnConnect] |}.

(** A session that has received an async call under the id -1, and the
    request it has built for it. *)
Definition incoming : Rpc.rpc :=
  default (Rpc.Handle open_packer)
    (Rpc_turns (H := Ref.collaborators) [initiation FlagJSON (-1) "async"]
       (Rpc.Handle open_packer)).

Definition incoming_request : Rpc.Request := default sink_request (Rpc.heap incoming !! 0%nat).

(** The end frame of that call: the body [true]. *)
Definition end_true : wireFrame := payload (Z.lor FlagJSON FlagEndErr) (-1) trueBytes.

(** The session a call has left, whether it returned or panicked. *)
Definition after (o : outcome Rpc.rpc (loc + error)) : Rpc.rpc :=
  match o with Returned s _ | Panicked s _ => s end.

(** A session that has made one source call, and the request of that call. *)
Definition source_session : Rpc.rpc :=
  after (Rpc.Source (H := Ref.collaborators) None ["createHistoryStream"] []
           (Rpc.Handle open_packer)).

Definition source_request : Rpc.Request :=
  default sink_request (Rpc.heap source_session !! 0%nat).

(** The same session once the consumer has cancelled the byte source. *)
Definition cancelled_source : ByteSource.t :=
  {| ByteSource.buf := newFrameBuffer;
     ByteSource.failed := Some (ErrOther "context canceled");
     ByteSource.closed := true |}.

Definition cancelled_session : Rpc.rpc :=
  Rpc.set_heap [Rpc.set_source (Some cancelled_source) source_request] source_session.

(** A session that has sent the sink call of [session], under the id 1. *)
Definition sink_session : Rpc.rpc := (Rpc_issue (H := Ref.collaborators) [0%nat] session).2.

End Example.

(** * Properties *)

(** ** Machine integers and the length prefix *)

Lemma Z_of_byte_of_Z (z : Z) : Z_of_byte (byte_of_Z z) = z mod 256.
Proof.
  unfold Z_of_byte, byte_of_Z.
  assert (Hr : 0 <= z mod 256 < 256) by (apply Z.mod_pos_bound; lia).
  destruct (Byte.of_N (Z.to_N (z mod 256))) as [b|] eqn:Hb; simpl.
  - apply Byte.to_of_N in Hb. rewrite Hb. lia.
  - apply Byte.of_N_None_iff in Hb. lia.
Qed.

Lemma Uint32_PutUint32 (v : Z) : 0 <= v < 2 ^ 32 -> Uint32 (PutUint32 v) = v.
Proof.
  intros Hv. unfold Uint32, PutUint32. simpl.
  rewrite !Z_of_byte_of_Z.
  change (2 ^ 8) with 256. change (2 ^ 16) with 65536. change (2 ^ 24) with 16777216.
  change (2 ^ 32) with 4294967296 in Hv.
  pose proof (Z.div_mod v 256 ltac:(lia)) as H0.
  pose proof (Z.div_mod (v / 256) 256 ltac:(lia)) as H1.
  pose proof (Z.div_mod (v / 256 / 256) 256 ltac:(lia)) as H2.
  assert (E2 : v / 65536 = v / 256 / 256) by (rewrite Z.div_div by lia; reflexivity).
  assert (E3 : v / 16777216 = v / 256 / 256 / 256) by (rewrite !Z.div_div by lia; reflexivity).
  rewrite E2, E3.
  assert (Hs : 0 <= v / 256 / 256 / 256 < 256).
  { split.
    - repeat apply Z.div_pos; lia.
    - repeat (apply Z.div_lt_upper_bound; [lia|]). lia. }
  rewrite (Z.mod_small (v / 256 / 256 / 256)) by lia.
  lia.
Qed.

Lemma length_PutUint32 (v : Z) : length (PutUint32 v) = 4%nat.
Proof. reflexivity. Qed.

(** ** frameBuffer is a first-in-first-out queue of bodies *)

Lemma stored_app (xs ys : list (list byte)) : stored (xs ++ ys) = stored xs ++ stored ys.
Proof. unfold stored. by rewrite map_app, concat_app. Qed.

Lemma stored_cons (b : list byte) (bs : list (list byte)) :
  stored (b :: bs) = PutUint32 (Z.of_nat (length b)) ++ b ++ stored bs.
Proof. unfold stored. cbn [map concat]. unfold frame_bytes. by rewrite <- app_assoc. Qed.

Lemma refines_new : refines newFrameBuffer fifo_empty.
Proof. split; simpl; try done; try lia. Qed.

Lemma wrap_uint32_small (z : Z) : 0 <= z < 2 ^ 32 -> wrap_uint32 z = z.
Proof. intros. unfold wrap_uint32. by apply Z.mod_small. Qed.

Lemma copyBody_refines (fw : frameBuffer) (q q' : fifo) (pktLen : Z) (rd : reader) (ev : event) :
  refines fw q ->
  fifo_step (OpCopy pktLen rd) q = Some (q', ev) ->
  exists fw', step (OpCopy pktLen rd) fw = (fw', ev) /\ refines fw' q'.
Proof.
  intros [Hs Hl Hr Ht Hf Hb Hz] Hstep. simpl in Hstep.
  destruct (rd_err rd) as [e|] eqn:He; [done|].
  destruct (Z.of_nat (length (rd_data rd)) =? pktLen) eqn:Hlen; [|done].
  destruct (pktLen <? 2 ^ 32) eqn:Hlt; [|done].
  apply Z.eqb_eq in Hlen. apply Z.ltb_lt in Hlt.
  simpl in Hstep. injection Hstep as <- <-.
  unfold step, copyBody. rewrite He.
  rewrite wrap_uint32_small by lia.
  replace (Z.of_nat (length (rd_data rd)) =? pktLen) with true by (symmetry; by apply Z.eqb_eq).
  simpl. eexists. split; [done|].
  split; simpl; try done.
  - rewrite Hs, stored_app, stored_cons, Hlen.
    change (stored []) with (@nil byte). rewrite app_nil_r.
    by rewrite <- !app_assoc.
  - rewrite Hf, length_app. simpl. unfold wrap_uint32.
    rewrite Z.add_mod_idemp_l by lia. f_equal. lia.
  - apply Forall_app. split; [done|]. constructor; [lia|constructor].
Qed.

Lemma getNextFrameReader_refines (fw : frameBuffer) (q q' : fifo) (ev : event) :
  refines fw q ->
  fifo_step OpGet q = Some (q', ev) ->
  exists fw', step OpGet fw = (fw', ev) /\ refines fw' q'.
Proof.
  intros [Hs Hl Hr Ht Hf Hb Hz] Hstep. simpl in Hstep.
  destruct (pending q) as [|b rest] eqn:Hp; [done|].
  injection Hstep as <- <-.
  apply Forall_cons in Hz as [Hb0 Hrest].
  assert (Hskip : skipUnread fw = stored (b :: rest)).
  { unfold skipUnread. rewrite Hl, Hs. cbv zeta.
    rewrite wrap_uint32_small by lia.
    destruct (currentFrameTotal fw =? 0) eqn:Ez; simpl.
    - apply Z.eqb_eq in Ez.
      assert (length (current q) = 0%nat) as ->%nil_length_inv by lia. done.
    - destruct (0 <? Z.of_nat (length (current q))) eqn:Ed.
      + rewrite Nat2Z.id. by rewrite drop_app_length.
      + apply Z.ltb_ge in Ed.
        assert (length (current q) = 0%nat) as ->%nil_length_inv by lia. done. }
  unfold step, getNextFrameReader. rewrite Hskip, stored_cons.
  destruct (lenBuf fw) as [|l0 [|l1 [|l2 [|l3 [|l4 lb]]]]] eqn:Hlb; simpl in Hb; try lia.
  cbn [PutUint32 app take drop length]. rewrite !take_0. cbn [length drop app].
  change [byte_of_Z (Z.of_nat (length b)); byte_of_Z (Z.of_nat (length b) / 2 ^ 8);
          byte_of_Z (Z.of_nat (length b) / 2 ^ 16); byte_of_Z (Z.of_nat (length b) / 2 ^ 24)]
    with (PutUint32 (Z.of_nat (length b))).
  rewrite Uint32_PutUint32 by lia.
  eexists. split; [done|].
  split; simpl; try done; try lia.
  rewrite Hf. simpl. unfold wrap_uint32.
  rewrite Z.add_mod_idemp_l by lia.
  replace (Z.of_nat (S (length rest)) + (2 ^ 32 - 1))
    with (Z.of_nat (length rest) + 1 * 2 ^ 32) by lia.
  by rewrite Z.mod_add by lia.
Qed.

Lemma readFrame_refines (fw : frameBuffer) (q q' : fifo) (n : nat) (ev : event) :
  refines fw q ->
  fifo_step (OpRead n) q = Some (q', ev) ->
  exists fw', step (OpRead n) fw = (fw', ev) /\ refines fw' q'.
Proof.
  intros [Hs Hl Hr Ht Hf Hb Hz] Hstep. simpl in Hstep.
  injection Hstep as <- <-.
  unfold step, readFrame. rewrite Hl.
  destruct (current q) as [|c cur] eqn:Hc.
  - simpl. rewrite drop_nil, take_nil. eexists. split; [done|].
    split; simpl; try done.
  - replace (Z.of_nat (length (c :: cur)) <=? 0) with false
      by (symmetry; apply Z.leb_gt; simpl; lia).
    rewrite Hs. cbn [app]. rewrite Nat2Z.id.
    set (n' := Nat.min n (length (c :: cur))).
    assert (Hn' : (n' <= length (c :: cur))%nat) by (unfold n'; lia).
    assert (Htake : take n' ((c :: cur) ++ stored (pending q)) = take n (c :: cur)).
    { rewrite take_app_le by done. unfold n'.
      destruct (Nat.le_ge_cases n (length (c :: cur))).
      - by rewrite Nat.min_l.
      - rewrite Nat.min_r by done. by rewrite !take_ge. }
    assert (Hdrop : drop n' ((c :: cur) ++ stored (pending q))
                    = drop n (c :: cur) ++ stored (pending q)).
    { rewrite drop_app_le by done. f_equal. unfold n'.
      destruct (Nat.le_ge_cases n (length (c :: cur))).
      - by rewrite Nat.min_l.
      - rewrite Nat.min_r by done. by rewrite !drop_ge. }
    change (c :: cur ++ stored (pending q)) with ((c :: cur) ++ stored (pending q)).
    rewrite Htake, Hdrop.
    eexists. split; [done|].
    assert (Hgot : length (take n (c :: cur)) = n').
    { rewrite length_take. unfold n'. lia. }
    split; cbn [store currentFrameTotal currentFrameRead frames lenBuf current pending];
      try done.
    + rewrite length_drop, Hgot.
      destruct (Nat.eqb n' 0) eqn:E0.
      * apply Nat.eqb_eq in E0. unfold n' in *. lia.
      * apply Nat.eqb_neq in E0. rewrite wrap_uint32_small; unfold n' in *; lia.
    + rewrite Hgot. destruct (Nat.eqb n' 0); [done|].
      rewrite wrap_uint32_small; unfold n' in *; lia.
Qed.









(** ** ByteSource: closing twice *)

Lemma ByteSource_CloseWithError_closed (err : option error) (bs : ByteSource.t) :
  ByteSource.closed bs = true ->
  ByteSource.CloseWithError err bs
  = Panicked {| ByteSource.buf := ByteSource.buf bs;
                ByteSource.failed := Some (match err with None => EOS | Some e => e end);
                ByteSource.closed := true |}
             "close of closed channel".
Proof. intros H. unfold ByteSource.CloseWithError. simpl. by rewrite H. Qed.

Lemma ByteSource_Cancel_failed (err : option error) (bs : ByteSource.t) :
  is_Some (ByteSource.failed bs) -> ByteSource.Cancel err bs = Returned bs tt.
Proof. intros [e He]. unfold ByteSource.Cancel. by rewrite He. Qed.

(** C7. On a [ByteSource] the second [Close] is not a no-op: it panics on
    the closed channel; and [Close] after [CloseWithError e] has replaced
    [e] by end-of-stream when it panics.  [Cancel], which tests [failed]
    first, is a no-op after either. *)
Theorem ByteSource_Close_twice (e : error) :
  ByteSource.Close ByteSource.new
  = Returned {| ByteSource.buf := newFrameBuffer;
                ByteSource.failed := Some EOS; ByteSource.closed := true |} None
  /\ ByteSource.Close {| ByteSource.buf := newFrameBuffer;
                         ByteSource.failed := Some EOS; ByteSource.closed := true |}
     = Panicked {| ByteSource.buf := newFrameBuffer;
                   ByteSource.failed := Some EOS; ByteSource.closed := true |}
                "close of closed channel"
  /\ ByteSource.CloseWithError (Some e) ByteSource.new
     = Returned {| ByteSource.buf := newFrameBuffer;
                   ByteSource.failed := Some e; ByteSource.closed := true |} None
  /\ ByteSource.Close {| ByteSource.buf := newFrameBuffer;
                         ByteSource.failed := Some e; ByteSource.closed := true |}
     = Panicked {| ByteSource.buf := newFrameBuffer;
                   ByteSource.failed := Some EOS; ByteSource.closed := true |}
                "close of closed channel"
  /\ ByteSource.Cancel None {| ByteSource.buf := newFrameBuffer;
                               ByteSource.failed := Some e; ByteSource.closed := true |}
     = Returned {| ByteSource.buf := newFrameBuffer;
                   ByteSource.failed := Some e; ByteSource.closed := true |} tt.
Proof. repeat split. Qed.

(** ** ParseRequest *)

Lemma Rpc_ParseRequest_built (C : Collaborators) (r : Rpc.rpc) (pkt : Header) (body : reader)
    (req : Rpc.Request) :
  Rpc.ParseRequest r pkt body = inl req ->
  Flag_Get (hFlag pkt) FlagJSON = true /\ hReq pkt < 0
  /\ Rpc.id req = hReq pkt /\ Rpc.s_req (Rpc.Stream req) = hReq pkt.
Proof.
  unfold Rpc.ParseRequest.
  destruct (Flag_Get (hFlag pkt) FlagJSON); simpl; [|done].
  destruct (0 <=? hReq pkt) eqn:Hneg; [done|]. apply Z.leb_gt in Hneg.
  destruct (match rd_err body with Some err => inr err | None => Decode_Request (rd_data body) end)
    as [[[ty method] args]|err]; [|done].
  destruct (Flag_Get (hFlag pkt) FlagStream).
  - repeat case_bool_decide; simpl; intros [= <-]; simpl; auto.
  - repeat case_bool_decide; simpl; intros [= <-]; simpl; auto.
Qed.

Lemma Legacy_ParseRequest_built (C : Collaborators) (r : Legacy.rpc) (packet : Packet)
    (req : Legacy.Request) :
  Legacy.ParseRequest r packet = inl req ->
  Flag_Get (Flag packet) FlagJSON = true /\ Req packet < 0
  /\ Legacy.s_req (Legacy.Stream req) = Req packet.
Proof.
  unfold Legacy.ParseRequest.
  destruct (Flag_Get (Flag packet) FlagJSON); simpl; [|done].
  destruct (0 <=? Req packet) eqn:Hneg; [done|]. apply Z.leb_gt in Hneg.
  destruct (Decode_Request0 (Body packet)) as [[[ty method] args]|err]; [|done].
  intros [= <-]; simpl; auto.
Qed.

(** C5. In both revisions [ParseRequest] returns an error, and no request,
    for a packet without the JSON flag or with a request id that is not
    negative; a request it returns comes from a packet with the JSON flag and
    a negative id, which the request and its stream carry.  In the newer
    revision such a packet, arriving as a payload for an id the table does
    not hold, ends [Serve]'s turn with the error and leaves the session as it
    was. *)
Theorem ParseRequest_rejects (C : Collaborators) :
  (forall (r : Rpc.rpc) (pkt : Header) (body : reader),
      Flag_Get (hFlag pkt) FlagJSON = false \/ 0 <= hReq pkt ->
      exists e : error, Rpc.ParseRequest r pkt body = inr e)
  /\ (forall (r : Rpc.rpc) (pkt : Header) (body : reader) (req : Rpc.Request),
        Rpc.ParseRequest r pkt body = inl req ->
        Flag_Get (hFlag pkt) FlagJSON = true /\ hReq pkt < 0
        /\ Rpc.id req = hReq pkt /\ Rpc.s_req (Rpc.Stream req) = hReq pkt)
  /\ (forall (r : Rpc.rpc) (f : wireFrame),
        Flag_Get (hFlag (wf_hdr f)) FlagEndErr = false ->
        Rpc.reqs r !! hReq (wf_hdr f) = None ->
        Flag_Get (hFlag (wf_hdr f)) FlagJSON = false \/ 0 <= hReq (wf_hdr f) ->
        exists e : error, Rpc.serveFrame f r = Rpc.Return r (Some e))
  /\ (forall (r : Legacy.rpc) (packet : Packet),
        Flag_Get (Flag packet) FlagJSON = false \/ 0 <= Req packet ->
        exists e : error, Legacy.ParseRequest r packet = inr e)
  /\ (forall (r : Legacy.rpc) (packet : Packet) (req : Legacy.Request),
        Legacy.ParseRequest r packet = inl req ->
        Flag_Get (Flag packet) FlagJSON = true /\ Req packet < 0
        /\ Legacy.s_req (Legacy.Stream req) = Req packet).
Proof.
  assert (Hnew : forall (r : Rpc.rpc) (pkt : Header) (body : reader),
             Flag_Get (hFlag pkt) FlagJSON = false \/ 0 <= hReq pkt ->
             exists e : error, Rpc.ParseRequest r pkt body = inr e).
  { intros r pkt body Hbad.
    destruct (Rpc.ParseRequest r pkt body) as [req|e] eqn:Hp; [|by exists e].
    apply Rpc_ParseRequest_built in Hp as (Hj & Hn & _).
    destruct Hbad as [Hbad|Hbad]; [congruence|lia]. }
  split; [exact Hnew|].
  split; [intros r pkt body req; apply Rpc_ParseRequest_built|].
  split.
  { intros r [hdr body] Hend Hnone Hbad. simpl in *.
    destruct (Hnew r hdr body Hbad) as [e He].
    unfold Rpc.serveFrame, Rpc.fetchRequest. simpl. rewrite Hend, Hnone, He.
    by eexists. }
  split; [|intros r packet req; apply Legacy_ParseRequest_built].
  intros r packet Hbad.
  destruct (Legacy.ParseRequest r packet) as [req|e] eqn:Hp; [|by exists e].
  apply Legacy_ParseRequest_built in Hp as (Hj & Hn & _).
  destruct Hbad as [Hbad|Hbad]; [congruence|lia].
Qed.

Lemma ParseRequest_rejects_witness :
  (exists e : error,
      Rpc.ParseRequest (H := Ref.collaborators) (Rpc.Handle Example.open_packer)
        (wf_hdr (Example.initiation FlagJSON 1 "async"))
        (wf_body (Example.initiation FlagJSON 1 "async")) = inr e)
  /\ (exists e : error,
        Rpc.serveFrame (H := Ref.collaborators) (Example.initiation 0 (-1) "async")
          (Rpc.Handle Example.open_packer)
        = Rpc.Return (Rpc.Handle Example.open_packer) (Some e))
  /\ (exists e : error,
        Legacy.ParseRequest (H := Ref.collaborators) (Legacy.Handle Example.open_packer)
          {| Flag := FlagJSON; Req := 0; Body := Example.whoami "async" |} = inr e).
Proof.
  destruct (ParseRequest_rejects Ref.collaborators) as (Hnew & _ & Hserve & Hold & _).
  split; [|split].
  - apply Hnew. right. simpl. lia.
  - apply Hserve; [reflexivity|reflexivity|]. left. reflexivity.
  - apply Hold. right. simpl. lia.
Defined.

(** C4. [ParseRequest] in the newer revision gives the stream of a request
    the capabilities of the table [capabilities_of]: for a packet with the JSON
    flag and a negative id whose body decodes to a request of type [ty], it
    returns a request with the table's type and capabilities where the table
    has an entry for the packet's [stream] flag and [ty], and the error
    "unhandled request type" where it has none; and every request it returns
    has a type and capabilities of the table. *)
Theorem ParseRequest_capabilities (C : Collaborators) :
  (forall (r : Rpc.rpc) (pkt : Header) (body : reader) (ty : string)
          (method : list string) (args : list byte),
      Flag_Get (hFlag pkt) FlagJSON = true ->
      hReq pkt < 0 ->
      rd_err body = None ->
      Decode_Request (rd_data body) = inl (ty, method, args) ->
      match capabilities_of (Flag_Get (hFlag pkt) FlagStream) ty with
      | Some (ty', ins, outs) =>
          exists req : Rpc.Request,
            Rpc.ParseRequest r pkt body = inl req
            /\ Rpc.Type_ req = ty'
            /\ Rpc.s_in (Rpc.Stream req) = ins
            /\ Rpc.s_out (Rpc.Stream req) = outs
      | None =>
          exists t : string,
            Rpc.ParseRequest r pkt body = inr (ErrNew ("unhandled request type: " +:+ fmt_q t))
      end)
  /\ (forall (r : Rpc.rpc) (pkt : Header) (body : reader) (req : Rpc.Request),
        Rpc.ParseRequest r pkt body = inl req ->
        exists ty : string,
          capabilities_of (Flag_Get (hFlag pkt) FlagStream) ty
          = Some (Rpc.Type_ req, Rpc.s_in (Rpc.Stream req), Rpc.s_out (Rpc.Stream req))).
Proof.
  split.
  - intros r pkt body ty method args Hj Hneg Herr Hdec.
    unfold Rpc.ParseRequest, capabilities_of. rewrite Hj, Herr, Hdec. simpl.
    replace (0 <=? hReq pkt) with false by (symmetry; apply Z.leb_gt; lia).
    destruct (Flag_Get (hFlag pkt) FlagStream).
    + repeat case_bool_decide; subst; try done; try (eexists; by repeat split).
    + repeat case_bool_decide; subst; try done; try (eexists; by repeat split);
        exfalso; intuition congruence.
  - intros r pkt body req. unfold Rpc.ParseRequest, capabilities_of.
    destruct (Flag_Get (hFlag pkt) FlagJSON); simpl; [|done].
    destruct (0 <=? hReq pkt); [done|].
    destruct (match rd_err body with Some err => inr err | None => Decode_Request (rd_data body) end)
      as [[[ty method] args]|err]; [|done].
    destruct (Flag_Get (hFlag pkt) FlagStream).
    + repeat case_bool_decide; simpl; intros [= <-]; simpl; subst.
      * exists "duplex". by rewrite bool_decide_true.
      * exists "source". rewrite bool_decide_false by done. by rewrite bool_decide_true.
      * exists "sink". rewrite !bool_decide_false by done. by rewrite bool_decide_true.
    + repeat case_bool_decide; simpl; intros [= <-]; simpl; subst;
        exists "async"; rewrite bool_decide_true; auto.
Qed.

Lemma ParseRequest_capabilities_witness :
  exists req : Rpc.Request,
    Rpc.ParseRequest (H := Ref.collaborators) (Rpc.Handle Example.open_packer)
      (wf_hdr (Example.initiation (Z.lor FlagJSON FlagStream) (-1) "source"))
      (wf_body (Example.initiation (Z.lor FlagJSON FlagStream) (-1) "source")) = inl req
    /\ Rpc.Type_ req = "source"
    /\ Rpc.s_in (Rpc.Stream req) = Rpc.streamCapNone
    /\ Rpc.s_out (Rpc.Stream req) = Rpc.streamCapMultiple.
Proof.
  destruct (ParseRequest_capabilities Ref.collaborators) as [Htable _].
  exact (Htable (Rpc.Handle Example.open_packer)
           (wf_hdr (Example.initiation (Z.lor FlagJSON FlagStream) (-1) "source"))
           (wf_body (Example.initiation (Z.lor FlagJSON FlagStream) (-1) "source"))
           "source" ["whoami"] [x5b; x5d]
           eq_refl eq_refl eq_refl eq_refl).
Defined.

(** ** The capacity of the requests' queues *)

Lemma Rpc_Do_heap (C : Collaborators) (p : loc) (r r' : Rpc.rpc) (req : Rpc.Request)
    (err : option error) :
  Rpc.heap r !! p = Some req ->
  Rpc.Do p r = Returned r' err ->
  exists req' : Rpc.Request,
    Rpc.heap r' !! p = Some req'
    /\ Rpc.in_ req' = Rpc.in_ req /\ Rpc.source req' = Rpc.source req
    /\ Rpc.Type_ req' = Rpc.Type_ req
    /\ Rpc.id req' = Rpc.highest r' /\ Rpc.s_req (Rpc.Stream req') = Rpc.highest r'
    /\ Rpc.s_in (Rpc.Stream req') = Rpc.s_in (Rpc.Stream req)
    /\ Rpc.s_out (Rpc.Stream req') = Rpc.s_out (Rpc.Stream req).
Proof.
  intros Hp. unfold Rpc.Do. rewrite Hp.
  assert (Hlt : (p < length (Rpc.heap r))%nat) by (by eapply lookup_lt_Some).
  destruct (Marshal_Request _ _ _) as [body|e].
  - destruct (Packer_Pour _ _) as [pk e'] eqn:Hpour. intros [= <- <-]. simpl.
    rewrite list_lookup_insert_eq by done. eexists. split; [done|].
    destruct (Rpc.abort req); simpl; destruct (Rpc.RawArgs req); simpl; done.
  - intros [= <- <-]. simpl.
    rewrite list_lookup_insert_eq by done. eexists. split; [done|].
    destruct (Rpc.abort req); simpl; destruct (Rpc.RawArgs req); simpl; done.
Qed.

Lemma Rpc_call_request (C : Collaborators) (req : Rpc.Request) (r r' : Rpc.rpc) (p : loc) :
  Rpc.call req r = Returned r' (inl p) ->
  exists req' : Rpc.Request,
    Rpc.heap r' !! p = Some req'
    /\ Rpc.in_ req' = Rpc.in_ req /\ Rpc.source req' = Rpc.source req
    /\ Rpc.Type_ req' = Rpc.Type_ req
    /\ Rpc.id req' = Rpc.highest r' /\ Rpc.s_req (Rpc.Stream req') = Rpc.highest r'
    /\ Rpc.s_in (Rpc.Stream req') = Rpc.s_in (Rpc.Stream req)
    /\ Rpc.s_out (Rpc.Stream req') = Rpc.s_out (Rpc.Stream req).
Proof.
  unfold Rpc.call, Rpc.alloc.
  destruct (Rpc.Do _ _) as [r2 [e|]|r2 msg] eqn:HDo; try done.
  intros [= <- <-].
  eapply Rpc_Do_heap; [|exact HDo].
  simpl. by rewrite lookup_app_r, Nat.sub_diag by done.
Qed.

Lemma Legacy_call_request (C : Collaborators) (req : Legacy.Request) (r r' : Legacy.rpc)
    (p : loc) :
  Legacy.call req r = Returned r' (inl p) ->
  exists req' : Legacy.Request,
    Legacy.heap r' !! p = Some req'
    /\ Legacy.in_ req' = Legacy.in_ req
    /\ Legacy.s_req (Legacy.Stream req') = Legacy.highest r'.
Proof.
  unfold Legacy.call, Legacy.Do. simpl.
  rewrite lookup_app_r, Nat.sub_diag by done. simpl.
  destruct (Marshal_Request0 _ _ _) as [body|e]; [|done].
  destruct (Packer_Pour _ _) as [pk [e'|]] eqn:Hpour; [done|].
  intros [= <- <-]. simpl.
  rewrite list_lookup_insert_eq by (rewrite length_app; simpl; lia).
  eexists. by repeat split.
Qed.

(** C8 (amended). In the newer revision the queue of every request that
    [Async], [Sink], [Duplex] and [ParseRequest] create holds 150 values
    ([Source] creates none: its request is fed through a byte source); in the
    older revision the queue of every request that [Async], [Source], [Sink],
    [Duplex] and [ParseRequest] create holds 5.  A queue keeps its capacity
    when a value is poured into it. *)
Theorem queue_capacity (C : Collaborators) :
  (forall (tp : option string) (method : list string) (args : list json)
          (r r' : Rpc.rpc) (p : loc),
      Rpc.Async tp method args r = Returned r' (inl p)
      \/ Rpc.Sink method args r = Returned r' (inl p)
      \/ Rpc.Duplex tp method args r = Returned r' (inl p) ->
      exists (req : Rpc.Request) (q : pipe),
        Rpc.heap r' !! p = Some req /\ Rpc.in_ req = Some q
        /\ capacity q = 150%nat /\ queue q = [])
  /\ (forall (tp : option string) (method : list string) (args : list json)
             (r r' : Rpc.rpc) (p : loc),
        Rpc.Source tp method args r = Returned r' (inl p) ->
        exists req : Rpc.Request,
          Rpc.heap r' !! p = Some req /\ Rpc.in_ req = None)
  /\ (forall (r : Rpc.rpc) (pkt : Header) (body : reader) (req : Rpc.Request),
        Rpc.ParseRequest r pkt body = inl req ->
        exists q : pipe, Rpc.in_ req = Some q /\ capacity q = 150%nat /\ queue q = [])
  /\ (forall (tp : option string) (method : list string) (args : list json)
             (r r' : Legacy.rpc) (p : loc),
        Legacy.Async tp method args r = Returned r' (inl p)
        \/ Legacy.Source tp method args r = Returned r' (inl p)
        \/ Legacy.Sink method args r = Returned r' (inl p)
        \/ Legacy.Duplex method args r = Returned r' (inl p) ->
        exists (req : Legacy.Request) (q : pipe),
          Legacy.heap r' !! p = Some req /\ Legacy.in_ req = Some q
          /\ capacity q = 5%nat /\ queue q = [])
  /\ (forall (r : Legacy.rpc) (packet : Packet) (req : Legacy.Request),
        Legacy.ParseRequest r packet = inl req ->
        exists q : pipe, Legacy.in_ req = Some q /\ capacity q = 5%nat /\ queue q = [])
  /\ (forall (v : Packet) (q q' : pipe),
        pipe_Pour v q = Poured q' -> capacity q' = capacity q).
Proof.
  repeat apply conj.
  - intros tp method args r r' p Hcall.
    assert (exists req0, Rpc.call req0 r = Returned r' (inl p)
                         /\ Rpc.in_ req0 = Some (NewPipe Rpc.bufSize)) as (req0 & H0 & Hin).
    { unfold Rpc.Async, Rpc.Sink, Rpc.Duplex in Hcall.
      destruct (Rpc.marshalCallArgs args) as [argData|e];
        [|by destruct Hcall as [?|[?|?]]].
      destruct Hcall as [H|[H|H]]; eexists; (split; [exact H|done]). }
    apply Rpc_call_request in H0 as (req' & Hheap & Hin' & _).
    exists req', (NewPipe Rpc.bufSize). rewrite Hin', Hin. done.
  - intros tp method args r r' p. unfold Rpc.Source.
    destruct (Rpc.marshalCallArgs args) as [argData|e]; [|done].
    intros (req' & Hheap & Hin' & _)%Rpc_call_request. by exists req'.
  - intros r pkt body req. unfold Rpc.ParseRequest.
    destruct (negb _); [done|]. destruct (0 <=? hReq pkt); [done|].
    destruct (match rd_err body with Some err => inr err | None => Decode_Request (rd_data body) end)
      as [[[ty method] args]|err]; [|done].
    destruct (Flag_Get (hFlag pkt) FlagStream);
      repeat case_bool_decide; simpl; intros [= <-]; by eexists.
  - intros tp method args r r' p Hcall.
    assert (exists req0, Legacy.call req0 r = Returned r' (inl p)
                         /\ Legacy.in_ req0 = Some (NewPipe Legacy.bufSize)) as (req0 & H0 & Hin).
    { destruct Hcall as [H|[H|[H|H]]]; eexists; (split; [exact H|done]). }
    apply Legacy_call_request in H0 as (req' & Hheap & Hin' & _).
    exists req', (NewPipe Legacy.bufSize). rewrite Hin', Hin. done.
  - intros r packet req. unfold Legacy.ParseRequest.
    destruct (negb _); [done|]. destruct (0 <=? Req packet); [done|].
    destruct (Decode_Request0 (Body packet)) as [[[ty method] args]|err]; [|done].
    intros [= <-]. by eexists.
  - intros v q q'. unfold pipe_Pour.
    destruct (pipe_closed q); [done|]. destruct (_ <? _)%nat; [|done].
    by intros [= <-].
Qed.

(** C8, as stated, fails in the older revision: the queue [Async] creates
    there holds 5 values. *)
Lemma legacy_queue_holds_5 :
  exists (r' : Legacy.rpc) (req : Legacy.Request) (q : pipe),
    Legacy.Async (H := Ref.collaborators) None ["whoami"] [] (Legacy.Handle Example.open_packer)
    = Returned r' (inl 0%nat)
    /\ Legacy.heap r' !! 0%nat = Some req
    /\ Legacy.in_ req = Some q
    /\ capacity q = 5%nat
    /\ capacity q <> 150%nat.
Proof.
  eexists _, _, _. split; [reflexivity|]. split; [reflexivity|].
  split; [reflexivity|]. split; [reflexivity|]. vm_compute. intros [=].
Qed.

Lemma queue_capacity_witness :
  exists (r' : Rpc.rpc) (req : Rpc.Request) (q : pipe),
    Rpc.Async (H := Ref.collaborators) None ["whoami"] [] (Rpc.Handle Example.open_packer)
    = Returned r' (inl 0%nat)
    /\ Rpc.heap r' !! 0%nat = Some req /\ Rpc.in_ req = Some q
    /\ capacity q = 150%nat /\ queue q = [].
Proof.
  destruct (queue_capacity Ref.collaborators) as (Hnew & _).
  eexists. 
  assert (Hrun : Rpc.Async (H := Ref.collaborators) None ["whoami"] []
                   (Rpc.Handle Example.open_packer) = Returned _ (inl 0%nat)) by reflexivity.
  destruct (Hnew None ["whoami"] [] _ _ 0%nat (or_introl Hrun)) as (req & q & Hq).
  exists req, q. split; [exact Hrun|exact Hq].
Defined.

(** ** The request ids [Do] allocates *)

Lemma wrap_int32_succ (h : Z) : 0 <= h < MaxInt32 -> wrap_int32 (h + 1) = h + 1.
Proof.
  unfold MaxInt32, wrap_int32. intros Hh.
  rewrite Z.mod_small; lia.
Qed.

Lemma Rpc_Do_spec (C : Collaborators) (p : loc) (r : Rpc.rpc) (req : Rpc.Request) :
  Rpc.heap r !! p = Some req ->
  exists (r' : Rpc.rpc) (err : option error),
    Rpc.Do p r = Returned r' err
    /\ Rpc.highest r' = wrap_int32 (Rpc.highest r + 1)
    /\ Rpc.reqs r' = <[Rpc.highest r' := p]> (Rpc.reqs r)
    /\ length (Rpc.heap r') = length (Rpc.heap r)
    /\ (exists req' : Rpc.Request,
          Rpc.heap r' !! p = Some req'
          /\ Rpc.id req' = Rpc.highest r'
          /\ Rpc.s_req (Rpc.Stream req') = Rpc.highest r')
    /\ (err = None ->
        exists pkt : Packet,
          sent (Rpc.pkr r') = sent (Rpc.pkr r) ++ [pkt] /\ Req pkt = Rpc.highest r').
Proof.
  intros Hp.
  destruct (Rpc.Do p r) as [r' err|r' msg] eqn:HDo.
  2: { unfold Rpc.Do in HDo. rewrite Hp in HDo.
       destruct (Marshal_Request _ _ _); [destruct (Packer_Pour _ _)|]; done. }
  exists r', err. split; [done|].
  destruct (Rpc_Do_heap C p r r' req err Hp HDo) as (req' & Hh & _ & _ & _ & Hid & Hs & _).
  unfold Rpc.Do in HDo. rewrite Hp in HDo.
  destruct (Marshal_Request _ _ _) as [body|e].
  - unfold Packer_Pour in HDo. simpl in HDo.
    destruct (pkr_closed (Rpc.pkr r)) eqn:Hc; injection HDo as <- <-; simpl.
    + repeat split; try done; [by rewrite length_insert|by exists req'].
    + repeat split; try done; [by rewrite length_insert|by exists req'|].
      intros _. by eexists.
  - injection HDo as <- <-; simpl.
    repeat split; try done; [by rewrite length_insert|by exists req'].
Qed.

Lemma Legacy_Do_spec (C : Collaborators) (p : loc) (r : Legacy.rpc) (req : Legacy.Request) :
  Legacy.heap r !! p = Some req ->
  exists (r' : Legacy.rpc) (err : option error),
    Legacy.Do p r = Returned r' err
    /\ Legacy.highest r' = wrap_int32 (Legacy.highest r + 1)
    /\ Legacy.reqs r' = <[Legacy.highest r' := p]> (Legacy.reqs r)
    /\ length (Legacy.heap r') = length (Legacy.heap r)
    /\ (exists req' : Legacy.Request,
          Legacy.heap r' !! p = Some req'
          /\ Legacy.s_req (Legacy.Stream req') = Legacy.highest r')
    /\ (err = None ->
        exists pkt : Packet,
          sent (Legacy.pkr r') = sent (Legacy.pkr r) ++ [pkt] /\ Req pkt = Legacy.highest r').
Proof.
  intros Hp.
  assert (Hlt : (p < length (Legacy.heap r))%nat) by (by eapply lookup_lt_Some).
  unfold Legacy.Do. rewrite Hp.
  destruct (Marshal_Request0 _ _ _) as [body|e].
  - unfold Packer_Pour. simpl.
    destruct (pkr_closed (Legacy.pkr r)) eqn:Hc; eexists _, _; (split; [done|]); simpl.
    + repeat split; try done; [by rewrite length_insert|].
      rewrite list_lookup_insert_eq by done. by eexists.
    + repeat split; try done; [by rewrite length_insert| |].
      * rewrite list_lookup_insert_eq by done. by eexists.
      * intros _. by eexists.
  - eexists _, _. split; [done|]. simpl.
    repeat split; try done; [by rewrite length_insert|].
    rewrite list_lookup_insert_eq by done. by eexists.
Qed.

Lemma Rpc_issue_spec (C : Collaborators) (ps : list loc) :
  forall r : Rpc.rpc,
    Forall (fun p => (p < length (Rpc.heap r))%nat) ps ->
    0 <= Rpc.highest r ->
    Rpc.highest r + Z.of_nat (length ps) <= MaxInt32 ->
    (Rpc_issue ps r).1 = seqZ (Rpc.highest r + 1) (Z.of_nat (length ps))
    /\ Rpc.highest (Rpc_issue ps r).2 = Rpc.highest r + Z.of_nat (length ps)
    /\ length (Rpc.heap (Rpc_issue ps r).2) = length (Rpc.heap r).
Proof.
  induction ps as [|p ps IH]; intros r Hps H0 Hmax.
  - simpl. rewrite Z.add_0_r. done.
  - apply Forall_cons in Hps as [Hp Hps].
    destruct (lookup_lt_is_Some_2 _ _ Hp) as [req Hreq].
    destruct (Rpc_Do_spec C p r req Hreq) as (r' & err & HDo & Hh & _ & Hlen & _).
    rewrite wrap_int32_succ in Hh by (simpl length in Hmax; lia).
    cbn [Rpc_issue]. rewrite HDo.
    destruct (Rpc_issue ps r') as [ids r''] eqn:Hrest.
    specialize (IH r'). rewrite Hrest in IH. simpl in IH.
    destruct IH as (Hids & Hfin & Hlen').
    + by rewrite Hlen.
    + lia.
    + simpl length in Hmax. lia.
    + cbn [fst snd length]. rewrite Hids, Hfin, Hlen', Hh, Hlen.
      rewrite Nat2Z.inj_succ.
      split; [|split; [lia|done]].
      rewrite (seqZ_cons _ (Z.succ _)) by lia.
      f_equal. f_equal; lia.
Qed.

Lemma Legacy_issue_spec (C : Collaborators) (ps : list loc) :
  forall r : Legacy.rpc,
    Forall (fun p => (p < length (Legacy.heap r))%nat) ps ->
    0 <= Legacy.highest r ->
    Legacy.highest r + Z.of_nat (length ps) <= MaxInt32 ->
    (Legacy_issue ps r).1 = seqZ (Legacy.highest r + 1) (Z.of_nat (length ps))
    /\ Legacy.highest (Legacy_issue ps r).2 = Legacy.highest r + Z.of_nat (length ps)
    /\ length (Legacy.heap (Legacy_issue ps r).2) = length (Legacy.heap r).
Proof.
  induction ps as [|p ps IH]; intros r Hps H0 Hmax.
  - simpl. rewrite Z.add_0_r. done.
  - apply Forall_cons in Hps as [Hp Hps].
    destruct (lookup_lt_is_Some_2 _ _ Hp) as [req Hreq].
    destruct (Legacy_Do_spec C p r req Hreq) as (r' & err & HDo & Hh & _ & Hlen & _).
    rewrite wrap_int32_succ in Hh by (simpl length in Hmax; lia).
    cbn [Legacy_issue]. rewrite HDo.
    destruct (Legacy_issue ps r') as [ids r''] eqn:Hrest.
    specialize (IH r'). rewrite Hrest in IH. simpl in IH.
    destruct IH as (Hids & Hfin & Hlen').
    + by rewrite Hlen.
    + lia.
    + simpl length in Hmax. lia.
    + cbn [fst snd length]. rewrite Hids, Hfin, Hlen', Hh, Hlen.
      rewrite Nat2Z.inj_succ.
      split; [|split; [lia|done]].
      rewrite (seqZ_cons _ (Z.succ _)) by lia.
      f_equal. f_equal; lia.
Qed.

(** C1 (amended). In both revisions a call of [Do] with [highest] below
    the largest [int32] increments [highest], puts the new value, which is
    positive and above every id allocated before, on the initiation packet,
    stores the request in [reqs] under it and stamps it on the request's
    stream (and, in the newer revision, on the request); so the ids of
    successive calls are [highest + 1], [highest + 2], ... as long as they
    stay within [int32]. *)
Theorem request_ids (C : Collaborators) :
  (forall (p : loc) (r : Rpc.rpc) (req : Rpc.Request),
      Rpc.heap r !! p = Some req ->
      0 <= Rpc.highest r < MaxInt32 ->
      exists (r' : Rpc.rpc) (err : option error),
        Rpc.Do p r = Returned r' err
        /\ Rpc.highest r' = Rpc.highest r + 1
        /\ 0 < Rpc.highest r'
        /\ Rpc.reqs r' !! Rpc.highest r' = Some p
        /\ (exists req' : Rpc.Request,
              Rpc.heap r' !! p = Some req'
              /\ Rpc.id req' = Rpc.highest r'
              /\ Rpc.s_req (Rpc.Stream req') = Rpc.highest r')
        /\ (err = None ->
            exists pkt : Packet,
              sent (Rpc.pkr r') = sent (Rpc.pkr r) ++ [pkt] /\ Req pkt = Rpc.highest r'))
  /\ (forall (ps : list loc) (r : Rpc.rpc),
        Forall (fun p => (p < length (Rpc.heap r))%nat) ps ->
        0 <= Rpc.highest r ->
        Rpc.highest r + Z.of_nat (length ps) <= MaxInt32 ->
        (Rpc_issue ps r).1 = seqZ (Rpc.highest r + 1) (Z.of_nat (length ps)))
  /\ (forall (p : loc) (r : Legacy.rpc) (req : Legacy.Request),
        Legacy.heap r !! p = Some req ->
        0 <= Legacy.highest r < MaxInt32 ->
        exists (r' : Legacy.rpc) (err : option error),
          Legacy.Do p r = Returned r' err
          /\ Legacy.highest r' = Legacy.highest r + 1
          /\ 0 < Legacy.highest r'
          /\ Legacy.reqs r' !! Legacy.highest r' = Some p
          /\ (exists req' : Legacy.Request,
                Legacy.heap r' !! p = Some req'
                /\ Legacy.s_req (Legacy.Stream req') = Legacy.highest r')
          /\ (err = None ->
              exists pkt : Packet,
                sent (Legacy.pkr r') = sent (Legacy.pkr r) ++ [pkt]
                /\ Req pkt = Legacy.highest r'))
  /\ (forall (ps : list loc) (r : Legacy.rpc),
        Forall (fun p => (p < length (Legacy.heap r))%nat) ps ->
        0 <= Legacy.highest r ->
        Legacy.highest r + Z.of_nat (length ps) <= MaxInt32 ->
        (Legacy_issue ps r).1 = seqZ (Legacy.highest r + 1) (Z.of_nat (length ps))).
Proof.
  repeat apply conj.
  - intros p r req Hp Hh.
    destruct (Rpc_Do_spec C p r req Hp) as (r' & err & HDo & Hhigh & Hreqs & _ & Hreq & Hsent).
    rewrite wrap_int32_succ in Hhigh by done.
    exists r', err. repeat split; try done; try lia.
    rewrite Hreqs. apply lookup_insert_eq.
  - intros ps r Hps H0 Hmax. by apply Rpc_issue_spec.
  - intros p r req Hp Hh.
    destruct (Legacy_Do_spec C p r req Hp) as (r' & err & HDo & Hhigh & Hreqs & _ & Hreq & Hsent).
    rewrite wrap_int32_succ in Hhigh by done.
    exists r', err. repeat split; try done; try lia.
    rewrite Hreqs. apply lookup_insert_eq.
  - intros ps r Hps H0 Hmax. by apply Legacy_issue_spec.
Qed.

Lemma request_ids_witness :
  (Rpc_issue (H := Ref.collaborators) [0%nat; 0%nat; 0%nat] Example.session).1 = [1; 2; 3]
  /\ (Legacy_issue (H := Ref.collaborators) [0%nat; 0%nat] Example.legacy_session).1 = [1; 2].
Proof.
  destruct (request_ids Ref.collaborators) as (_ & Hnew & _ & Hold).
  split.
  - apply (Hnew [0%nat; 0%nat; 0%nat] Example.session).
    + repeat constructor.
    + simpl. lia.
    + unfold MaxInt32. simpl. lia.
  - apply (Hold [0%nat; 0%nat] Example.legacy_session).
    + repeat constructor.
    + simpl. lia.
    + unfold MaxInt32. simpl. lia.
Defined.

(** The state of the counterexample is one a session reaches: after [n]
    calls of [Do], [highest] is [n], up to the largest [int32]. *)
Lemma highest_reaches (C : Collaborators) (n : nat) :
  Z.of_nat n <= MaxInt32 ->
  Rpc.highest (Rpc_issue (replicate n 0%nat) Example.session).2 = Z.of_nat n
  /\ Legacy.highest (Legacy_issue (replicate n 0%nat) Example.legacy_session).2 = Z.of_nat n.
Proof.
  intros Hn. split.
  - destruct (Rpc_issue_spec C (replicate n 0%nat) Example.session) as (_ & Hh & _).
    + apply Forall_replicate. simpl. lia.
    + simpl. lia.
    + rewrite length_replicate. simpl. lia.
    + rewrite Hh, length_replicate. simpl. lia.
  - destruct (Legacy_issue_spec C (replicate n 0%nat) Example.legacy_session) as (_ & Hh & _).
    + apply Forall_replicate. simpl. lia.
    + simpl. lia.
    + rewrite length_replicate. simpl. lia.
    + rewrite Hh, length_replicate. simpl. lia.
Qed.

(** C1, as stated, fails once [highest] is the largest [int32]: the next
    id is the smallest [int32], neither positive nor above the one before.
    It holds in both revisions. *)
Lemma Do_wraps_at_MaxInt32 :
  (exists r' : Rpc.rpc,
      Rpc.Do (H := Ref.collaborators) 0%nat Example.session_at_max = Returned r' None
      /\ Rpc.highest Example.session_at_max = 2147483647
      /\ Rpc.highest r' = -2147483648
      /\ Rpc.reqs r' !! (-2147483648) = Some 0%nat
      /\ Req <$> last (sent (Rpc.pkr r')) = Some (-2147483648))
  /\ (exists r' : Legacy.rpc,
        Legacy.Do (H := Ref.collaborators) 0%nat Example.legacy_session_at_max = Returned r' None
        /\ Legacy.highest Example.legacy_session_at_max = 2147483647
        /\ Legacy.highest r' = -2147483648
        /\ Legacy.reqs r' !! (-2147483648) = Some 0%nat
        /\ Req <$> last (sent (Legacy.pkr r')) = Some (-2147483648)).
Proof.
  split; eexists; (split; [vm_compute; reflexivity|]); by vm_compute.
Qed.

(** ** Payload frames *)

(** C9 (amended). [Serve] does not look at the stream's input capability:
    a payload frame for a request of the table that has a pipe is read and
    poured into the pipe, whatever the capability, also [streamCapNone]; the
    turn goes on when the pipe is open and has room, waits when it is full,
    and returns the pipe's error when it is closed. *)
Theorem payload_is_poured (C : Collaborators) (f : wireFrame) (r : Rpc.rpc) (p : loc)
    (req : Rpc.Request) (inSink : pipe) (body : list byte) :
  Flag_Get (hFlag (wf_hdr f)) FlagEndErr = false ->
  Rpc.reqs r !! hReq (wf_hdr f) = Some p ->
  Rpc.heap r !! p = Some req ->
  Rpc.in_ req = Some inSink ->
  readBody (wf_hdr f) (wf_body f) = inl body ->
  Rpc.serveFrame f r
  = match pipe_closed inSink with
    | Some _ =>
        Rpc.Return r (Some (ErrWrap (ErrOther "pour to closed sink")
                                    "muxrpc: error pouring data to handler"))
    | None =>
        if (length (queue inSink) <? capacity inSink)%nat
        then Rpc.Continue
               (Rpc.set_heap
                  (<[p := Rpc.set_in
                            (Some {| queue := queue inSink
                                              ++ [{| Flag := hFlag (wf_hdr f);
                                                     Req := hReq (wf_hdr f);
                                                     Body := body |}];
                                     capacity := capacity inSink;
                                     pipe_closed := None |}) req]> (Rpc.heap r)) r)
        else Rpc.Blocks r
    end.
Proof.
  intros Hend Hreq Hheap Hin Hbody.
  unfold Rpc.serveFrame, Rpc.fetchRequest. rewrite Hend, Hreq. simpl.
  rewrite Hheap, Hin, Hbody. unfold pipe_Pour.
  destruct (pipe_closed inSink); [done|].
  by destruct (_ <? _)%nat.
Qed.

Lemma payload_is_poured_witness :
  Rpc.serveFrame (H := Ref.collaborators) (Example.payload FlagJSON 1 [x31])
    (Rpc_issue (H := Ref.collaborators) [0%nat] Example.session).2
  = Rpc.Continue
      (Rpc.set_heap
         (<[0%nat := Rpc.set_in
                       (Some {| queue := [{| Flag := FlagJSON; Req := 1; Body := [x31] |}];
                                capacity := 150; pipe_closed := None |})
                       (Rpc.set_id 1
                          (Rpc.set_Stream
                             (Rpc.WithType None (Rpc.WithReq 1 (Rpc.Stream Example.sink_request)))
                             (Rpc.set_RawArgs (Some [x5b; x5d])
                                (Rpc.set_abort Rpc.AbortNoop Example.sink_request))))]>
            (Rpc.heap (Rpc_issue (H := Ref.collaborators) [0%nat] Example.session).2))
         (Rpc_issue (H := Ref.collaborators) [0%nat] Example.session).2).
Proof.
  exact (payload_is_poured Ref.collaborators (Example.payload FlagJSON 1 [x31])
           (Rpc_issue (H := Ref.collaborators) [0%nat] Example.session).2 0%nat
           (Rpc.set_id 1
              (Rpc.set_Stream
                 (Rpc.WithType None (Rpc.WithReq 1 (Rpc.Stream Example.sink_request)))
                 (Rpc.set_RawArgs (Some [x5b; x5d])
                    (Rpc.set_abort Rpc.AbortNoop Example.sink_request))))
           (NewPipe Rpc.bufSize) [x31]
           eq_refl eq_refl eq_refl eq_refl eq_refl).
Defined.

(** C9, as stated, fails: an incoming async call gets a stream with input
    capability none, and a payload frame that follows under its id is put in
    its queue, the turn going on without an error. *)
Lemma payload_reaches_input_none :
  exists (r1 r2 : Rpc.rpc) (req : Rpc.Request),
    Rpc.serveFrame (H := Ref.collaborators) (Example.initiation FlagJSON (-1) "async")
      (Rpc.Handle Example.open_packer) = Rpc.Continue r1
    /\ Rpc.serveFrame (H := Ref.collaborators) (Example.payload FlagJSON (-1) [x31]) r1
       = Rpc.Continue r2
    /\ Rpc.reqs r2 !! (-1) = Some 0%nat
    /\ Rpc.heap r2 !! 0%nat = Some req
    /\ Rpc.s_in (Rpc.Stream req) = Rpc.streamCapNone
    /\ queue <$> Rpc.in_ req = Some [{| Flag := FlagJSON; Req := -1; Body := [x31] |}].
Proof.
  eexists _, _, _.
  split; [vm_compute; reflexivity|].
  split; [vm_compute; reflexivity|].
  by vm_compute.
Qed.

(** ** End frames *)


Lemma Request_CloseWithError_request (C : Collaborators) (cerr : option error)
    (req : Rpc.Request) (pk : Packer) :
  (Rpc.Request_CloseWithError cerr req pk).1.1
  = Rpc.set_Stream (closed_with cerr (Rpc.Stream req)) req.
Proof.
  unfold Rpc.Request_CloseWithError.
  destruct (Rpc.s_outClosed (Rpc.Stream req)); [done|].
  by destruct (Packer_Pour _ _).
Qed.

Lemma closeRequest_spec (C : Collaborators) (cerr : option error) (p : loc) (r : Rpc.rpc)
    (req : Rpc.Request) :
  Rpc.heap r !! p = Some req ->
  Rpc.heap (Rpc.closeRequest cerr p r)
  = <[p := Rpc.set_Stream (closed_with cerr (Rpc.Stream req)) req]> (Rpc.heap r)
  /\ Rpc.reqs (Rpc.closeRequest cerr p r) = Rpc.reqs r
  /\ Rpc.terminated (Rpc.closeRequest cerr p r) = Rpc.terminated r
  /\ Rpc.cancelled (Rpc.closeRequest cerr p r) = Rpc.cancelled r
  /\ Rpc.highest (Rpc.closeRequest cerr p r) = Rpc.highest r.
Proof.
  intros Hp. unfold Rpc.closeRequest. rewrite Hp.
  pose proof (Request_CloseWithError_request C cerr req (Rpc.pkr r)) as Hreq.
  destruct (Rpc.Request_CloseWithError cerr req (Rpc.pkr r)) as [[req' pk] err].
  simpl in Hreq. subst req'. done.
Qed.

Lemma closeStream_spec (C : Collaborators) (streamErr : option error) (p : loc) (r : Rpc.rpc)
    (req : Rpc.Request) :
  Rpc.heap r !! p = Some req ->
  Rpc.reqs (Rpc.closeStream p streamErr r) = delete (Rpc.id req) (Rpc.reqs r)
  /\ Rpc.heap (Rpc.closeStream p streamErr r)
     = <[p := Rpc.set_Stream (closed_with streamErr (Rpc.Stream req)) req]> (Rpc.heap r).
Proof.
  intros Hp.
  destruct (closeRequest_spec C streamErr p r req Hp) as (Hheap & Hreqs & _).
  assert (Hlt : (p < length (Rpc.heap r))%nat) by (by eapply lookup_lt_Some).
  unfold Rpc.closeStream. rewrite Hheap, list_lookup_insert_eq by done.
  simpl. by rewrite Hreqs, Hheap.
Qed.



(** ** Terminate *)

Lemma closed_with_idemp (cerr : option error) (s : Rpc.stream) :
  closed_with cerr (closed_with cerr s) = closed_with cerr s.
Proof. unfold closed_with. simpl. by destruct (Rpc.s_inClosed s). Qed.

Lemma elem_of_cons_ne (p q : loc) (l : list loc) : p <> q -> (p ∈ l <-> p ∈ q :: l).
Proof.
  intros Hne. rewrite elem_of_cons. split; [by right|]. by intros [?|?].
Qed.

Lemma closeRequest_fold (C : Collaborators) (cerr : option error) (l : list (Z * loc)) :
  forall r : Rpc.rpc,
    let r' := foldl (fun acc kp => Rpc.closeRequest cerr kp.2 acc) r l in
    Rpc.reqs r' = Rpc.reqs r
    /\ Rpc.terminated r' = Rpc.terminated r
    /\ Rpc.cancelled r' = Rpc.cancelled r
    /\ Rpc.highest r' = Rpc.highest r
    /\ forall (p : loc) (req : Rpc.Request),
         Rpc.heap r !! p = Some req ->
         Rpc.heap r' !! p
         = Some (if bool_decide (p ∈ l.*2)
                 then Rpc.set_Stream (closed_with cerr (Rpc.Stream req)) req
                 else req).
Proof.
  induction l as [|[k q] l IH]; intros r; cbn zeta.
  - simpl. repeat split. intros p req Hp. by rewrite Hp.
  - cbn [foldl]. rewrite fmap_cons. cbn [snd].
    specialize (IH (Rpc.closeRequest cerr q r)). cbn zeta in IH.
    destruct IH as (Hreqs & Hterm & Hcanc & Hhigh & Hheap).
    destruct (Rpc.heap r !! q) as [rq|] eqn:Hq.
    + destruct (closeRequest_spec C cerr q r rq Hq) as (Hh1 & Hr1 & Ht1 & Hc1 & Hg1).
      rewrite Hreqs, Hterm, Hcanc, Hhigh, Hr1, Ht1, Hc1, Hg1.
      repeat split. intros p req Hp.
      destruct (decide (p = q)) as [->|Hne].
      * rewrite Hq in Hp. injection Hp as ->.
        rewrite (Hheap q (Rpc.set_Stream (closed_with cerr (Rpc.Stream req)) req)).
        2: { rewrite Hh1. apply list_lookup_insert_eq. by eapply lookup_lt_Some. }
        rewrite (bool_decide_true (q ∈ q :: l.*2)) by (by left).
        cbn [Rpc.Stream Rpc.set_Stream]. rewrite closed_with_idemp. by case_bool_decide.
      * rewrite (Hheap p req) by (by rewrite Hh1, list_lookup_insert_ne).
        by rewrite (bool_decide_ext (p ∈ l.*2) (p ∈ q :: l.*2)) by (by apply elem_of_cons_ne).
    + assert (Hsame : Rpc.closeRequest cerr q r = r).
      { unfold Rpc.closeRequest. by rewrite Hq. }
      rewrite Hsame in Hreqs, Hterm, Hcanc, Hhigh, Hheap |- *.
      repeat split; try done. intros p req Hp.
      assert (p <> q) by congruence.
      rewrite (Hheap p req Hp).
      by rewrite (bool_decide_ext (p ∈ l.*2) (p ∈ q :: l.*2)) by (by apply elem_of_cons_ne).
Qed.

Lemma serveFrame_terminated (C : Collaborators) (f : wireFrame) (r r' : Rpc.rpc) :
  Rpc.serveFrame f r = Rpc.Continue r' -> Rpc.terminated r' = Rpc.terminated r.
Proof.
  unfold Rpc.serveFrame, Rpc.fetchRequest, Rpc.alloc.
  repeat case_match; simplify_eq; try done; intros [= <-]; done.
Qed.

Lemma Serve_turns (C : Collaborators) (frames : list wireFrame) (final : error) :
  forall r rN : Rpc.rpc,
    Rpc_turns frames r = Some rN ->
    Rpc.Serve frames final r
    = Rpc.ServeReturns (Rpc.deferred (Rpc.Terminate rN).1) (Rpc.doRet final rN)
    /\ Rpc.terminated rN = Rpc.terminated r.
Proof.
  induction frames as [|f frames IH]; intros r rN Hturns; simpl in *.
  - by injection Hturns as <-.
  - destruct (Rpc.serveFrame f r) as [r1| | |] eqn:Hf; try done.
    destruct (IH r1 rN Hturns) as [HS Ht].
    split; [done|]. rewrite Ht. by eapply serveFrame_terminated.
Qed.



(** ** CallError over the wire *)

Lemma CallError_lookup_tag (C : Collaborators) (f : CallError_field) :
  CallError_lookup (CallError_tag f) = Some f.
Proof. by destruct f. Qed.

(** C6. A [CallError] written with [json.Marshal] and read back with
    [parseError] comes out with the same name, message and stack, for every
    JSON library that reads back the object it has written for it: the three
    tags are distinct, so each member finds its own field, and [parseError]
    changes nothing of what [json.Unmarshal] delivers. *)
Theorem CallError_roundtrip (C : Collaborators) (e : CallError) :
  json_parse (json_print (CallError_toJSON e)) = inl (CallError_toJSON e) ->
  parseError (Marshal_CallError e) = (Some e, None)
  /\ (forall e' : CallError,
        parseError (Marshal_CallError e) = (Some e', None) ->
        Name e' = Name e /\ Message e' = Message e /\ Stack e' = Stack e).
Proof.
  intros Hlib.
  assert (Hparse : parseError (Marshal_CallError e) = (Some e, None)).
  { unfold parseError, Unmarshal_CallError, Marshal_CallError. rewrite Hlib.
    unfold CallError_toJSON. cbn [CallError_members].
    rewrite (CallError_lookup_tag C FName : CallError_lookup "name" = _),
      (CallError_lookup_tag C FMessage : CallError_lookup "message" = _),
      (CallError_lookup_tag C FStack : CallError_lookup "stack" = _).
    by destruct e. }
  split; [done|].
  intros e' He'. rewrite Hparse in He'. by injection He' as <-.
Qed.

Lemma CallError_roundtrip_witness :
  parseError (H := Ref.collaborators)
    (Marshal_CallError (H := Ref.collaborators)
       {| Name := "Error"; Message := "sample text"; Stack := "at whoami (1:1)" |})
  = (Some {| Name := "Error"; Message := "sample text"; Stack := "at whoami (1:1)" |}, None).
Proof.
  exact (proj1 (CallError_roundtrip Ref.collaborators
                  {| Name := "Error"; Message := "sample text"; Stack := "at whoami (1:1)" |}
                  eq_refl)).
Defined.

(** C6, as stated, fails for a field that is not well-formed UTF-8:
    [json.Marshal] writes the replacement character for the byte [0xff], and
    that is what [parseError] reads back. *)
Lemma CallError_invalid_utf8_replaced :
  parseError (H := Ref.collaborators)
    (Marshal_CallError (H := Ref.collaborators)
       {| Name := Ref.string_of [xff]; Message := "m"; Stack := "" |})
  = (Some {| Name := Ref.string_of [xef; xbf; xbd]; Message := "m"; Stack := "" |}, None)
  /\ Ref.parse (Marshal_CallError (H := Ref.collaborators)
                   {| Name := Ref.string_of [xff]; Message := "m"; Stack := "" |})
     = inl (JObject [("name", JString (Ref.string_of [xef; xbf; xbd]));
                     ("message", JString "m"); ("stack", JString "")])
  /\ Ref.string_of [xef; xbf; xbd] <> Ref.string_of [xff].
Proof.
  split; [by vm_compute|]. split; [by vm_compute|]. by vm_compute.
Qed.

(** ** Further properties of the serve loop *)

(** A turn of [Serve] allocates no id: [highest] is what it was, in
    whatever way the turn ends, and so is [terminated]. *)
Theorem serveFrame_keeps_highest (C : Collaborators) (f : wireFrame) (r : Rpc.rpc) :
  match Rpc.serveFrame f r with
  | Rpc.Continue r' | Rpc.Return r' _ | Rpc.Blocks r' | Rpc.Panics r' _ =>
      Rpc.highest r' = Rpc.highest r /\ Rpc.terminated r' = Rpc.terminated r
  end.
Proof.
  unfold Rpc.serveFrame, Rpc.fetchRequest, Rpc.alloc.
  repeat case_match; simplify_eq; done.
Qed.

(** An end frame for an id the table does not hold is passed over: the
    turn goes on with the session unchanged. *)
Theorem end_frame_unknown (C : Collaborators) (f : wireFrame) (r : Rpc.rpc) :
  Flag_Get (hFlag (wf_hdr f)) FlagEndErr = true ->
  Rpc.reqs r !! hReq (wf_hdr f) = None ->
  Rpc.serveFrame f r = Rpc.Continue r.
Proof.
  intros Hend Hnone. unfold Rpc.serveFrame. by rewrite Hend, Hnone.
Qed.

Lemma end_frame_unknown_witness :
  Rpc.serveFrame (H := Ref.collaborators) Example.end_true (Rpc.Handle Example.open_packer)
  = Rpc.Continue (Rpc.Handle Example.open_packer).
Proof.
  exact (end_frame_unknown Ref.collaborators Example.end_true (Rpc.Handle Example.open_packer)
           eq_refl eq_refl).
Defined.

(** ** The reference JSON library on well-formed UTF-8 *)

Lemma Z_of_byte_range (b : byte) : 0 <= Z_of_byte b < 256.
Proof.
  unfold Z_of_byte. pose proof (Byte.to_N_bounded b). lia.
Qed.

Lemma byte_of_Z_of_byte (b : byte) : byte_of_Z (Z_of_byte b) = b.
Proof.
  unfold byte_of_Z. rewrite Z.mod_small by apply Z_of_byte_range.
  unfold Z_of_byte. by rewrite N2Z.id, Byte.of_to_N.
Qed.

Lemma byte_of_Z_eq (z : Z) (b : byte) : z = Z_of_byte b -> byte_of_Z z = b.
Proof. intros ->. apply byte_of_Z_of_byte. Qed.

Lemma Z_of_byte_inj (a b : byte) : Z_of_byte a = Z_of_byte b -> a = b.
Proof. intros H. by rewrite <- (byte_of_Z_of_byte a), H, byte_of_Z_of_byte. Qed.

Lemma hex_value_digit (d : Z) : 0 <= d < 16 -> Ref.hex_value (Ref.hex_digit d) = Some d.
Proof.
  intros Hd.
  assert (d = 0 \/ d = 1 \/ d = 2 \/ d = 3 \/ d = 4 \/ d = 5 \/ d = 6 \/ d = 7 \/ d = 8
          \/ d = 9 \/ d = 10 \/ d = 11 \/ d = 12 \/ d = 13 \/ d = 14 \/ d = 15) as H by lia.
  repeat (destruct H as [->|H]; [reflexivity|]). by subst.
Qed.

Lemma getu4_u_escape (r : Z) (t : list byte) :
  0 <= r < 65536 -> Ref.getu4 (Ref.u_escape r ++ t) = Some r.
Proof.
  intros Hr. unfold Ref.getu4, Ref.u_escape. cbn [app].
  rewrite bool_decide_true by done.
  rewrite !hex_value_digit
    by (first [apply Z.mod_pos_bound; lia
              |split; [apply Z.div_pos; lia|apply Z.div_lt_upper_bound; lia]]).
  cbn. f_equal.
  pose proof (Z.div_mod r 16 ltac:(lia)).
  pose proof (Z.div_mod (r / 16) 16 ltac:(lia)).
  pose proof (Z.div_mod (r / 16 / 16) 16 ltac:(lia)).
  assert (r / 256 = r / 16 / 16) as -> by (rewrite Z.div_div by lia; reflexivity).
  assert (r / 4096 = r / 16 / 16 / 16) as -> by (rewrite !Z.div_div by lia; reflexivity).
  lia.
Qed.

Ltac zbool :=
  repeat match goal with
         | |- context [?a <? ?b] => destruct (Z.ltb_spec a b); try lia
         | |- context [?a <=? ?b] => destruct (Z.leb_spec a b); try lia
         | |- context [?a =? ?b] => destruct (Z.eqb_spec a b); try lia
         end.

Ltac zbool_in H :=
  repeat match type of H with
         | context [?a <? ?b] => destruct (Z.ltb_spec a b); try lia
         | context [?a <=? ?b] => destruct (Z.leb_spec a b); try lia
         | context [?a =? ?b] => destruct (Z.eqb_spec a b); try lia
         end.

Ltac list_eq :=
  repeat match goal with
         | |- _ :: _ = _ :: _ => f_equal
         end.

Lemma encode_rune_2 (n0 n1 : Z) :
  194 <= n0 <= 223 -> 128 <= n1 <= 191 ->
  Ref.encode_rune ((n0 - 192) * 64 + (n1 - 128)) = [byte_of_Z n0; byte_of_Z n1].
Proof.
  intros H0 H1. unfold Ref.encode_rune. zbool. cbn [orb andb].
  list_eq; f_equal; Z.div_mod_to_equations; lia.
Qed.

Lemma encode_rune_3 (n0 n1 n2 : Z) :
  224 <= n0 <= 239 ->
  (if n0 =? 224 then 160 else 128) <= n1 <= (if n0 =? 237 then 159 else 191) ->
  128 <= n2 <= 191 ->
  Ref.encode_rune ((n0 - 224) * 4096 + (n1 - 128) * 64 + (n2 - 128))
  = [byte_of_Z n0; byte_of_Z n1; byte_of_Z n2]
  /\ 2048 <= (n0 - 224) * 4096 + (n1 - 128) * 64 + (n2 - 128) < 65536.
Proof.
  intros H0 H1 H2.
  destruct (Z.eqb_spec n0 224); destruct (Z.eqb_spec n0 237); try lia.
  all: split; [|lia].
  all: unfold Ref.encode_rune; zbool; cbn [orb andb].
  all: list_eq; f_equal; Z.div_mod_to_equations; lia.
Qed.

Lemma encode_rune_4 (n0 n1 n2 n3 : Z) :
  240 <= n0 <= 244 ->
  (if n0 =? 240 then 144 else 128) <= n1 <= (if n0 =? 244 then 143 else 191) ->
  128 <= n2 <= 191 -> 128 <= n3 <= 191 ->
  Ref.encode_rune ((n0 - 240) * 262144 + (n1 - 128) * 4096 + (n2 - 128) * 64 + (n3 - 128))
  = [byte_of_Z n0; byte_of_Z n1; byte_of_Z n2; byte_of_Z n3]
  /\ 65536 <= (n0 - 240) * 262144 + (n1 - 128) * 4096 + (n2 - 128) * 64 + (n3 - 128).
Proof.
  intros H0 H1 H2 H3.
  destruct (Z.eqb_spec n0 240); destruct (Z.eqb_spec n0 244); try lia.
  all: split; [|lia].
  all: unfold Ref.encode_rune; zbool; cbn [orb andb].
  all: list_eq; f_equal; Z.div_mod_to_equations; lia.
Qed.

Lemma decode_rune_multibyte (c : byte) (t : list byte) (r : Z) (size : nat) :
  128 <= Z_of_byte c ->
  Ref.decode_rune (c :: t) = (r, size) ->
  (r =? 65533) && Nat.eqb size 1 = false ->
  (2 <= size <= 4)%nat
  /\ (size <= length (c :: t))%nat
  /\ Ref.encode_rune r = take size (c :: t)
  /\ 128 <= r
  /\ forall t' : list byte, Ref.decode_rune (take size (c :: t) ++ t') = (r, size).
Proof.
  intros Hc Hdec Hvalid.
  pose proof (Z_of_byte_range c) as Rc.
  unfold Ref.decode_rune, Ref.in_range in Hdec.
  destruct (Z_of_byte c <? 128) eqn:E1; [apply Z.ltb_lt in E1; lia|].
  destruct ((194 <=? Z_of_byte c) && (Z_of_byte c <=? 223)) eqn:E2.
  { destruct t as [|b1 t1]; [injection Hdec as <- <-; done|].
    destruct ((128 <=? Z_of_byte b1) && (Z_of_byte b1 <=? 191)) eqn:E3;
      [|injection Hdec as <- <-; done].
    injection Hdec as <- <-.
    pose proof E2 as [?%Z.leb_le ?%Z.leb_le]%andb_prop.
    pose proof E3 as [?%Z.leb_le ?%Z.leb_le]%andb_prop.
    split; [lia|]. split; [simpl; lia|]. split; [|split].
    - rewrite encode_rune_2 by lia. by rewrite !byte_of_Z_of_byte.
    - lia.
    - intros t'. cbn [take app]. unfold Ref.decode_rune, Ref.in_range.
      by rewrite E1, E2, E3. }
  destruct ((224 <=? Z_of_byte c) && (Z_of_byte c <=? 239)) eqn:E3.
  { destruct t as [|b1 [|b2 t2]]; try (injection Hdec as <- <-; done).
    match type of Hdec with (if ?cond then _ else _) = _ => destruct cond eqn:E4 end;
      [|injection Hdec as <- <-; done].
    injection Hdec as <- <-.
    pose proof E3 as [?%Z.leb_le ?%Z.leb_le]%andb_prop.
    pose proof E4 as [[?%Z.leb_le ?%Z.leb_le]%andb_prop [?%Z.leb_le ?%Z.leb_le]%andb_prop]%andb_prop.
    destruct (encode_rune_3 (Z_of_byte c) (Z_of_byte b1) (Z_of_byte b2)) as [Henc Hr];
      [lia|lia|lia|].
    split; [lia|]. split; [simpl; lia|]. split; [|split].
    - rewrite Henc. by rewrite !byte_of_Z_of_byte.
    - lia.
    - intros t'. cbn [take app]. unfold Ref.decode_rune, Ref.in_range.
      by rewrite E1, E2, E3, E4. }
  destruct ((240 <=? Z_of_byte c) && (Z_of_byte c <=? 244)) eqn:E4.
  { destruct t as [|b1 [|b2 [|b3 t3]]]; try (injection Hdec as <- <-; done).
    match type of Hdec with (if ?cond then _ else _) = _ => destruct cond eqn:E5 end;
      [|injection Hdec as <- <-; done].
    injection Hdec as <- <-.
    pose proof E4 as [?%Z.leb_le ?%Z.leb_le]%andb_prop.
    pose proof E5 as [[[?%Z.leb_le ?%Z.leb_le]%andb_prop
                          [?%Z.leb_le ?%Z.leb_le]%andb_prop]%andb_prop
                         [?%Z.leb_le ?%Z.leb_le]%andb_prop]%andb_prop.
    destruct (encode_rune_4 (Z_of_byte c) (Z_of_byte b1) (Z_of_byte b2) (Z_of_byte b3))
      as [Henc Hr]; [lia|lia|lia|lia|].
    split; [lia|]. split; [simpl; lia|]. split; [|split].
    - rewrite Henc. by rewrite !byte_of_Z_of_byte.
    - lia.
    - intros t'. cbn [take app]. unfold Ref.decode_rune, Ref.in_range.
      by rewrite E1, E2, E3, E4, E5. }
  injection Hdec as <- <-. done.
Qed.

Lemma quote_bytes_copy (k : nat) :
  forall b : list byte,
    (k <= length b)%nat ->
    Ref.quote_bytes k 0 b = take k b ++ Ref.quote_bytes 0 0 (drop k b).
Proof.
  induction k as [|k IH]; intros b Hk.
  - by rewrite take_0, drop_0.
  - destruct b as [|c b']; [simpl in Hk; lia|].
    cbn [Ref.quote_bytes take drop app]. rewrite IH by (simpl in Hk; lia). done.
Qed.

Lemma quote_bytes_skip (k : nat) :
  forall b : list byte, Ref.quote_bytes 0 k b = Ref.quote_bytes 0 0 (drop k b).
Proof.
  induction k as [|k IH]; intros b.
  - by rewrite drop_0.
  - destruct b as [|c b']; [done|]. cbn [Ref.quote_bytes drop]. apply IH.
Qed.

Lemma byte_neq_of_Z (c d : byte) : Z_of_byte c <> Z_of_byte d -> c <> d.
Proof. congruence. Qed.

(** The reader's steps. *)

Ltac in_list := repeat first [apply list_elem_of_here | apply list_elem_of_further].

Lemma read_simple_escape (fuel : nat) (e out : byte) (t : list byte) :
  (e, out) ∈ [(x22, x22); (x5c, x5c); (x6e, x0a); (x72, x0d); (x74, x09)] ->
  Ref.read_string_fuel (S fuel) (x5c :: e :: t) = Ref.read_more [out] (Ref.read_string_fuel fuel t).
Proof.
  intros Hin. cbn [Ref.read_string_fuel].
  generalize (Ref.read_string_fuel fuel t). intros o.
  repeat (apply elem_of_cons in Hin as [[= -> ->]|Hin]; [by vm_compute|]).
  by apply elem_of_nil in Hin.
Qed.

Lemma read_u_escape (fuel : nat) (r : Z) (t : list byte) :
  0 <= r < 55296 ->
  Ref.read_string_fuel (S fuel) (Ref.u_escape r ++ t)
  = Ref.read_more (Ref.encode_rune r) (Ref.read_string_fuel fuel t).
Proof.
  intros Hr.
  pose proof (getu4_u_escape r t ltac:(lia)) as Hu.
  unfold Ref.u_escape in *. cbn [app] in *.
  cbn [Ref.read_string_fuel].
  rewrite (bool_decide_false (x5c = x22)) by done.
  change (Z_of_byte x5c <? 32) with false. cbv iota.
  rewrite (bool_decide_true (x5c = x5c)) by done.
  rewrite (bool_decide_false (x75 = x22 \/ x75 = x5c \/ x75 = x2f)) by (by intros [?|[?|?]]).
  rewrite (bool_decide_false (x75 = x62)), (bool_decide_false (x75 = x66)),
    (bool_decide_false (x75 = x6e)), (bool_decide_false (x75 = x72)),
    (bool_decide_false (x75 = x74)), (bool_decide_true (x75 = x75)) by done.
  rewrite Hu. cbn [drop].
  replace ((55296 <=? r) && (r <=? 57343)) with false
    by (symmetry; apply andb_false_intro1; apply Z.leb_gt; lia).
  rewrite drop_0. reflexivity.
Qed.

Lemma read_ascii (fuel : nat) (c : byte) (t : list byte) :
  32 <= Z_of_byte c < 128 -> c <> x22 -> c <> x5c ->
  Ref.read_string_fuel (S fuel) (c :: t) = Ref.read_more [c] (Ref.read_string_fuel fuel t).
Proof.
  intros Hc H22 H5c. cbn [Ref.read_string_fuel].
  rewrite (bool_decide_false (c = x22)), (bool_decide_false (c = x5c)) by done.
  replace (Z_of_byte c <? 32) with false by (symmetry; apply Z.ltb_ge; lia).
  replace (Z_of_byte c <? 128) with true by (symmetry; apply Z.ltb_lt; lia).
  unfold Ref.read_more. by destruct (Ref.read_string_fuel fuel t) as [[? ?]|].
Qed.

Lemma read_multibyte (fuel : nat) (c : byte) (t : list byte) (r : Z) (size : nat) :
  128 <= Z_of_byte c ->
  Ref.decode_rune (c :: t) = (r, size) ->
  Ref.read_string_fuel (S fuel) (c :: t)
  = Ref.read_more (Ref.encode_rune r) (Ref.read_string_fuel fuel (drop size (c :: t))).
Proof.
  intros Hc Hdec. cbn [Ref.read_string_fuel].
  rewrite (bool_decide_false (c = x22)), (bool_decide_false (c = x5c))
    by (apply byte_neq_of_Z; vm_compute (Z_of_byte _) at 2; lia).
  replace (Z_of_byte c <? 32) with false by (symmetry; apply Z.ltb_ge; lia).
  replace (Z_of_byte c <? 128) with false by (symmetry; apply Z.ltb_ge; lia).
  rewrite Hdec. unfold Ref.read_more.
  by destruct (Ref.read_string_fuel fuel (drop size (c :: t))) as [[? ?]|].
Qed.

Lemma decode_rune_ascii (c : byte) (t : list byte) :
  Z_of_byte c < 128 -> Ref.decode_rune (c :: t) = (Z_of_byte c, 1%nat).
Proof.
  intros Hc. unfold Ref.decode_rune.
  by replace (Z_of_byte c <? 128) with true by (symmetry; apply Z.ltb_lt; lia).
Qed.

Lemma encode_rune_ascii (c : byte) : Z_of_byte c < 128 -> Ref.encode_rune (Z_of_byte c) = [c].
Proof.
  intros Hc. pose proof (Z_of_byte_range c). unfold Ref.encode_rune. zbool.
  cbn [orb andb]. by rewrite byte_of_Z_of_byte.
Qed.

Lemma read_closing (fuel : nat) (rest : list byte) :
  Ref.read_string_fuel (S fuel) (x22 :: rest) = Some ([], rest).
Proof. reflexivity. Qed.

(** What the writer has written for a well-formed string, the reader reads
    back. *)
Lemma read_quoted (f : nat) :
  forall s : list byte,
    Ref.wellformed_fuel f s = true ->
    forall (fuel : nat) (rest : list byte),
      (length (Ref.quote_bytes 0 0 s) <= fuel)%nat ->
      Ref.read_string_fuel fuel (Ref.quote_bytes 0 0 s ++ rest) = Some (s, rest).
Proof.
  induction f as [|f IH]; intros s Hwf fuel rest Hfuel.
  - destruct s as [|c s']; [|done].
    destruct fuel as [|fuel]; [simpl in Hfuel; lia|]. apply read_closing.
  - destruct s as [|c s'].
    { destruct fuel as [|fuel]; [simpl in Hfuel; lia|]. apply read_closing. }
    cbn [Ref.wellformed_fuel] in Hwf.
    destruct (Ref.decode_rune (c :: s')) as [r size] eqn:Hdec.
    destruct ((r =? 65533) && Nat.eqb size 1) eqn:Hv; [done|].
    pose proof (Z_of_byte_range c) as Rc.
    destruct (Z.ltb_spec (Z_of_byte c) 128) as [Hlt|Hge].
    + rewrite decode_rune_ascii in Hdec by done. injection Hdec as <- <-.
      cbn [drop] in Hwf.
      cbn [Ref.quote_bytes] in Hfuel |- *.
      replace (Z_of_byte c <? 128) with true in Hfuel |- * by (symmetry; apply Z.ltb_lt; lia).
      destruct (bool_decide (c = x22 \/ c = x5c)) eqn:Eq.
      { cbn [length] in Hfuel. destruct fuel as [|fuel]; [lia|].
        cbn [app]. apply bool_decide_eq_true in Eq.
        rewrite (read_simple_escape fuel c c).
        - rewrite (IH s' Hwf fuel rest) by lia. done.
        - destruct Eq as [->| ->]; in_list. }
      apply bool_decide_eq_false in Eq.
      destruct (bool_decide (c = x0a)) eqn:Ea.
      { apply bool_decide_eq_true in Ea. subst c.
        cbn [length] in Hfuel. destruct fuel as [|fuel]; [lia|]. cbn [app].
        rewrite (read_simple_escape fuel x6e x0a) by in_list.
        rewrite (IH s' Hwf fuel rest) by lia. done. }
      destruct (bool_decide (c = x0d)) eqn:Ed.
      { apply bool_decide_eq_true in Ed. subst c.
        cbn [length] in Hfuel. destruct fuel as [|fuel]; [lia|]. cbn [app].
        rewrite (read_simple_escape fuel x72 x0d) by in_list.
        rewrite (IH s' Hwf fuel rest) by lia. done. }
      destruct (bool_decide (c = x09)) eqn:E9.
      { apply bool_decide_eq_true in E9. subst c.
        cbn [length] in Hfuel. destruct fuel as [|fuel]; [lia|]. cbn [app].
        rewrite (read_simple_escape fuel x74 x09) by in_list.
        rewrite (IH s' Hwf fuel rest) by lia. done. }
      destruct ((Z_of_byte c <? 32) || bool_decide (c = x3c \/ c = x3e \/ c = x26)) eqn:Eu.
      { rewrite length_app in Hfuel. cbn [Ref.u_escape length] in Hfuel.
        destruct fuel as [|fuel]; [lia|].
        rewrite <- app_assoc, read_u_escape by lia.
        rewrite (IH s' Hwf fuel rest) by lia.
        unfold Ref.read_more. by rewrite encode_rune_ascii. }
      apply orb_false_elim in Eu as [E32%Z.ltb_ge _].
      cbn [length] in Hfuel. destruct fuel as [|fuel]; [lia|]. cbn [app].
      rewrite read_ascii by (try lia; tauto).
      rewrite (IH s' Hwf fuel rest) by lia. done.
    + destruct (decode_rune_multibyte c s' r size Hge Hdec Hv)
        as (Hsize & Hlen & Henc & Hr & Hstable).
      cbn [Ref.quote_bytes] in Hfuel |- *.
      replace (Z_of_byte c <? 128) with false in Hfuel |- * by (symmetry; apply Z.ltb_ge; lia).
      rewrite Hdec, Hv in Hfuel |- *.
      assert (Hdrop : drop size (c :: s') = drop (pred size) s').
      { destruct size as [|size]; [lia|]. done. }
      assert (Hsplit : take size (c :: s') ++ drop size (c :: s') = c :: s')
        by apply take_drop.
      destruct ((r =? 8232) || (r =? 8233)) eqn:Els.
      { rewrite quote_bytes_skip, <- Hdrop in Hfuel |- *.
        rewrite length_app in Hfuel. cbn [Ref.u_escape length] in Hfuel.
        destruct fuel as [|fuel]; [lia|].
        assert (r = 8232 \/ r = 8233) as Hls.
        { apply orb_prop in Els as [?%Z.eqb_eq|?%Z.eqb_eq]; auto. }
        rewrite <- app_assoc, read_u_escape by lia.
        rewrite (IH _ Hwf fuel rest) by lia.
        unfold Ref.read_more. by rewrite Henc, Hsplit. }
      rewrite quote_bytes_copy in Hfuel |- * by (simpl in Hlen; lia).
      assert (Hhead : c :: take (pred size) s' = take size (c :: s')).
      { destruct size as [|size]; [lia|]. done. }
      rewrite app_comm_cons, Hhead, <- Hdrop in Hfuel |- *.
      rewrite length_app, length_take in Hfuel.
      destruct fuel as [|fuel]; [lia|].
      assert (Hshape : (take size (c :: s') ++ Ref.quote_bytes 0 0 (drop size (c :: s'))) ++ rest
                       = c :: (take (pred size) s'
                               ++ Ref.quote_bytes 0 0 (drop size (c :: s')) ++ rest)).
      { rewrite <- Hhead. cbn [app]. by rewrite <- app_assoc. }
      rewrite Hshape.
      rewrite (read_multibyte fuel c _ r size Hge).
      2: { rewrite app_comm_cons, Hhead. apply Hstable. }
      rewrite app_comm_cons, Hhead.
      rewrite drop_app_length' by (rewrite length_take; lia).
      rewrite (IH _ Hwf fuel rest) by lia.
      unfold Ref.read_more. by rewrite Henc, Hsplit.
Qed.

Lemma length_quote_bytes_pos (k j : nat) (b : list byte) :
  (1 <= length (Ref.quote_bytes k j b))%nat.
Proof.
  revert k j. induction b as [|c b IH]; intros k j; [simpl; lia|].
  cbn [Ref.quote_bytes].
  destruct k as [|k].
  - destruct j as [|j]; [|apply IH].
    repeat match goal with
           | |- context [if ?x then _ else _] => destruct x
           | |- context [let '(_, _) := ?x in _] => destruct x
           end;
      rewrite ?length_app; cbn [length]; try lia;
      match goal with |- context [Ref.quote_bytes ?a ?b' ?l] => pose proof (IH a b'); lia end.
  - cbn [length]. lia.
Qed.

Lemma read_string_print (s : string) (rest : list byte) :
  Ref.wellformed s = true ->
  Ref.read_string (Ref.quote_bytes 0 0 (Ref.bytes_of s) ++ rest) = Some (Ref.bytes_of s, rest).
Proof.
  intros Hwf. unfold Ref.read_string.
  apply (read_quoted _ _ Hwf). rewrite length_app. lia.
Qed.

Lemma string_of_bytes_of (s : string) : Ref.string_of (Ref.bytes_of s) = s.
Proof. apply String.string_of_list_byte_of_string. Qed.

Lemma skip_space_head (c : byte) (t : list byte) :
  Ref.is_space c = false -> Ref.skip_space (c :: t) = c :: t.
Proof. intros H. cbn [Ref.skip_space]. by rewrite H. Qed.

Lemma read_value_string (fuel : nat) (s : string) (rest : list byte) :
  Ref.wellformed s = true ->
  Ref.read_value (S fuel) (Ref.print_string s ++ rest) = Some (JString s, rest).
Proof.
  intros Hwf. unfold Ref.print_string. cbn [app Ref.read_value].
  rewrite skip_space_head by reflexivity.
  rewrite (bool_decide_true (x22 = x22)) by done.
  by rewrite read_string_print, string_of_bytes_of.
Qed.

Lemma read_member (fuel : nat) (k v : string) (t : list byte) :
  Ref.wellformed k = true ->
  Ref.wellformed v = true ->
  Ref.read_members (S (S fuel)) (Ref.print_string k ++ x3a :: Ref.print_string v ++ t)
  = match Ref.skip_space t with
    | d :: rest3 =>
        if bool_decide (d = x7d) then Some (JObject [(k, JString v)], rest3)
        else if bool_decide (d = x2c) then
          match Ref.read_members (S fuel) rest3 with
          | Some (JObject ms, rest4) => Some (JObject ((k, JString v) :: ms), rest4)
          | _ => None
          end
        else None
    | [] => None
    end.
Proof.
  intros Hk Hv. unfold Ref.print_string at 1. cbn [app Ref.read_members].
  rewrite skip_space_head by reflexivity.
  rewrite (bool_decide_true (x22 = x22)) by done.
  rewrite read_string_print, string_of_bytes_of by done.
  rewrite skip_space_head by reflexivity.
  rewrite (bool_decide_true (x3a = x3a)) by done.
  by rewrite read_value_string.
Qed.

Lemma print_CallError (e : CallError) :
  Ref.print (CallError_toJSON e)
  = x7b :: (Ref.print_string "name" ++ x3a :: Ref.print_string (Name e)
            ++ x2c :: (Ref.print_string "message" ++ x3a :: Ref.print_string (Message e)
                       ++ x2c :: (Ref.print_string "stack" ++ x3a
                                  :: Ref.print_string (Stack e) ++ [x7d]))).
Proof. reflexivity. Qed.

Lemma length_print_string (s : string) : (2 <= length (Ref.print_string s))%nat.
Proof.
  unfold Ref.print_string. cbn [length].
  pose proof (length_quote_bytes_pos 0 0 (Ref.bytes_of s)). lia.
Qed.

(** The reference library reads back the object it writes for a
    [CallError] whose three fields are well-formed UTF-8. *)
Lemma Ref_parse_print_CallError (e : CallError) :
  Ref.wellformed (Name e) && Ref.wellformed (Message e) && Ref.wellformed (Stack e) = true ->
  Ref.parse (Ref.print (CallError_toJSON e)) = inl (CallError_toJSON e).
Proof.
  intros [[Hn Hm]%andb_prop Hs]%andb_prop.
  unfold Ref.parse. rewrite print_CallError.
  set (text := x7b :: _).
  assert (Hlen : (4 <= length text)%nat).
  { unfold text. cbn [length]. rewrite !length_app. cbn [length].
    pose proof (length_print_string "name"). lia. }
  destruct (length text) as [|[|[|[|n]]]] eqn:El; try lia.
  unfold text.
  cbn [Ref.read_value].
  rewrite skip_space_head by reflexivity.
  rewrite (bool_decide_false (x7b = x22)), (bool_decide_false (x7b = x5b)),
    (bool_decide_true (x7b = x7b)) by done.
  unfold Ref.print_string at 1. cbn [app].
  rewrite skip_space_head by reflexivity.
  rewrite (bool_decide_false (x22 = x7d)) by done.
  rewrite (read_member (S (S n)) "name" (Name e)) by done.
  rewrite skip_space_head by reflexivity.
  rewrite (bool_decide_false (x2c = x7d)), (bool_decide_true (x2c = x2c)) by done.
  rewrite (read_member (S n) "message" (Message e)) by done.
  rewrite skip_space_head by reflexivity.
  rewrite (bool_decide_false (x2c = x7d)), (bool_decide_true (x2c = x2c)) by done.
  rewrite (read_member n "stack" (Stack e)) by done.
  rewrite skip_space_head by reflexivity.
  rewrite (bool_decide_true (x7d = x7d)) by done.
  reflexivity.
Qed.
(** ** The byte source as its consumer sees it *)

Lemma readFrame_step (n : nat) (fw fw' : frameBuffer) (got : list byte) (eof : bool) :
  step (OpRead n) fw = (fw', EvRead got eof) -> readFrame n fw = (fw', (got, eof)).
Proof.
  unfold step. destruct (readFrame n fw) as [fw1 [got1 eof1]]. by intros [= -> -> ->].
Qed.

Lemma getNextFrameReader_step (fw fw' : frameBuffer) (r : Z + error) :
  step OpGet fw = (fw', EvFrame r) -> getNextFrameReader fw = (fw', r).
Proof.
  unfold step. destruct (getNextFrameReader fw) as [fw1 r1]. by intros [= -> ->].
Qed.

Lemma copyBody_step (pktLen : Z) (rd : reader) (fw fw' : frameBuffer) (err : option error) :
  step (OpCopy pktLen rd) fw = (fw', EvCopied err) -> copyBody pktLen rd fw = (fw', err).
Proof.
  unfold step. destruct (copyBody pktLen rd fw) as [fw1 e1]. by intros [= -> ->].
Qed.

(** [ReadAll] on the reader of the current frame returns what is left of
    the frame, whatever room each [Read] is given. *)
Lemma ReadAll_current (room : nat -> nat) (fuel : nat) :
  forall (acc : list byte) (fw : frameBuffer) (q : fifo),
    refines fw q ->
    (length (current q) < fuel)%nat ->
    exists fw',
      ReadAll fuel room acc fw = Some (fw', acc ++ current q)
      /\ refines fw' {| current := []; pending := pending q |}.
Proof.
  induction fuel as [|fuel IH]; intros acc fw q Href Hfuel; [lia|].
  cbn [ReadAll]. set (n := S (room (length acc))).
  destruct (readFrame_refines fw q _ n _ Href eq_refl) as (fw1 & Hstep & Href1).
  apply readFrame_step in Hstep. rewrite Hstep.
  destruct (current q) as [|c cur] eqn:Hcur.
  - exists fw1. split; [by rewrite take_nil|]. by rewrite drop_nil in Href1.
  - destruct (IH (acc ++ take n (c :: cur)) fw1 _ Href1) as (fw2 & Hall & Href2).
    { cbn [current]. rewrite length_drop. unfold n. cbn [length] in *. lia. }
    exists fw2. split; [|done].
    rewrite Hall. cbn [current]. by rewrite <- app_assoc, take_drop.
Qed.

(** [Bytes] returns the body of the oldest frame stored, whole, and leaves
    the frames stored after it. *)
Theorem Bytes_oldest_frame (fuel : nat) (room : nat -> nat) (bs : ByteSource.t) (q : fifo)
    (b : list byte) (rest : list (list byte)) :
  refines (ByteSource.buf bs) q ->
  pending q = b :: rest ->
  (length b < fuel)%nat ->
  exists bs',
    ByteSource.Bytes fuel room bs = Some (bs', inl b)
    /\ refines (ByteSource.buf bs') {| current := []; pending := rest |}
    /\ ByteSource.failed bs' = ByteSource.failed bs
    /\ ByteSource.closed bs' = ByteSource.closed bs.
Proof.
  intros Href Hpend Hfuel.
  destruct (getNextFrameReader_refines (ByteSource.buf bs) q
              {| current := b; pending := rest |} (EvFrame (inl (Z.of_nat (length b)))) Href)
    as (fw1 & Hget & Href1).
  { cbn [fifo_step]. by rewrite Hpend. }
  apply getNextFrameReader_step in Hget.
  destruct (ReadAll_current room fuel [] fw1 _ Href1 Hfuel) as (fw2 & Hall & Href2).
  unfold ByteSource.Bytes. rewrite Hget, Hall. cbn [app current pending] in *.
  eexists. split; [done|]. by split.
Qed.

Lemma Bytes_oldest_frame_witness :
  exists bs',
    ByteSource.Bytes 4 (fun _ => 0%nat)
      (ByteSource.consume 3 (mkReader [x61; x62; x63] None) ByteSource.new).1
    = Some (bs', inl [x61; x62; x63])
    /\ refines (ByteSource.buf bs') {| current := []; pending := [] |}
    /\ ByteSource.failed bs' = None
    /\ ByteSource.closed bs' = false.
Proof.
  refine (Bytes_oldest_frame 4 (fun _ => 0%nat)
            (ByteSource.consume 3 (mkReader [x61; x62; x63] None) ByteSource.new).1
            {| current := []; pending := [[x61; x62; x63]] |} [x61; x62; x63] [] _ _ _).
  - split; cbn; try reflexivity; try lia.
    repeat constructor.
  - reflexivity.
  - cbn. lia.
Defined.

(** [Next] answers without waiting while a frame is stored, also on a
    source that has been closed or cancelled, which then still hands out
    what it holds; closed and empty, it answers [false]. *)
Theorem Next_stored_frames (bs : ByteSource.t) (q : fifo) :
  refines (ByteSource.buf bs) q ->
  Z.of_nat (length (pending q)) < 2 ^ 32 ->
  pending q <> [] \/ ByteSource.failed bs <> None ->
  ByteSource.Next bs = Returned bs (Some (negb (bool_decide (pending q = [])))).
Proof.
  intros Href Hlen Hcase. pose proof (ref_frames _ _ Href) as Hf.
  rewrite wrap_uint32_small in Hf by lia.
  unfold ByteSource.Next. rewrite Hf.
  destruct (pending q) as [|b rest] eqn:Hp.
  - destruct Hcase as [?|Hfailed]; [done|]. cbn [length]. by rewrite bool_decide_true.
  - cbn [length] in *.
    replace (Z.of_nat (S (length rest)) =? 0) with false by (symmetry; apply Z.eqb_neq; lia).
    rewrite andb_false_r.
    by replace (0 <? Z.of_nat (S (length rest))) with true by (symmetry; apply Z.ltb_lt; lia).
Qed.

Lemma Next_stored_frames_witness :
  ByteSource.Next
    {| ByteSource.buf := (copyBody 1 (mkReader [x61] None) newFrameBuffer).1;
       ByteSource.failed := Some EOS; ByteSource.closed := true |}
  = Returned
      {| ByteSource.buf := (copyBody 1 (mkReader [x61] None) newFrameBuffer).1;
         ByteSource.failed := Some EOS; ByteSource.closed := true |}
      (Some true).
Proof.
  refine (Next_stored_frames
            {| ByteSource.buf := (copyBody 1 (mkReader [x61] None) newFrameBuffer).1;
               ByteSource.failed := Some EOS; ByteSource.closed := true |}
            {| current := []; pending := [[x61]] |} _ _ _).
  - split; cbn; try reflexivity; try lia. repeat constructor.
  - cbn. lia.
  - by left.
Defined.

Lemma skipUnread_nothing (fw : frameBuffer) :
  currentFrameTotal fw - currentFrameRead fw = 0 -> skipUnread fw = store fw.
Proof.
  intros H. unfold skipUnread. rewrite H. change (0 <? wrap_uint32 0) with false.
  by destruct (negb _).
Qed.

Lemma getNextFrameReader_head (fw : frameBuffer) (n : Z) (rest : list byte) :
  skipUnread fw = PutUint32 n ++ rest ->
  length (lenBuf fw) = 4%nat ->
  0 <= n < 2 ^ 32 ->
  getNextFrameReader fw
  = ({| store := rest; waiting := waiting fw; currentFrameTotal := n; currentFrameRead := 0;
        frames := wrap_uint32 (frames fw + (2 ^ 32 - 1)); lenBuf := PutUint32 n |}, inl n).
Proof.
  intros Hskip Hb Hn. unfold getNextFrameReader. rewrite Hskip.
  destruct (lenBuf fw) as [|l0 [|l1 [|l2 [|l3 [|l4 lb]]]]] eqn:Hlb; simpl in Hb; try lia.
  cbn [PutUint32 app take drop length]. rewrite ?take_0. cbn [length drop app].
  change [byte_of_Z n; byte_of_Z (n / 2 ^ 8); byte_of_Z (n / 2 ^ 16); byte_of_Z (n / 2 ^ 24)]
    with (PutUint32 n).
  by rewrite Uint32_PutUint32 by lia.
Qed.

(** A body that is not of the announced length, or whose reader fails, is
    refused, but what [copyBody] has written stays in the buffer: the next
    frame handed out is the refused one, under the length announced for it,
    and [frames], which had not counted it, wraps below zero. *)
Theorem copyBody_refused_not_undone (fw : frameBuffer) (pktLen : Z) (rd : reader) :
  refines fw fifo_empty ->
  0 <= pktLen < 2 ^ 32 ->
  rd_err rd <> None \/ wrap_uint32 (Z.of_nat (length (rd_data rd))) <> pktLen ->
  exists fw1 fw2,
    copyBody pktLen rd fw
    = (fw1, Some (default (ErrNew "frameBuffer: failed to consume whole body") (rd_err rd)))
    /\ store fw1 = PutUint32 pktLen ++ rd_data rd
    /\ Frames fw1 = 0
    /\ getNextFrameReader fw1 = (fw2, inl pktLen)
    /\ store fw2 = rd_data rd
    /\ Frames fw2 = 2 ^ 32 - 1.
Proof.
  intros [Hs Hl Hr Ht Hf Hb _] Hlen Hbad. cbn in Hs, Hl, Hf.
  set (fw1 := {| store := PutUint32 pktLen ++ rd_data rd; waiting := waiting fw;
                 currentFrameTotal := currentFrameTotal fw;
                 currentFrameRead := currentFrameRead fw;
                 frames := frames fw; lenBuf := PutUint32 pktLen |}).
  assert (Hcopy : copyBody pktLen rd fw
                  = (fw1, Some (default (ErrNew "frameBuffer: failed to consume whole body")
                                  (rd_err rd)))).
  { unfold copyBody. cbn [store frames lenBuf currentFrameTotal currentFrameRead waiting].
    rewrite Hs. cbn [app].
    destruct (rd_err rd) as [e|]; [done|].
    destruct Hbad as [?|Hne]; [done|].
    by replace (wrap_uint32 (Z.of_nat (length (rd_data rd))) =? pktLen) with false
      by (symmetry; by apply Z.eqb_neq). }
  exists fw1. eexists. split; [exact Hcopy|]. split; [done|]. split; [done|].
  rewrite (getNextFrameReader_head fw1 pktLen (rd_data rd));
    [|by rewrite skipUnread_nothing|done|done].
  split; [reflexivity|]. split; [reflexivity|].
  unfold Frames. cbn [frames fw1]. by rewrite Hf.
Qed.

Lemma copyBody_refused_not_undone_witness :
  exists fw1 fw2,
    copyBody 3 (mkReader [x61] None) newFrameBuffer
    = (fw1, Some (ErrNew "frameBuffer: failed to consume whole body"))
    /\ store fw1 = PutUint32 3 ++ [x61]
    /\ Frames fw1 = 0
    /\ getNextFrameReader fw1 = (fw2, inl 3)
    /\ store fw2 = [x61]
    /\ Frames fw2 = 2 ^ 32 - 1.
Proof.
  refine (copyBody_refused_not_undone newFrameBuffer 3 (mkReader [x61] None) _ _ _).
  - split; cbn; try reflexivity; try lia. constructor.
  - lia.
  - right. by vm_compute.
Defined.

(** [Bytes] on a buffer that holds nothing reports [io.EOF] and changes
    nothing; [frames] is not counted down. *)
Theorem Bytes_empty (fuel : nat) (room : nat -> nat) (bs : ByteSource.t) :
  store (ByteSource.buf bs) = [] ->
  ByteSource.Bytes fuel room bs = Some (bs, inr (ErrOther "EOF")).
Proof.
  intros Hs.
  assert (Hskip : skipUnread (ByteSource.buf bs) = []).
  { unfold skipUnread. rewrite Hs, drop_nil. by repeat case_match. }
  unfold ByteSource.Bytes, getNextFrameReader. rewrite Hskip.
  destruct bs as [[st w tot rd fr lb] failed closed]. cbn in Hs. by subst st.
Qed.

Lemma Bytes_empty_witness :
  ByteSource.Bytes 0 (fun _ => 0%nat) ByteSource.new = Some (ByteSource.new, inr (ErrOther "EOF")).
Proof. exact (Bytes_empty 0 (fun _ => 0%nat) ByteSource.new eq_refl). Defined.

(** [Cancel] ends the source once: the first error is the one kept (the
    end-of-stream value for [nil]), another [Cancel] changes nothing, and a
    frame that arrives afterwards is refused with that error as its cause and
    is not stored. *)
Theorem Cancel_once (bs : ByteSource.t) (err err' : option error) (pktLen : Z) (rd : reader) :
  ByteSource.failed bs = None ->
  ByteSource.closed bs = false ->
  exists bs',
    ByteSource.Cancel err bs = Returned bs' tt
    /\ ByteSource.failed bs' = Some (default EOS err)
    /\ ByteSource.closed bs' = true
    /\ ByteSource.buf bs' = ByteSource.buf bs
    /\ ByteSource.Cancel err' bs' = Returned bs' tt
    /\ ByteSource.consume pktLen rd bs'
       = (bs', Some (ErrWrap (default EOS err) "muxrpc: byte source canceled")).
Proof.
  intros Hf Hc. destruct bs as [fw failed closed]. cbn in Hf, Hc. subst.
  unfold ByteSource.Cancel, ByteSource.CloseWithError, ByteSource.consume. cbn.
  eexists. split; [reflexivity|]. cbn. by destruct err.
Qed.

Lemma Cancel_once_witness :
  exists bs',
    ByteSource.Cancel (Some (ErrOther "context canceled")) ByteSource.new = Returned bs' tt
    /\ ByteSource.failed bs' = Some (ErrOther "context canceled")
    /\ ByteSource.closed bs' = true
    /\ ByteSource.buf bs' = newFrameBuffer
    /\ ByteSource.Cancel None bs' = Returned bs' tt
    /\ ByteSource.consume 1 (mkReader [x61] None) bs'
       = (bs', Some (ErrWrap (ErrOther "context canceled") "muxrpc: byte source canceled")).
Proof.
  exact (Cancel_once ByteSource.new (Some (ErrOther "context canceled")) None 1
           (mkReader [x61] None) eq_refl eq_refl).
Defined.

(** [Err] does not report the end of the stream or a cancellation as an
    error: it is [nil] after [Close], and after [CloseWithError(err)] it is
    [err] unless [err] is the end-of-stream value or wraps
    [context.Canceled]. *)
Theorem Err_after_close (bs : ByteSource.t) (err : option error) :
  ByteSource.closed bs = false ->
  exists bs',
    ByteSource.CloseWithError err bs = Returned bs' None
    /\ ByteSource.Err bs'
       = match err with
         | None => None
         | Some e => if IsEOS (Some e) || ByteSource.Is_Canceled e then None else Some e
         end.
Proof.
  intros Hc. destruct bs as [fw failed closed]. cbn in Hc. subst.
  unfold ByteSource.CloseWithError, ByteSource.Err. cbn [ByteSource.closed ByteSource.failed
    ByteSource.buf].
  eexists. split; [reflexivity|]. cbn [ByteSource.failed]. by destruct err.
Qed.

Lemma Err_after_close_witness :
  exists bs',
    ByteSource.Close ByteSource.new = Returned bs' None /\ ByteSource.Err bs' = None.
Proof. exact (Err_after_close ByteSource.new None eq_refl). Defined.

(** *** One consumer never waits twice *)

Lemma readFrame_waiting (n : nat) (fw : frameBuffer) :
  waiting (readFrame n fw).1 = waiting fw /\ frames (readFrame n fw).1 = frames fw.
Proof. unfold readFrame. by repeat case_match. Qed.

Lemma ReadAll_waiting (room : nat -> nat) (fuel : nat) :
  forall (acc : list byte) (fw fw' : frameBuffer) (b : list byte),
    ReadAll fuel room acc fw = Some (fw', b) ->
    waiting fw' = waiting fw /\ frames fw' = frames fw.
Proof.
  induction fuel as [|fuel IH]; intros acc fw fw' b H; [done|].
  cbn [ReadAll] in H.
  pose proof (readFrame_waiting (S (room (length acc))) fw) as [Hw Hf].
  destruct (readFrame (S (room (length acc))) fw) as [fw1 [got eof]]. cbn [fst] in *.
  destruct eof.
  - injection H as <- _. done.
  - apply IH in H as [-> ->]. done.
Qed.

Lemma getNextFrameReader_waiting (fw : frameBuffer) :
  waiting (getNextFrameReader fw).1 = waiting fw.
Proof. unfold getNextFrameReader. by destruct (skipUnread fw). Qed.

Lemma getNextFrameReader_frames (fw : frameBuffer) :
  0 <= frames fw -> 0 <= frames (getNextFrameReader fw).1.
Proof.
  intros H. unfold getNextFrameReader. destruct (skipUnread fw); cbn; [done|].
  unfold wrap_uint32. apply Z.mod_pos_bound. lia.
Qed.

Lemma copyBody_waiting (pktLen : Z) (rd : reader) (fw : frameBuffer) :
  (waiting (copyBody pktLen rd fw).1 = true -> waiting fw = true)
  /\ (0 <= frames fw -> 0 <= frames (copyBody pktLen rd fw).1).
Proof.
  unfold copyBody. repeat case_match; cbn; split; try done.
  intros _. unfold wrap_uint32. apply Z.mod_pos_bound. lia.
Qed.

(** What holds of every state of [reach]: [frames] is not negative, a
    closed source has its error set, and so has, while the consumer is not
    in [Next], a source whose [waiting] channel is still there. *)
Lemma reach_inv (w : bool) (bs : ByteSource.t) :
  ByteSource.reach w bs ->
  0 <= frames (ByteSource.buf bs)
  /\ (ByteSource.closed bs = true -> ByteSource.failed bs <> None)
  /\ (w = false -> waiting (ByteSource.buf bs) = true -> ByteSource.failed bs <> None).
Proof.
  induction 1 as [|w bs pktLen rd _ (IHf & IHc & IHw)
                  |w bs err bs' res _ (IHf & IHc & IHw) Hclose
                  |w bs err bs' _ (IHf & IHc & IHw) Hcancel
                  |bs bs' b _ (IHf & IHc & IHw) Hnext
                  |bs bs' _ (IHf & IHc & IHw) Hnext
                  |bs sel _ (IHf & IHc & IHw) Hready
                  |bs fuel room bs' res _ (IHf & IHc & IHw) Hbytes].
  - by cbn.
  - unfold ByteSource.consume. destruct (ByteSource.failed bs) as [e|] eqn:Hfail.
    + cbn [fst]. repeat split; auto; congruence.
    + pose proof (copyBody_waiting pktLen rd (ByteSource.buf bs)) as [Hw Hfr].
      destruct (copyBody pktLen rd (ByteSource.buf bs)) as [fw err]. cbn in *.
      split; [by apply Hfr|]. split; [done|]. intros Hq Hwait. by apply IHw, Hw.
  - unfold ByteSource.CloseWithError in Hclose. cbn in Hclose.
    destruct (ByteSource.closed bs); [done|]. injection Hclose as <- _. cbn. by repeat split.
  - unfold ByteSource.Cancel in Hcancel.
    destruct (ByteSource.failed bs) as [e|] eqn:Hfail.
    + injection Hcancel as <-. repeat split; auto; congruence.
    + unfold ByteSource.CloseWithError in Hcancel. cbn in Hcancel.
      destruct (ByteSource.closed bs); [done|]. injection Hcancel as <-. cbn.
      by repeat split.
  - unfold ByteSource.Next in Hnext. repeat case_match; simplify_eq; repeat split; auto.
  - unfold ByteSource.Next, waitForMore in Hnext.
    repeat case_match; simplify_eq; cbn; repeat split; auto; done.
  - destruct sel; cbn in *; repeat split; try done.
    + intros _ _. by apply IHc.
    + intros _ Hw. by rewrite Hw in Hready.
  - unfold ByteSource.Bytes in Hbytes.
    pose proof (getNextFrameReader_waiting (ByteSource.buf bs)) as Hgw.
    pose proof (getNextFrameReader_frames (ByteSource.buf bs) IHf) as Hgf.
    destruct (getNextFrameReader (ByteSource.buf bs)) as [fw [n|err]]; cbn [fst] in *.
    + destruct (ReadAll fuel room [] fw) as [[fw' b]|] eqn:Hall; [|done].
      apply ReadAll_waiting in Hall as [Hw' Hf']. injection Hbytes as <- _. cbn.
      rewrite Hf', Hw', Hgw. by repeat split; auto.
    + injection Hbytes as <- _. cbn. rewrite Hgw. by repeat split; auto.
Qed.

(** With one consumer [Next] never finds a waiter already there: it does
    not panic in [waitForMore], in whatever way the producer's frames, the
    closing of the source and the consumer's calls have followed each
    other. *)
Theorem Next_never_already_waiting (bs : ByteSource.t) :
  ByteSource.reach false bs ->
  exists bs' b, ByteSource.Next bs = Returned bs' b.
Proof.
  intros (Hf & Hc & Hw)%reach_inv.
  unfold ByteSource.Next.
  destruct (bool_decide (ByteSource.failed bs <> None)) eqn:Hfail; cbn [andb].
  - destruct (frames (ByteSource.buf bs) =? 0) eqn:H0; [by eexists _, _|].
    apply Z.eqb_neq in H0.
    replace (0 <? frames (ByteSource.buf bs)) with true by (symmetry; apply Z.ltb_lt; lia).
    by eexists _, _.
  - apply bool_decide_eq_false in Hfail.
    destruct (0 <? frames (ByteSource.buf bs)) eqn:Hpos; [by eexists _, _|].
    unfold waitForMore. rewrite Hpos.
    destruct (waiting (ByteSource.buf bs)) eqn:Hwait; [|by eexists _, _].
    exfalso. apply Hfail. by apply Hw.
Qed.

(** A consumer that has waited for a frame, got it, and asks again. *)
Lemma Next_never_already_waiting_witness :
  exists bs' b,
    ByteSource.Next
      (ByteSource.Next_selected ByteSource.SelMore
         (ByteSource.consume 1 (mkReader [x61] None)
            {| ByteSource.buf :=
                 {| store := []; waiting := true; currentFrameTotal := 0;
                    currentFrameRead := 0; frames := 0; lenBuf := [x00; x00; x00; x00] |};
               ByteSource.failed := None; ByteSource.closed := false |}).1).1
    = Returned bs' b.
Proof.
  refine (Next_never_already_waiting _ _).
  refine (ByteSource.reach_proceed
            (ByteSource.consume 1 (mkReader [x61] None)
               {| ByteSource.buf :=
                    {| store := []; waiting := true; currentFrameTotal := 0;
                       currentFrameRead := 0; frames := 0; lenBuf := [x00; x00; x00; x00] |};
                  ByteSource.failed := None; ByteSource.closed := false |}).1
            ByteSource.SelMore _ eq_refl).
  refine (ByteSource.reach_consume true _ 1 (mkReader [x61] None) _).
  exact (ByteSource.reach_select ByteSource.new _ ByteSource.reach_new eq_refl).
Defined.

(** ** The session: what every table entry satisfies *)

Lemma Rpc_entry_ok_spec (r : Rpc.rpc) (k : Z) (p : loc) :
  Rpc_entry_ok r k p = true
  <-> exists req,
        Rpc.heap r !! p = Some req /\ Rpc.id req = k /\ Rpc.abort req <> Rpc.AbortNil
        /\ (is_Some (Rpc.in_ req) \/ is_Some (Rpc.source req)).
Proof.
  unfold Rpc_entry_ok. split.
  - destruct (Rpc.heap r !! p) as [req|]; [|done].
    intros [[Hid Hab]%andb_prop Hin%bool_decide_eq_true]%andb_prop.
    apply bool_decide_eq_true in Hid. exists req. repeat split; try done.
    by destruct (Rpc.abort req).
  - intros (req & -> & Hid & Hab & Hin).
    rewrite (bool_decide_true _ Hid), (bool_decide_true _ Hin).
    by destruct (Rpc.abort req).
Qed.

(** A request changed in place, its id kept. *)
Lemma Rpc_wf_update (r r' : Rpc.rpc) (p : loc) (req req' : Rpc.Request) :
  Rpc_wf r ->
  Rpc.heap r !! p = Some req ->
  Rpc.id req' = Rpc.id req ->
  (Rpc.abort req <> Rpc.AbortNil -> Rpc.abort req' <> Rpc.AbortNil) ->
  (is_Some (Rpc.in_ req) \/ is_Some (Rpc.source req) ->
   is_Some (Rpc.in_ req') \/ is_Some (Rpc.source req')) ->
  Rpc.reqs r' = Rpc.reqs r ->
  Rpc.heap r' = <[p := req']> (Rpc.heap r) ->
  Rpc_wf r'.
Proof.
  intros Hwf Hp Hid Hab Hin Hreqs Hheap k p' Hk. rewrite Hreqs in Hk.
  apply Hwf in Hk. apply Rpc_entry_ok_spec in Hk as (rq & Hrq & Hidk & Habk & Hink).
  apply Rpc_entry_ok_spec. rewrite Hheap.
  destruct (decide (p' = p)) as [->|Hne].
  - exists req'. rewrite list_lookup_insert_eq by (by eapply lookup_lt_Some).
    rewrite Hp in Hrq. injection Hrq as <-. repeat split; auto. congruence.
  - exists rq. by rewrite list_lookup_insert_ne.
Qed.

Lemma Rpc_wf_ext (r r' : Rpc.rpc) :
  Rpc.reqs r' = Rpc.reqs r -> Rpc.heap r' = Rpc.heap r -> Rpc_wf r -> Rpc_wf r'.
Proof.
  intros Hreqs Hheap Hwf k p Hk. rewrite Hreqs in Hk. apply Hwf in Hk.
  unfold Rpc_entry_ok in *. by rewrite Hheap.
Qed.

(** A new request entered under [k]. *)
Lemma Rpc_wf_insert (r r' : Rpc.rpc) (k : Z) (req : Rpc.Request) :
  Rpc_wf r ->
  Rpc.id req = k ->
  Rpc.abort req <> Rpc.AbortNil ->
  is_Some (Rpc.in_ req) \/ is_Some (Rpc.source req) ->
  Rpc.reqs r' = <[k := length (Rpc.heap r)]> (Rpc.reqs r) ->
  Rpc.heap r' = Rpc.heap r ++ [req] ->
  Rpc_wf r'.
Proof.
  intros Hwf Hid Hab Hin Hreqs Hheap k' p' Hk. rewrite Hreqs in Hk.
  apply Rpc_entry_ok_spec. rewrite Hheap.
  destruct (decide (k' = k)) as [->|Hne].
  - rewrite lookup_insert_eq in Hk. injection Hk as <-.
    exists req. split; [|done]. by rewrite lookup_app_r, Nat.sub_diag.
  - rewrite lookup_insert_ne in Hk by done.
    apply Hwf in Hk. apply Rpc_entry_ok_spec in Hk as (rq & Hrq & ?).
    exists rq. split; [|done]. by rewrite lookup_app_l by (by eapply lookup_lt_Some).
Qed.

Lemma Rpc_wf_delete (r r' : Rpc.rpc) (k : Z) :
  Rpc_wf r -> Rpc.reqs r' = delete k (Rpc.reqs r) -> Rpc.heap r' = Rpc.heap r -> Rpc_wf r'.
Proof.
  intros Hwf Hreqs Hheap k' p' Hk. rewrite Hreqs in Hk.
  apply lookup_delete_Some in Hk as [_ Hk]. apply Hwf in Hk.
  unfold Rpc_entry_ok in *. by rewrite Hheap.
Qed.

Lemma insert_at_end {A} (l : list A) (x y : A) : <[length l := y]> (l ++ [x]) = l ++ [y].
Proof.
  apply list_eq. intros i. destruct (decide (i = length l)) as [->|Hne].
  - rewrite list_lookup_insert_eq by (rewrite length_app; simpl; lia).
    by rewrite lookup_app_r, Nat.sub_diag.
  - rewrite list_lookup_insert_ne by done.
    destruct (decide (i < length l)%nat).
    + by rewrite !lookup_app_l.
    + rewrite !lookup_app_r by lia.
      destruct (i - length l)%nat as [|[|m]] eqn:E; try done. lia.
Qed.

(** What [Do] leaves behind, whether it returns an error or not. *)
Lemma Rpc_Do_state (C : Collaborators) (p : loc) (r : Rpc.rpc) (req : Rpc.Request) :
  Rpc.heap r !! p = Some req ->
  exists (r' : Rpc.rpc) (err : option error) (req' : Rpc.Request),
    Rpc.Do p r = Returned r' err
    /\ Rpc.highest r' = wrap_int32 (Rpc.highest r + 1)
    /\ Rpc.reqs r' = <[wrap_int32 (Rpc.highest r + 1) := p]> (Rpc.reqs r)
    /\ Rpc.heap r' = <[p := req']> (Rpc.heap r)
    /\ Rpc.id req' = wrap_int32 (Rpc.highest r + 1)
    /\ Rpc.abort req' <> Rpc.AbortNil
    /\ Rpc.in_ req' = Rpc.in_ req
    /\ Rpc.source req' = Rpc.source req
    /\ Rpc.terminated r' = Rpc.terminated r
    /\ Rpc.spawned r' = Rpc.spawned r.
Proof.
  intros Hp. unfold Rpc.Do. rewrite Hp.
  destruct (Marshal_Request _ _ _) as [body|e].
  - destruct (Packer_Pour _ _) as [pk e']. eexists _, _, _. split; [reflexivity|].
    cbn. repeat split; destruct (Rpc.abort req) eqn:Ha; simpl; destruct (Rpc.RawArgs req); simpl;
      rewrite ?Ha; done.
  - eexists _, _, _. split; [reflexivity|].
    cbn. repeat split; destruct (Rpc.abort req) eqn:Ha; simpl; destruct (Rpc.RawArgs req); simpl;
      rewrite ?Ha; done.
Qed.

Lemma Rpc_call_state (C : Collaborators) (req : Rpc.Request) (r : Rpc.rpc) :
  exists (r' : Rpc.rpc) (res : loc + error) (req' : Rpc.Request),
    Rpc.call req r = Returned r' res
    /\ Rpc.highest r' = wrap_int32 (Rpc.highest r + 1)
    /\ Rpc.reqs r' = <[wrap_int32 (Rpc.highest r + 1) := length (Rpc.heap r)]> (Rpc.reqs r)
    /\ Rpc.heap r' = Rpc.heap r ++ [req']
    /\ Rpc.id req' = wrap_int32 (Rpc.highest r + 1)
    /\ Rpc.abort req' <> Rpc.AbortNil
    /\ Rpc.in_ req' = Rpc.in_ req
    /\ Rpc.source req' = Rpc.source req
    /\ Rpc.terminated r' = Rpc.terminated r
    /\ Rpc.spawned r' = Rpc.spawned r.
Proof.
  unfold Rpc.call, Rpc.alloc.
  destruct (Rpc_Do_state C (length (Rpc.heap r)) (Rpc.set_heap (Rpc.heap r ++ [req]) r) req)
    as (r' & err & req' & HDo & Hh & Hreqs & Hheap & Hid & Hab & Hi & Hs & Ht & Hsp).
  { cbn. by rewrite lookup_app_r, Nat.sub_diag. }
  rewrite HDo. cbn in Hh, Hreqs, Hheap, Ht, Hsp. rewrite insert_at_end in Hheap.
  destruct err; eexists _, _, req'; (split; [reflexivity|]); done.
Qed.

Lemma Rpc_wf_call (C : Collaborators) (req : Rpc.Request) (r r' : Rpc.rpc) (res : loc + error) :
  Rpc_wf r ->
  is_Some (Rpc.in_ req) \/ is_Some (Rpc.source req) ->
  Rpc.call req r = Returned r' res ->
  Rpc_wf r'.
Proof.
  intros Hwf Hin Hcall.
  destruct (Rpc_call_state C req r)
    as (r1 & res1 & req' & Hcall1 & Hh & Hreqs & Hheap & Hid & Hab & Hi & Hs & _).
  rewrite Hcall in Hcall1. injection Hcall1 as <- <-.
  eapply (Rpc_wf_insert r r' _ req'); try done. by rewrite Hi, Hs.
Qed.

Lemma Rpc_ParseRequest_shape (C : Collaborators) (r : Rpc.rpc) (pkt : Header) (body : reader)
    (req : Rpc.Request) :
  Rpc.ParseRequest r pkt body = inl req ->
  hReq pkt < 0 /\ Rpc.id req = hReq pkt /\ is_Some (Rpc.in_ req).
Proof.
  unfold Rpc.ParseRequest.
  destruct (Flag_Get (hFlag pkt) FlagJSON); simpl; [|done].
  destruct (0 <=? hReq pkt) eqn:Hneg; [done|]. apply Z.leb_gt in Hneg.
  destruct (match rd_err body with Some err => inr err | None => Decode_Request (rd_data body) end)
    as [[[ty method] args]|err]; [|done].
  destruct (Flag_Get (hFlag pkt) FlagStream);
    repeat case_bool_decide; simpl; intros [= <-]; simpl; auto.
Qed.

(** A turn of [Serve] keeps the table sound, and on a sound table it
    neither calls a nil [abort] or [consume] nor follows a pointer to
    nothing. *)
Lemma Rpc_wf_serveFrame (C : Collaborators) (f : wireFrame) (r : Rpc.rpc) :
  Rpc_wf r ->
  match Rpc.serveFrame f r with
  | Rpc.Continue r' | Rpc.Return r' _ | Rpc.Blocks r' => Rpc_wf r'
  | Rpc.Panics _ _ => False
  end.
Proof.
  intros Hwf. unfold Rpc.serveFrame.
  destruct (Flag_Get (hFlag (wf_hdr f)) FlagEndErr).
  - destruct (Rpc.reqs r !! hReq (wf_hdr f)) as [p|] eqn:Hk; [|done].
    pose proof (Hwf _ _ Hk) as (req & Hp & Hid & Hab & Hin)%Rpc_entry_ok_spec.
    rewrite Hp. unfold Rpc.call_abort.
    assert (Hupd : forall req', Rpc.id req' = Rpc.id req ->
                     Rpc.abort req' = Rpc.abort req ->
                     Rpc.in_ req' = Rpc.in_ req -> Rpc.source req' = Rpc.source req ->
                     Rpc_wf (Rpc.set_heap (<[p := req']> (Rpc.heap r)) r)).
    { intros req' H1 H2 H3 H4. eapply (Rpc_wf_update r _ p req req'); try done.
      - by rewrite H2.
      - by rewrite H3, H4. }
    destruct (Rpc.abort req) eqn:Ha; [done| |].
    + specialize (Hupd req eq_refl Ha eq_refl eq_refl).
      destruct (readBody _ _) as [body|err]; [|done].
      destruct (negb (isTrue body)); [|by eapply Rpc_wf_ext].
      destruct (parseError body) as [[ce|] [err|]]; try done; by eapply Rpc_wf_ext.
    + specialize (Hupd (Rpc.set_ctxDone true req) eq_refl Ha eq_refl eq_refl).
      destruct (readBody _ _) as [body|err]; [|done].
      destruct (negb (isTrue body)); [|by eapply Rpc_wf_ext].
      destruct (parseError body) as [[ce|] [err|]]; try done; by eapply Rpc_wf_ext.
  - unfold Rpc.fetchRequest.
    destruct (Rpc.reqs r !! hReq (wf_hdr f)) as [p|] eqn:Hk.
    + pose proof (Hwf _ _ Hk) as (req & Hp & Hid & Hab & Hin)%Rpc_entry_ok_spec.
      rewrite Hp.
      destruct (Rpc.in_ req) as [inSink|] eqn:Hi.
      * destruct (readBody _ _) as [body|err]; [|done].
        destruct (pipe_Pour _ _) as [inSink'| |]; try done.
        refine (Rpc_wf_update r (Rpc.set_heap (<[p := Rpc.set_in (Some inSink') req]> (Rpc.heap r)) r)
                  p req (Rpc.set_in (Some inSink') req) Hwf Hp eq_refl _ _
                  eq_refl eq_refl); [by cbn|intros _; by left].
      * destruct (Rpc.source req) as [bs|] eqn:Hs.
        2: { destruct Hin as [[? ?]|[? ?]]; done. }
        destruct (ByteSource.consume _ _ _) as [bs' err].
        assert (Rpc_wf (Rpc.set_heap (<[p := Rpc.set_source (Some bs') req]> (Rpc.heap r)) r)).
        { refine (Rpc_wf_update r (Rpc.set_heap (<[p := Rpc.set_source (Some bs') req]> (Rpc.heap r)) r)
                    p req (Rpc.set_source (Some bs') req) Hwf Hp eq_refl _ _
                    eq_refl eq_refl); [by cbn|intros _; by right]. }
        by destruct err.
    + destruct (Rpc.ParseRequest r (wf_hdr f) (wf_body f)) as [req|err] eqn:Hparse; [|done].
      apply Rpc_ParseRequest_shape in Hparse as (Hneg & Hid & Hin).
      cbn. eapply (Rpc_wf_insert r _ (hReq (wf_hdr f)) (Rpc.set_abort Rpc.AbortCancel req));
        try done. by left.
Qed.

Lemma Rpc_wf_closeRequest (C : Collaborators) (cerr : option error) (p : loc) (r : Rpc.rpc) :
  Rpc_wf r -> Rpc_wf (Rpc.closeRequest cerr p r).
Proof.
  intros Hwf. destruct (Rpc.heap r !! p) as [req|] eqn:Hp.
  - destruct (closeRequest_spec C cerr p r req Hp) as (Hheap & Hreqs & _).
    refine (Rpc_wf_update r _ p req _ Hwf Hp _ _ _ Hreqs Hheap); by cbn.
  - unfold Rpc.closeRequest. by rewrite Hp.
Qed.

Lemma Rpc_wf_closeStream (C : Collaborators) (p : loc) (streamErr : option error) (r : Rpc.rpc) :
  Rpc_wf r -> Rpc_wf (Rpc.closeStream p streamErr r).
Proof.
  intros Hwf. unfold Rpc.closeStream.
  pose proof (Rpc_wf_closeRequest C streamErr p r Hwf) as Hwf1.
  destruct (Rpc.heap (Rpc.closeRequest streamErr p r) !! p) as [req|]; [|done].
  by eapply Rpc_wf_delete.
Qed.

Lemma Rpc_wf_Terminate (C : Collaborators) (r : Rpc.rpc) :
  Rpc_wf r -> Rpc_wf (Rpc.Terminate r).1.
Proof.
  intros Hwf. unfold Rpc.Terminate.
  set (r1 := Rpc.set_terminated true (Rpc.set_cancelled true r)).
  assert (Hwf1 : Rpc_wf r1) by (by eapply Rpc_wf_ext).
  generalize (range_order (Rpc.reqs r1)). intros l.
  assert (Hfold : Rpc_wf (foldl (fun acc kp => Rpc.closeRequest (Some ErrSessionTerminated)
                                                 kp.2 acc) r1 l)).
  { clearbody r1. revert r1 Hwf1. induction l as [|kp l IH]; intros r1 Hwf1; [done|].
    cbn [foldl]. apply IH. by apply Rpc_wf_closeRequest. }
  destruct (Packer_Close _) as [pk err]. cbn [fst]. by eapply Rpc_wf_ext.
Qed.

(** The table stays sound: it is when the session is made, and every
    call, every turn of [Serve], every [closeStream] and [Terminate] keep it
    so.  An entry is sound when its request carries the entry's key as its
    id, has its [abort] set, and has a pipe or a byte source to take a
    body. *)
Theorem Rpc_wf_kept (C : Collaborators) :
  (forall pk, Rpc_wf (Rpc.Handle pk))
  /\ (forall tp method args r r' res,
        Rpc_wf r -> Rpc.Async tp method args r = Returned r' res -> Rpc_wf r')
  /\ (forall tp method args r r' res,
        Rpc_wf r -> Rpc.Source tp method args r = Returned r' res -> Rpc_wf r')
  /\ (forall method args r r' res,
        Rpc_wf r -> Rpc.Sink method args r = Returned r' res -> Rpc_wf r')
  /\ (forall tp method args r r' res,
        Rpc_wf r -> Rpc.Duplex tp method args r = Returned r' res -> Rpc_wf r')
  /\ (forall f r r',
        Rpc_wf r ->
        (exists err, Rpc.serveFrame f r = Rpc.Return r' err)
        \/ Rpc.serveFrame f r = Rpc.Continue r' \/ Rpc.serveFrame f r = Rpc.Blocks r' ->
        Rpc_wf r')
  /\ (forall t r, Rpc_wf r -> Rpc_wf (Rpc.run_task t r))
  /\ (forall r, Rpc_wf r -> Rpc_wf (Rpc.Terminate r).1).
Proof.
  split; [|split; [|split; [|split; [|split; [|split; [|split]]]]]].
  - intros pk. apply map_Forall_empty.
  - intros tp method args r r' res Hwf. unfold Rpc.Async.
    destruct (Rpc.marshalCallArgs args); [|by intros [= <- _]].
    apply Rpc_wf_call; [done|]. by left.
  - intros tp method args r r' res Hwf. unfold Rpc.Source.
    destruct (Rpc.marshalCallArgs args); [|by intros [= <- _]].
    apply Rpc_wf_call; [done|]. by right.
  - intros method args r r' res Hwf. unfold Rpc.Sink.
    destruct (Rpc.marshalCallArgs args); [|by intros [= <- _]].
    apply Rpc_wf_call; [done|]. by left.
  - intros tp method args r r' res Hwf. unfold Rpc.Duplex.
    destruct (Rpc.marshalCallArgs args); [|by intros [= <- _]].
    apply Rpc_wf_call; [done|]. by left.
  - intros f r r' Hwf Hturn. pose proof (Rpc_wf_serveFrame C f r Hwf) as H.
    destruct Hturn as [[err Ht]|[Ht|Ht]]; by rewrite Ht in H.
  - intros [|p|p streamErr] r Hwf; cbn; try done. by apply Rpc_wf_closeStream.
  - intros r. apply Rpc_wf_Terminate.
Qed.

(** On a sound table the serve loop does not panic: no nil [abort] or
    [consume] is called and no table entry leads nowhere, for every sequence
    of frames. *)
Theorem Serve_never_panics (C : Collaborators) (frames : list wireFrame) (final : error)
    (r : Rpc.rpc) :
  Rpc_wf r ->
  exists r' res,
    Rpc.Serve frames final r = Rpc.ServeReturns r' res
    \/ Rpc.Serve frames final r = Rpc.ServeBlocks r'.
Proof.
  revert r. induction frames as [|f frames IH]; intros r Hwf; cbn [Rpc.Serve].
  - eexists _, _. by left.
  - pose proof (Rpc_wf_serveFrame C f r Hwf) as H.
    destruct (Rpc.serveFrame f r) as [r1|r1 err|r1|r1 msg]; [by apply IH| | |done].
    + eexists _, _. by left.
    + exists r1, None. by right.
Qed.

Lemma Serve_never_panics_witness :
  exists r' res,
    Rpc.Serve (H := Ref.collaborators)
      [Example.initiation FlagJSON (-1) "async"; Example.end_true] EOS
      (Rpc.Handle Example.open_packer)
    = Rpc.ServeReturns r' res
    \/ Rpc.Serve (H := Ref.collaborators)
         [Example.initiation FlagJSON (-1) "async"; Example.end_true] EOS
         (Rpc.Handle Example.open_packer)
       = Rpc.ServeBlocks r'.
Proof.
  refine (Serve_never_panics Ref.collaborators _ EOS (Rpc.Handle Example.open_packer) _).
  apply map_Forall_empty.
Defined.

(** ** The serve loop: how it ends and what it does with a frame *)

(** However [Serve] comes to return, and also when it panics, the deferred
    function has closed the Packer. *)
Theorem Serve_closes_packer (C : Collaborators) (frames : list wireFrame) (final : error)
    (r : Rpc.rpc) :
  match Rpc.Serve frames final r with
  | Rpc.ServeReturns r' _ | Rpc.ServePanics r' _ => pkr_closed (Rpc.pkr r') = true
  | Rpc.ServeBlocks _ => True
  end.
Proof.
  revert r. induction frames as [|f frames IH]; intros r; cbn [Rpc.Serve].
  - reflexivity.
  - destruct (Rpc.serveFrame f r) as [r1|r1 err|r1|r1 msg]; [apply IH|reflexivity|done|reflexivity].
Qed.

Lemma serveFrame_unknown_rejected (C : Collaborators) (f : wireFrame) (r : Rpc.rpc) :
  Flag_Get (hFlag (wf_hdr f)) FlagEndErr = false ->
  Rpc.reqs r !! hReq (wf_hdr f) = None ->
  Flag_Get (hFlag (wf_hdr f)) FlagJSON = false \/ 0 <= hReq (wf_hdr f) ->
  Rpc.serveFrame f r
  = Rpc.Return r
      (Some (ErrWrap
               (ErrWrap
                  (ErrNew (if Flag_Get (hFlag (wf_hdr f)) FlagJSON
                           then "expected negative request id" else "expected JSON flag"))
                  "error parsing request")
               "muxrpc: error getting request")).
Proof.
  intros Hend Hnone Hbad. unfold Rpc.serveFrame, Rpc.fetchRequest, Rpc.ParseRequest.
  rewrite Hend, Hnone.
  destruct (Flag_Get (hFlag (wf_hdr f)) FlagJSON); cbn [negb]; [|done].
  destruct Hbad as [?|Hpos]; [done|].
  by replace (0 <=? hReq (wf_hdr f)) with true by (symmetry; by apply Z.leb_le).
Qed.

(** A frame that does not end a stream and names an id the table does not
    hold has to open a request: if it lacks the JSON flag or its id is not
    negative, [Serve] returns with the error below, with the session as it
    was but for the closed Packer, and the frames after it are not served. *)
Theorem Serve_unknown_rejected (C : Collaborators) (f : wireFrame) (rest : list wireFrame)
    (final : error) (r : Rpc.rpc) :
  Flag_Get (hFlag (wf_hdr f)) FlagEndErr = false ->
  Rpc.reqs r !! hReq (wf_hdr f) = None ->
  Flag_Get (hFlag (wf_hdr f)) FlagJSON = false \/ 0 <= hReq (wf_hdr f) ->
  Rpc.Serve (f :: rest) final r
  = Rpc.ServeReturns (Rpc.deferred r)
      (Some (ErrWrap
               (ErrWrap
                  (ErrNew (if Flag_Get (hFlag (wf_hdr f)) FlagJSON
                           then "expected negative request id" else "expected JSON flag"))
                  "error parsing request")
               "muxrpc: error getting request")).
Proof.
  intros Hend Hnone Hbad. cbn [Rpc.Serve].
  by rewrite (serveFrame_unknown_rejected C f r Hend Hnone Hbad).
Qed.

Lemma Serve_unknown_rejected_witness :
  Rpc.Serve (H := Ref.collaborators)
    [Example.payload FlagJSON 7 [x31]; Example.initiation FlagJSON (-1) "async"] EOS
    (Rpc.Handle Example.open_packer)
  = Rpc.ServeReturns (Rpc.deferred (Rpc.Handle Example.open_packer))
      (Some (ErrWrap (ErrWrap (ErrNew "expected negative request id") "error parsing request")
               "muxrpc: error getting request")).
Proof.
  refine (Serve_unknown_rejected Ref.collaborators (Example.payload FlagJSON 7 [x31]) _ EOS
            (Rpc.Handle Example.open_packer) eq_refl eq_refl _).
  right. cbn. lia.
Defined.

(** Once [closeStream] has run for a request, the frames that still arrive
    under its id find no request: an end frame is passed over, and a payload
    frame for an id of this side's own (not negative) makes [Serve]
    return. *)
Theorem frames_after_closeStream (C : Collaborators) (f : wireFrame) (rest : list wireFrame)
    (final : error) (r : Rpc.rpc) (p : loc) (streamErr : option error) :
  Rpc.reqs r !! hReq (wf_hdr f) = Some p ->
  Rpc_entry_ok r (hReq (wf_hdr f)) p = true ->
  let r' := Rpc.closeStream p streamErr r in
  Rpc.reqs r' !! hReq (wf_hdr f) = None
  /\ (Flag_Get (hFlag (wf_hdr f)) FlagEndErr = true -> Rpc.serveFrame f r' = Rpc.Continue r')
  /\ (Flag_Get (hFlag (wf_hdr f)) FlagEndErr = false -> 0 <= hReq (wf_hdr f) ->
      exists err, Rpc.Serve (f :: rest) final r' = Rpc.ServeReturns (Rpc.deferred r') (Some err)).
Proof.
  intros Hk (req & Hp & Hid & _)%Rpc_entry_ok_spec r'.
  destruct (closeStream_spec C streamErr p r req Hp) as (Hreqs & _).
  assert (Hnone : Rpc.reqs r' !! hReq (wf_hdr f) = None).
  { unfold r'. rewrite Hreqs, Hid. apply lookup_delete_eq. }
  split; [done|]. split.
  - intros Hend. unfold Rpc.serveFrame. by rewrite Hend, Hnone.
  - intros Hend Hpos. eexists. cbn [Rpc.Serve].
    by rewrite (serveFrame_unknown_rejected C f r' Hend Hnone (or_intror Hpos)).
Qed.

Lemma frames_after_closeStream_witness :
  Rpc.reqs
    (Rpc.closeStream (H := Ref.collaborators) 0%nat None
       Example.sink_session) !! 1 = None
  /\ Rpc.serveFrame (H := Ref.collaborators)
       (Example.payload (Z.lor FlagJSON FlagEndErr) 1 trueBytes)
       (Rpc.closeStream (H := Ref.collaborators) 0%nat None
          Example.sink_session)
     = Rpc.Continue
         (Rpc.closeStream (H := Ref.collaborators) 0%nat None
            Example.sink_session)
  /\ exists err,
       Rpc.Serve (H := Ref.collaborators) [Example.payload FlagJSON 1 [x31]] EOS
         (Rpc.closeStream (H := Ref.collaborators) 0%nat None
            Example.sink_session)
       = Rpc.ServeReturns
           (Rpc.deferred
              (Rpc.closeStream (H := Ref.collaborators) 0%nat None
                 Example.sink_session))
           (Some err).
Proof.
  destruct (frames_after_closeStream Ref.collaborators
              (Example.payload (Z.lor FlagJSON FlagEndErr) 1 trueBytes) [] EOS
              Example.sink_session 0%nat None
              eq_refl eq_refl) as (Hnone & Hend & _).
  destruct (frames_after_closeStream Ref.collaborators
              (Example.payload FlagJSON 1 [x31]) [] EOS
              Example.sink_session 0%nat None
              eq_refl eq_refl) as (_ & _ & Hpay).
  split; [exact Hnone|]. split; [exact (Hend eq_refl)|].
  apply Hpay; [reflexivity|]. cbn. lia.
Defined.

(** *** Frames for a source call *)

(** A payload frame for a request that is fed through a byte source
    ([req.in] is nil) is stored there, behind the frames the source already
    holds: [Serve] goes on, and the source's buffer is the queue with the body
    appended. *)
Theorem source_frame_stored (C : Collaborators) (f : wireFrame) (r : Rpc.rpc) (p : loc)
    (req : Rpc.Request) (bs : ByteSource.t) (q : fifo) :
  payload_for (hReq (wf_hdr f)) f = true ->
  hLen (wf_hdr f) < 2 ^ 32 ->
  Rpc.reqs r !! hReq (wf_hdr f) = Some p ->
  Rpc.heap r !! p = Some req ->
  Rpc.in_ req = None ->
  Rpc.source req = Some bs ->
  ByteSource.failed bs = None ->
  refines (ByteSource.buf bs) q ->
  exists bs',
    Rpc.serveFrame f r
    = Rpc.Continue (Rpc.set_heap (<[p := Rpc.set_source (Some bs') req]> (Rpc.heap r)) r)
    /\ refines (ByteSource.buf bs')
         {| current := current q; pending := pending q ++ [rd_data (wf_body f)] |}
    /\ ByteSource.failed bs' = None
    /\ ByteSource.closed bs' = ByteSource.closed bs.
Proof.
  intros Hpay Hlt Hk Hp Hin Hsrc Hfail Href.
  unfold payload_for in Hpay.
  apply andb_prop in Hpay as [[[Hend _]%andb_prop Herr%bool_decide_eq_true]%andb_prop Hlen].
  apply negb_true_iff in Hend.
  destruct (copyBody_refines (ByteSource.buf bs) q
              {| current := current q; pending := pending q ++ [rd_data (wf_body f)] |}
              (hLen (wf_hdr f)) (wf_body f) (EvCopied None) Href) as (fw & Hcopy & Href').
  { cbn [fifo_step]. rewrite Herr, Hlen.
    by replace (hLen (wf_hdr f) <? 2 ^ 32) with true by (symmetry; by apply Z.ltb_lt). }
  apply copyBody_step in Hcopy.
  exists {| ByteSource.buf := fw; ByteSource.failed := ByteSource.failed bs;
            ByteSource.closed := ByteSource.closed bs |}.
  split; [|by split].
  unfold Rpc.serveFrame, Rpc.fetchRequest. rewrite Hend, Hk, Hp, Hin, Hsrc.
  unfold ByteSource.consume. by rewrite Hfail, Hcopy.
Qed.

Lemma source_frame_stored_witness :
  exists bs',
    Rpc.serveFrame (H := Ref.collaborators) (Example.payload FlagJSON 1 [x31])
      Example.source_session
    = Rpc.Continue
        (Rpc.set_heap
           (<[0%nat := Rpc.set_source (Some bs') Example.source_request]>
              (Rpc.heap Example.source_session))
           Example.source_session)
    /\ refines (ByteSource.buf bs') {| current := []; pending := [[x31]] |}
    /\ ByteSource.failed bs' = None
    /\ ByteSource.closed bs' = false.
Proof.
  refine (source_frame_stored Ref.collaborators (Example.payload FlagJSON 1 [x31])
            Example.source_session 0%nat Example.source_request
            ByteSource.new fifo_empty eq_refl _ eq_refl eq_refl eq_refl eq_refl eq_refl _).
  - cbn. lia.
  - apply refines_new.
Defined.

(** A payload frame for a source call whose byte source has been closed or
    cancelled is refused by the source, and [Serve] returns with that error:
    the session ends although only one stream was given up.  The request
    stays in the table. *)
Theorem cancelled_source_ends_session (C : Collaborators) (f : wireFrame)
    (rest : list wireFrame) (final : error) (r : Rpc.rpc) (p : loc) (req : Rpc.Request)
    (bs : ByteSource.t) (e : error) :
  Flag_Get (hFlag (wf_hdr f)) FlagEndErr = false ->
  Rpc.reqs r !! hReq (wf_hdr f) = Some p ->
  Rpc.heap r !! p = Some req ->
  Rpc.in_ req = None ->
  Rpc.source req = Some bs ->
  ByteSource.failed bs = Some e ->
  exists r',
    Rpc.Serve (f :: rest) final r
    = Rpc.ServeReturns r'
        (Some (ErrWrap (ErrWrap e "muxrpc: byte source canceled")
                 "muxrpc: error pouring data to handler"))
    /\ Rpc.reqs r' = Rpc.reqs r
    /\ Rpc.heap r' !! p = Some req
    /\ pkr_closed (Rpc.pkr r') = true.
Proof.
  intros Hend Hk Hp Hin Hsrc Hfail.
  cbn [Rpc.Serve]. unfold Rpc.serveFrame, Rpc.fetchRequest.
  rewrite Hend, Hk, Hp, Hin, Hsrc. unfold ByteSource.consume. rewrite Hfail.
  eexists. split; [reflexivity|]. cbn. split; [done|]. split; [|done].
  rewrite list_lookup_insert_eq by (by eapply lookup_lt_Some).
  f_equal. destruct req. cbn in *. by subst.
Qed.

Lemma cancelled_source_ends_session_witness :
  exists r',
    Rpc.Serve (H := Ref.collaborators) [Example.payload FlagJSON 1 [x31]] EOS
      Example.cancelled_session
    = Rpc.ServeReturns r'
        (Some (ErrWrap (ErrWrap (ErrOther "context canceled") "muxrpc: byte source canceled")
                 "muxrpc: error pouring data to handler"))
    /\ Rpc.reqs r' = Rpc.reqs Example.cancelled_session
    /\ Rpc.heap r' !! 0%nat
       = Some (Rpc.set_source (Some Example.cancelled_source) Example.source_request)
    /\ pkr_closed (Rpc.pkr r') = true.
Proof.
  exact (cancelled_source_ends_session Ref.collaborators (Example.payload FlagJSON 1 [x31]) []
           EOS Example.cancelled_session 0%nat
           (Rpc.set_source (Some Example.cancelled_source) Example.source_request)
           Example.cancelled_source (ErrOther "context canceled")
           eq_refl eq_refl eq_refl eq_refl eq_refl eq_refl).
Defined.

(** *** Requests of the peer *)

(** The first frame under an id the table does not hold opens a request,
    if [ParseRequest] accepts it: the request is entered under that id with
    the cancel function of the handler's context as its [abort], and one
    handler is started for it.  A later frame with the same id finds that
    request: nothing is parsed, entered or started. *)
Theorem fetchRequest_once (C : Collaborators) (hdr hdr' : Header) (body body' : reader)
    (r : Rpc.rpc) (req : Rpc.Request) :
  Rpc.reqs r !! hReq hdr = None ->
  Rpc.ParseRequest r hdr body = inl req ->
  hReq hdr' = hReq hdr ->
  exists r1,
    Rpc.fetchRequest hdr body r = inl (r1, length (Rpc.heap r), true)
    /\ Rpc.reqs r1 = <[hReq hdr := length (Rpc.heap r)]> (Rpc.reqs r)
    /\ Rpc.heap r1 = Rpc.heap r ++ [Rpc.set_abort Rpc.AbortCancel req]
    /\ Rpc.spawned r1 = Rpc.spawned r ++ [Rpc.TaskHandleCall (length (Rpc.heap r))]
    /\ Rpc.fetchRequest hdr' body' r1 = inl (r1, length (Rpc.heap r), false).
Proof.
  intros Hnone Hparse Hsame. unfold Rpc.fetchRequest at 1. rewrite Hnone, Hparse.
  eexists. split; [reflexivity|]. cbn. repeat split.
  unfold Rpc.fetchRequest. cbn. by rewrite Hsame, lookup_insert_eq.
Qed.

Lemma fetchRequest_once_witness :
  exists r1,
    Rpc.fetchRequest (H := Ref.collaborators)
      (wf_hdr (Example.initiation FlagJSON (-1) "async"))
      (wf_body (Example.initiation FlagJSON (-1) "async")) (Rpc.Handle Example.open_packer)
    = inl (r1, 0%nat, true)
    /\ Rpc.reqs r1 = <[-1 := 0%nat]> ∅
    /\ Rpc.heap r1 = [Rpc.set_abort Rpc.AbortCancel Example.incoming_request]
    /\ Rpc.spawned r1 = [Rpc.TaskHandleConnect; Rpc.TaskHandleCall 0%nat]
    /\ Rpc.fetchRequest (H := Ref.collaborators)
         (wf_hdr (Example.payload FlagJSON (-1) [x31]))
         (wf_body (Example.payload FlagJSON (-1) [x31])) r1
       = inl (r1, 0%nat, false).
Proof.
  exact (fetchRequest_once Ref.collaborators
           (wf_hdr (Example.initiation FlagJSON (-1) "async"))
           (wf_hdr (Example.payload FlagJSON (-1) [x31]))
           (wf_body (Example.initiation FlagJSON (-1) "async"))
           (wf_body (Example.payload FlagJSON (-1) [x31]))
           (Rpc.Handle Example.open_packer) _ eq_refl eq_refl eq_refl).
Defined.

(** *** Frames for a request with a pipe *)

Lemma serveFrame_pour (C : Collaborators) (f : wireFrame) (r : Rpc.rpc) (p : loc)
    (req : Rpc.Request) (inSink : pipe) :
  payload_for (hReq (wf_hdr f)) f = true ->
  Rpc.reqs r !! hReq (wf_hdr f) = Some p ->
  Rpc.heap r !! p = Some req ->
  Rpc.in_ req = Some inSink ->
  pipe_closed inSink = None ->
  Rpc.serveFrame f r
  = if (length (queue inSink) <? capacity inSink)%nat
    then Rpc.Continue
           (Rpc.set_heap
              (<[p := Rpc.set_in
                        (Some {| queue := queue inSink ++ [packet_of f];
                                 capacity := capacity inSink; pipe_closed := None |}) req]>
                 (Rpc.heap r)) r)
    else Rpc.Blocks r.
Proof.
  intros Hpay Hk Hp Hin Hopen. unfold payload_for in Hpay.
  apply andb_prop in Hpay as [[[Hend _]%andb_prop Herr%bool_decide_eq_true]%andb_prop Hlen].
  apply negb_true_iff in Hend.
  unfold Rpc.serveFrame, Rpc.fetchRequest, readBody, pipe_Pour.
  rewrite Hend, Hk, Hp, Hin, Herr, Hlen, Hopen.
  by destruct (_ <? _)%nat.
Qed.

(** Payload frames for one request are poured into its pipe in the order
    of their arrival, as long as the pipe has room: of [frames], all for the
    request [k], the first [capacity - length queue] are in the queue, behind
    what was there; if that is all of them [Serve] goes on to the next header,
    and if not it waits in [Pour], whatever frames for other requests come
    after. *)
Theorem payload_frames_in_order (C : Collaborators) (k : Z) (frames : list wireFrame) :
  forall (r : Rpc.rpc) (p : loc) (req : Rpc.Request) (inSink : pipe),
    Forall (fun f => payload_for k f = true) frames ->
    Rpc.reqs r !! k = Some p ->
    Rpc.heap r !! p = Some req ->
    Rpc.in_ req = Some inSink ->
    pipe_closed inSink = None ->
    (length (queue inSink) <= capacity inSink)%nat ->
    exists r',
      Rpc.reqs r' = Rpc.reqs r
      /\ Rpc.heap r' !! p
         = Some (Rpc.set_in
                   (Some {| queue := queue inSink
                                     ++ map packet_of
                                          (take (capacity inSink - length (queue inSink)) frames);
                            capacity := capacity inSink; pipe_closed := None |}) req)
      /\ if decide (length (queue inSink) + length frames <= capacity inSink)%nat
         then Rpc_turns frames r = Some r'
         else forall rest final, Rpc.Serve (frames ++ rest) final r = Rpc.ServeBlocks r'.
Proof.
  induction frames as [|f frames IH]; intros r p req inSink Hall Hk Hp Hin Hopen Hcap.
  - exists r. split; [done|]. rewrite take_nil, app_nil_r.
    split.
    + rewrite Hp. f_equal. destruct req, inSink. cbn in *. by subst.
    + rewrite decide_True by (cbn; lia). done.
  - apply Forall_cons in Hall as [Hpay Hall].
    assert (Hid : hReq (wf_hdr f) = k).
    { unfold payload_for in Hpay.
      by apply andb_prop in Hpay as [[[_ ?%Z.eqb_eq]%andb_prop _]%andb_prop _]. }
    subst k.
    pose proof (serveFrame_pour C f r p req inSink Hpay Hk Hp Hin Hopen) as Hstep.
    destruct (length (queue inSink) <? capacity inSink)%nat eqn:Hroom.
    + apply Nat.ltb_lt in Hroom.
      set (pipe1 := {| queue := queue inSink ++ [packet_of f];
                       capacity := capacity inSink; pipe_closed := None |}) in *.
      set (r1 := Rpc.set_heap (<[p := Rpc.set_in (Some pipe1) req]> (Rpc.heap r)) r) in *.
      destruct (IH r1 p (Rpc.set_in (Some pipe1) req) pipe1 Hall) as (r' & Hreqs & Hheap & Hrun);
        try done.
      { cbn. apply list_lookup_insert_eq. by eapply lookup_lt_Some. }
      { cbn. rewrite length_app. cbn. lia. }
      exists r'. split; [done|]. split.
      * rewrite Hheap. cbn [queue capacity pipe1]. rewrite length_app. cbn [length].
        replace (capacity inSink - length (queue inSink))%nat
          with (S (capacity inSink - (length (queue inSink) + 1)))%nat by lia.
        cbn [take map]. by rewrite <- app_assoc.
      * cbn [queue capacity pipe1] in Hrun. rewrite length_app in Hrun. cbn [length] in *.
        destruct (decide (length (queue inSink) + 1 + length frames <= capacity inSink)%nat).
        -- rewrite decide_True by lia. cbn [Rpc_turns]. by rewrite Hstep.
        -- rewrite decide_False by lia. intros rest final.
           cbn [app Rpc.Serve]. rewrite Hstep. apply Hrun.
    + apply Nat.ltb_ge in Hroom. exists r. split; [done|].
      replace (capacity inSink - length (queue inSink))%nat with 0%nat by lia.
      rewrite take_0. cbn [map]. rewrite app_nil_r. split.
      * rewrite Hp. f_equal. destruct req, inSink. cbn in *. by subst.
      * rewrite decide_False by (cbn; lia). intros rest final.
        cbn [app Rpc.Serve]. by rewrite Hstep.
Qed.

Lemma payload_frames_in_order_witness :
  exists r',
    Rpc.reqs r' = Rpc.reqs Example.sink_session
    /\ Rpc.heap r' !! 0%nat
       = Some (Rpc.set_in
                 (Some {| queue := [packet_of (Example.payload FlagJSON 1 [x31]);
                                    packet_of (Example.payload FlagJSON 1 [x32])];
                          capacity := 150; pipe_closed := None |})
                 (default Example.sink_request (Rpc.heap Example.sink_session !! 0%nat)))
    /\ Rpc_turns (H := Ref.collaborators)
         [Example.payload FlagJSON 1 [x31]; Example.payload FlagJSON 1 [x32]]
         Example.sink_session
       = Some r'.
Proof.
  refine (payload_frames_in_order Ref.collaborators 1
            [Example.payload FlagJSON 1 [x31]; Example.payload FlagJSON 1 [x32]]
            Example.sink_session 0%nat
            (default Example.sink_request (Rpc.heap Example.sink_session !! 0%nat))
            (NewPipe Rpc.bufSize) _ eq_refl eq_refl eq_refl eq_refl _).
  - repeat constructor.
  - cbn. lia.
Defined.

(** ** Request ids in use *)

Lemma Rpc_ids_ext (r r' : Rpc.rpc) :
  Rpc.highest r' = Rpc.highest r -> Rpc.reqs r' = Rpc.reqs r -> Rpc_ids_ok r -> Rpc_ids_ok r'.
Proof. unfold Rpc_ids_ok. by intros -> ->. Qed.

Lemma Rpc_ids_serveFrame (C : Collaborators) (f : wireFrame) (r : Rpc.rpc) :
  Rpc_ids_ok r ->
  match Rpc.serveFrame f r with
  | Rpc.Continue r' | Rpc.Return r' _ | Rpc.Blocks r' | Rpc.Panics r' _ => Rpc_ids_ok r'
  end.
Proof.
  intros Hok. unfold Rpc.serveFrame.
  destruct (Flag_Get (hFlag (wf_hdr f)) FlagEndErr).
  - repeat case_match; simplify_eq; try done; by apply (Rpc_ids_ext r).
  - unfold Rpc.fetchRequest.
    destruct (Rpc.reqs r !! hReq (wf_hdr f)) as [p|] eqn:Hk.
    + repeat case_match; simplify_eq; try done; by apply (Rpc_ids_ext r).
    + destruct (Rpc.ParseRequest r (wf_hdr f) (wf_body f)) as [req|err] eqn:Hparse; [|done].
      apply Rpc_ParseRequest_shape in Hparse as (Hneg & _). cbn.
      destruct Hok as [Hh Hkeys].
      split; [done|]. cbn. apply map_Forall_insert_2; [by left|done].
Qed.

Lemma Rpc_ids_closeStream (C : Collaborators) (p : loc) (streamErr : option error)
    (r : Rpc.rpc) :
  Rpc_ids_ok r -> Rpc_ids_ok (Rpc.closeStream p streamErr r).
Proof.
  intros [Hh Hkeys]. unfold Rpc.closeStream, Rpc.closeRequest.
  destruct (Rpc.heap r !! p) as [req|] eqn:Hp.
  - destruct (Rpc.Request_CloseWithError _ _ _) as [[req' pk] err]. cbn.
    rewrite list_lookup_insert_eq by (by eapply lookup_lt_Some).
    split; [done|]. cbn. by apply map_Forall_delete.
  - rewrite Hp. by split.
Qed.

(** While [highest] has not reached the largest [int32], the id [Do]
    takes is in use by no request of the table, so the entry it makes
    replaces none; this is kept by every turn of [Serve], which enters
    requests under negative ids only, and by [closeStream]: the keys of the
    table are negative or among the ids allocated so far. *)
Theorem new_id_is_fresh (C : Collaborators) (p : loc) (r : Rpc.rpc) (req : Rpc.Request) :
  Rpc_ids_ok r ->
  Rpc.highest r < MaxInt32 ->
  Rpc.heap r !! p = Some req ->
  exists r' err,
    Rpc.Do p r = Returned r' err
    /\ Rpc.reqs r !! (Rpc.highest r + 1) = None
    /\ Rpc.reqs r' = <[Rpc.highest r + 1 := p]> (Rpc.reqs r)
    /\ Rpc_ids_ok r'
    /\ (forall f, match Rpc.serveFrame f r' with
                  | Rpc.Continue r2 | Rpc.Return r2 _ | Rpc.Blocks r2 | Rpc.Panics r2 _ =>
                      Rpc_ids_ok r2
                  end)
    /\ (forall q streamErr, Rpc_ids_ok (Rpc.closeStream q streamErr r')).
Proof.
  intros [Hh Hkeys] Hmax Hp.
  destruct (Rpc_Do_state C p r req Hp)
    as (r' & err & req' & HDo & Hh' & Hreqs & _).
  rewrite wrap_int32_succ in Hh', Hreqs by lia.
  assert (Hok : Rpc_ids_ok r').
  { split; [lia|]. rewrite Hreqs, Hh'. apply map_Forall_insert_2; [right; lia|].
    intros k q Hk. apply Hkeys in Hk. cbn in Hk. lia. }
  exists r', err. split; [done|]. split.
  - destruct (Rpc.reqs r !! (Rpc.highest r + 1)) as [q|] eqn:Hk; [|done].
    apply Hkeys in Hk. cbn in Hk. lia.
  - split; [done|]. split; [done|]. split.
    + intros f. by apply Rpc_ids_serveFrame.
    + intros q streamErr. by apply Rpc_ids_closeStream.
Qed.

Lemma new_id_is_fresh_witness :
  exists r' err,
    Rpc.Do (H := Ref.collaborators) 0%nat Example.session = Returned r' err
    /\ Rpc.reqs Example.session !! (Rpc.highest Example.session + 1) = None
    /\ Rpc.reqs r' = <[Rpc.highest Example.session + 1 := 0%nat]> (Rpc.reqs Example.session)
    /\ Rpc_ids_ok r'
    /\ (forall f, match Rpc.serveFrame (H := Ref.collaborators) f r' with
                  | Rpc.Continue r2 | Rpc.Return r2 _ | Rpc.Blocks r2 | Rpc.Panics r2 _ =>
                      Rpc_ids_ok r2
                  end)
    /\ (forall q streamErr,
          Rpc_ids_ok (Rpc.closeStream (H := Ref.collaborators) q streamErr r')).
Proof.
  refine (new_id_is_fresh Ref.collaborators 0%nat Example.session Example.sink_request
            _ _ eq_refl).
  - split; [cbn; lia|apply map_Forall_empty].
  - by vm_compute.
Defined.

(** ** A request that cannot be written *)

(** When [json.Marshal] refuses the request, [Do] returns its error and
    sends nothing, but it has taken an id and entered the request in the
    table by then, and the entry stays. *)
Theorem Do_marshal_error_registers (C : Collaborators) (p : loc) (r : Rpc.rpc)
    (req : Rpc.Request) (err : error) :
  Rpc.heap r !! p = Some req ->
  Marshal_Request (Rpc.Type_ req) (Rpc.Method req) (default [x5b; x5d] (Rpc.RawArgs req))
  = inr err ->
  exists r',
    Rpc.Do p r = Returned r' (Some err)
    /\ Rpc.pkr r' = Rpc.pkr r
    /\ Rpc.highest r' = wrap_int32 (Rpc.highest r + 1)
    /\ Rpc.reqs r' !! wrap_int32 (Rpc.highest r + 1) = Some p.
Proof.
  intros Hp Hm. unfold Rpc.Do. rewrite Hp.
  replace (Marshal_Request _ _ _) with (inr (A := list byte) err).
  - eexists. split; [reflexivity|]. cbn. repeat split. apply lookup_insert_eq.
  - rewrite <- Hm.
    destruct (Rpc.abort req) eqn:Ha; simpl; destruct (Rpc.RawArgs req) eqn:Hr; simpl;
      rewrite ?Hr; done.
Qed.

Lemma Do_marshal_error_registers_witness :
  exists r',
    Rpc.Do (H := Ref.collaborators) 0%nat
      (Rpc.set_heap [Rpc.set_RawArgs (Some [x7b]) Example.sink_request] Example.session)
    = Returned r' (Some (ErrOther "json: syntax error"))
    /\ Rpc.pkr r' = Example.open_packer
    /\ Rpc.highest r' = 1
    /\ Rpc.reqs r' !! 1 = Some 0%nat.
Proof.
  exact (Do_marshal_error_registers Ref.collaborators 0%nat
           (Rpc.set_heap [Rpc.set_RawArgs (Some [x7b]) Example.sink_request] Example.session)
           (Rpc.set_RawArgs (Some [x7b]) Example.sink_request)
           (ErrOther "json: syntax error") eq_refl eq_refl).
Defined.

(** ** CallError through the reference JSON library *)

(** With strings written and read the way [encoding/json] does it, a
    [CallError] whose name, message and stack are well-formed UTF-8 comes back
    from [parseError] as it was marshalled, whatever characters the fields
    hold: quotes, backslashes, control characters and the characters that are
    written as [\u] escapes included. *)
Theorem CallError_roundtrip_utf8 (e : CallError) :
  Ref.wellformed (Name e) && Ref.wellformed (Message e) && Ref.wellformed (Stack e) = true ->
  parseError (H := Ref.collaborators) (Marshal_CallError (H := Ref.collaborators) e)
  = (Some e, None).
Proof.
  intros Hwf.
  unfold parseError, Unmarshal_CallError, Marshal_CallError.
  change (json_parse (json_print (CallError_toJSON e)))
    with (Ref.parse (Ref.print (CallError_toJSON e))).
  rewrite (Ref_parse_print_CallError e Hwf).
  unfold CallError_toJSON. cbn [CallError_members].
  rewrite (CallError_lookup_tag Ref.collaborators FName : CallError_lookup "name" = _),
    (CallError_lookup_tag Ref.collaborators FMessage : CallError_lookup "message" = _),
    (CallError_lookup_tag Ref.collaborators FStack : CallError_lookup "stack" = _).
  by destruct e.
Qed.

Lemma CallError_roundtrip_utf8_witness :
  parseError (H := Ref.collaborators)
    (Marshal_CallError (H := Ref.collaborators)
       {| Name := "Error"; Message := Ref.string_of [x22; x5c; x0a; x3c; xc3; xa9];
          Stack := "" |})
  = (Some {| Name := "Error"; Message := Ref.string_of [x22; x5c; x0a; x3c; xc3; xa9];
             Stack := "" |}, None).
Proof.
  exact (CallError_roundtrip_utf8
           {| Name := "Error"; Message := Ref.string_of [x22; x5c; x0a; x3c; xc3; xa9];
              Stack := "" |} eq_refl).
Defined.

(** ** How the serve loop ends *)

Lemma Terminate_state (C : Collaborators) (r : Rpc.rpc) :
  Rpc.terminated (Rpc.Terminate r).1 = true
  /\ Rpc.cancelled (Rpc.Terminate r).1 = true
  /\ pkr_closed (Rpc.pkr (Rpc.Terminate r).1) = true
  /\ Rpc.reqs (Rpc.Terminate r).1 = Rpc.reqs r
  /\ Rpc.highest (Rpc.Terminate r).1 = Rpc.highest r
  /\ forall (k : Z) (p : loc) (req : Rpc.Request),
       Rpc.reqs r !! k = Some p ->
       Rpc.heap r !! p = Some req ->
       Rpc.heap (Rpc.Terminate r).1 !! p
       = Some (Rpc.set_Stream (closed_with (Some ErrSessionTerminated) (Rpc.Stream req)) req).
Proof.
  pose proof (closeRequest_fold C (Some ErrSessionTerminated) (range_order (Rpc.reqs r))
                (Rpc.set_terminated true (Rpc.set_cancelled true r))) as Hfold.
  cbn zeta in Hfold. destruct Hfold as (Hreqs & Hterm & Hcanc & Hhigh & Hheap).
  unfold Rpc.Terminate. cbn [Rpc.reqs Rpc.set_terminated Rpc.set_cancelled ] in *.
  destruct (Packer_Close _) as [pk err] eqn:Hclose. cbn [fst].
  unfold Packer_Close in Hclose. injection Hclose as <- _.
  cbn [Rpc.terminated Rpc.cancelled Rpc.pkr Rpc.reqs Rpc.highest Rpc.heap Rpc.set_pkr
       pkr_closed].
  repeat split; try done.
  intros k p req Hk Hp. rewrite (Hheap p req Hp), bool_decide_true; [done|].
  apply list_elem_of_fmap. exists (k, p). split; [done|].
  rewrite range_order_perm. by apply elem_of_map_to_list.
Qed.

(** When the reading of headers ends, [Serve] terminates the session
    before it returns, also when nobody has called [Terminate]: every request
    still in the table is closed with [ErrSessionTerminated], the root context
    is cancelled and the Packer closed.  What it returns is [nil] for an end
    of stream, for a connection already closed and for a session that was
    terminated, and the wrapped reading error otherwise. *)
Theorem Serve_ends_session (C : Collaborators) (frames : list wireFrame) (final : error)
    (r rN : Rpc.rpc) :
  Rpc_turns frames r = Some rN ->
  exists r',
    Rpc.Serve frames final r
    = Rpc.ServeReturns r'
        (if IsEOS (Some final) || isAlreadyClosed final || Rpc.terminated r then None
         else Some (ErrWrap final "serve failed to read from packer"))
    /\ Rpc.terminated r' = true
    /\ Rpc.cancelled r' = true
    /\ pkr_closed (Rpc.pkr r') = true
    /\ Rpc.reqs r' = Rpc.reqs rN
    /\ forall (k : Z) (p : loc) (req : Rpc.Request),
         Rpc.reqs rN !! k = Some p ->
         Rpc.heap rN !! p = Some req ->
         Rpc.heap r' !! p
         = Some (Rpc.set_Stream (closed_with (Some ErrSessionTerminated) (Rpc.Stream req)) req).
Proof.
  intros Hturns.
  destruct (Serve_turns C frames final r rN Hturns) as [HS Ht].
  destruct (Terminate_state C rN) as (Hterm & Hcanc & Hclosed & Hreqs & _ & Hheap).
  exists (Rpc.deferred (Rpc.Terminate rN).1). split.
  - rewrite HS. f_equal. unfold Rpc.doRet. rewrite Ht.
    by destruct (IsEOS (Some final) || isAlreadyClosed final), (Rpc.terminated r).
  - by repeat split.
Qed.

Lemma Serve_ends_session_witness :
  exists r',
    Rpc.Serve (H := Ref.collaborators) [Example.initiation FlagJSON (-1) "async"]
      (ErrOther "read: connection reset by peer") (Rpc.Handle Example.open_packer)
    = Rpc.ServeReturns r'
        (Some (ErrWrap (ErrOther "read: connection reset by peer")
                 "serve failed to read from packer"))
    /\ Rpc.terminated r' = true
    /\ Rpc.cancelled r' = true
    /\ pkr_closed (Rpc.pkr r') = true
    /\ Rpc.reqs r' = Rpc.reqs Example.incoming
    /\ forall (k : Z) (p : loc) (req : Rpc.Request),
         Rpc.reqs Example.incoming !! k = Some p ->
         Rpc.heap Example.incoming !! p = Some req ->
         Rpc.heap r' !! p
         = Some (Rpc.set_Stream (closed_with (Some ErrSessionTerminated) (Rpc.Stream req)) req).
Proof.
  exact (Serve_ends_session Ref.collaborators [Example.initiation FlagJSON (-1) "async"]
           (ErrOther "read: connection reset by peer") (Rpc.Handle Example.open_packer)
           Example.incoming eq_refl).
Defined.

(** ** A consumer that waits *)

(** A consumer that finds the source open and empty waits in [Next]; the
    next frame [consume] stores makes the waiting channel ready, [Next] then
    returns [true] and [Bytes] returns that frame's body.  If the source is
    closed instead, [Next] returns [false]. *)
Theorem waiting_consumer (fuel : nat) (room : nat -> nat) (bs : ByteSource.t) (q : fifo)
    (rd : reader) (err : option error) :
  refines (ByteSource.buf bs) q ->
  pending q = [] ->
  waiting (ByteSource.buf bs) = false ->
  ByteSource.failed bs = None ->
  ByteSource.closed bs = false ->
  rd_err rd = None ->
  Z.of_nat (length (rd_data rd)) < 2 ^ 32 ->
  (length (rd_data rd) < fuel)%nat ->
  exists bs1 bs2 bs3 bs4,
    ByteSource.Next bs = Returned bs1 None
    /\ ByteSource.ready ByteSource.SelMore bs1 = false
    /\ ByteSource.ready ByteSource.SelClosed bs1 = false
    /\ ByteSource.consume (Z.of_nat (length (rd_data rd))) rd bs1 = (bs2, None)
    /\ ByteSource.ready ByteSource.SelMore bs2 = true
    /\ ByteSource.Next_selected ByteSource.SelMore bs2 = (bs2, true)
    /\ ByteSource.Bytes fuel room bs2 = Some (bs3, inl (rd_data rd))
    /\ ByteSource.CloseWithError err bs1 = Returned bs4 None
    /\ ByteSource.ready ByteSource.SelClosed bs4 = true
    /\ ByteSource.Next_selected ByteSource.SelClosed bs4 = (bs4, false).
Proof.
  intros Href Hpend Hwait Hfail Hclosed Herr Hlen Hfuel.
  pose proof (ref_frames _ _ Href) as Hframes. rewrite Hpend in Hframes.
  change (wrap_uint32 (Z.of_nat (length []))) with 0 in Hframes.
  set (fw1 := {| store := store (ByteSource.buf bs); waiting := true;
                 currentFrameTotal := currentFrameTotal (ByteSource.buf bs);
                 currentFrameRead := currentFrameRead (ByteSource.buf bs);
                 frames := frames (ByteSource.buf bs);
                 lenBuf := lenBuf (ByteSource.buf bs) |}).
  assert (Href1 : refines fw1 q) by (by destruct Href).
  destruct (copyBody_refines fw1 q {| current := current q; pending := pending q ++ [rd_data rd] |}
              (Z.of_nat (length (rd_data rd))) rd (EvCopied None) Href1)
    as (fw2 & Hcopy & Href2).
  { cbn [fifo_step]. rewrite Herr, Z.eqb_refl.
    by replace (Z.of_nat (length (rd_data rd)) <? 2 ^ 32) with true
      by (symmetry; by apply Z.ltb_lt). }
  apply copyBody_step in Hcopy.
  assert (Hw2 : waiting fw2 = false).
  { unfold copyBody in Hcopy. rewrite Herr in Hcopy.
    destruct (negb _); [done|]. by injection Hcopy as <-. }
  set (bs2 := {| ByteSource.buf := fw2; ByteSource.failed := None;
                 ByteSource.closed := false |}).
  destruct (getNextFrameReader_refines fw2 _ {| current := rd_data rd; pending := [] |}
              (EvFrame (inl (Z.of_nat (length (rd_data rd))))) Href2)
    as (fw3 & Hget & Href3).
  { cbn [fifo_step pending]. by rewrite Hpend. }
  apply getNextFrameReader_step in Hget.
  destruct (ReadAll_current room fuel [] fw3 _ Href3 Hfuel) as (fw4 & Hall & _).
  cbn [app current] in Hall.
  set (bs3 := {| ByteSource.buf := fw4; ByteSource.failed := None;
                 ByteSource.closed := false |}).
  exists {| ByteSource.buf := fw1; ByteSource.failed := None; ByteSource.closed := false |},
    bs2, bs3,
    {| ByteSource.buf := fw1; ByteSource.failed := Some (default EOS err);
       ByteSource.closed := true |}.
  split.
  { unfold ByteSource.Next, waitForMore. rewrite Hfail, Hframes, Hwait, Hclosed. cbn.
    unfold fw1. by rewrite Hframes. }
  split; [done|]. split; [done|]. split.
  { unfold ByteSource.consume. cbn. by rewrite Hcopy. }
  split; [cbn; by rewrite Hw2|]. split; [done|]. split.
  { unfold ByteSource.Bytes. cbn. by rewrite Hget, Hall. }
  split.
  { unfold ByteSource.CloseWithError. cbn. by destruct err. }
  split; [done|].
  cbn. unfold Frames. cbn. by rewrite Hframes.
Qed.

Lemma waiting_consumer_witness :
  exists bs1 bs2 bs3 bs4,
    ByteSource.Next ByteSource.new = Returned bs1 None
    /\ ByteSource.ready ByteSource.SelMore bs1 = false
    /\ ByteSource.ready ByteSource.SelClosed bs1 = false
    /\ ByteSource.consume 2 (mkReader [x68; x69] None) bs1 = (bs2, None)
    /\ ByteSource.ready ByteSource.SelMore bs2 = true
    /\ ByteSource.Next_selected ByteSource.SelMore bs2 = (bs2, true)
    /\ ByteSource.Bytes 3 (fun _ => 511%nat) bs2 = Some (bs3, inl [x68; x69])
    /\ ByteSource.CloseWithError None bs1 = Returned bs4 None
    /\ ByteSource.ready ByteSource.SelClosed bs4 = true
    /\ ByteSource.Next_selected ByteSource.SelClosed bs4 = (bs4, false).
Proof.
  refine (waiting_consumer 3 (fun _ => 511%nat) ByteSource.new fifo_empty
            (mkReader [x68; x69] None) None _ eq_refl eq_refl eq_refl eq_refl eq_refl _ _).
  - apply refines_new.
  - cbn. lia.
  - cbn. lia.
Defined.

(** ** Requests of the peer, older revision *)

(** In the older revision too the first packet under an id the table does
    not hold opens a request, if [ParseRequest] accepts it: the id is
    negative, the request gets a pipe of five places and is entered under the
    id, and one [OnCall] is started; a later packet with the same id finds
    that request, and nothing is parsed, entered or started for it. *)
Theorem Legacy_fetchRequest_once (C : Collaborators) (packet packet' : Packet)
    (r : Legacy.rpc) (req : Legacy.Request) :
  Legacy.reqs r !! Req packet = None ->
  Legacy.ParseRequest r packet = inl req ->
  Req packet' = Req packet ->
  exists r1,
    Legacy.fetchRequest packet r = inl (r1, length (Legacy.heap r), true)
    /\ Req packet < 0
    /\ Legacy.in_ req = Some (NewPipe 5)
    /\ Legacy.reqs r1 = <[Req packet := length (Legacy.heap r)]> (Legacy.reqs r)
    /\ Legacy.heap r1 = Legacy.heap r ++ [req]
    /\ Legacy.spawned r1 = Legacy.spawned r ++ [Legacy.TaskOnCall (length (Legacy.heap r))]
    /\ Legacy.highest r1 = Legacy.highest r
    /\ Legacy.fetchRequest packet' r1 = inl (r1, length (Legacy.heap r), false).
Proof.
  intros Hnone Hparse Hsame. unfold Legacy.fetchRequest at 1. rewrite Hnone, Hparse.
  eexists. split; [reflexivity|].
  unfold Legacy.ParseRequest in Hparse.
  destruct (negb (Flag_Get (Flag packet) FlagJSON)); [done|].
  destruct (0 <=? Req packet) eqn:Hneg; [done|]. apply Z.leb_gt in Hneg.
  destruct (Decode_Request0 (Body packet)) as [[[ty method] args]|err]; [|done].
  injection Hparse as <-. cbn. repeat split; try done.
  unfold Legacy.fetchRequest. cbn. by rewrite Hsame, lookup_insert_eq.
Qed.

Lemma Legacy_fetchRequest_once_witness :
  exists r1,
    Legacy.fetchRequest (H := Ref.collaborators)
      {| Flag := FlagJSON; Req := -1; Body := Example.whoami "async" |} Example.legacy_session
    = inl (r1, 1%nat, true)
    /\ -1 < 0
    /\ Legacy.in_
         {| Legacy.Type_ := "async"; Legacy.Method := ["whoami"]; Legacy.Args := [];
            Legacy.tipe := None; Legacy.Stream := Legacy.NewStream (-1);
            Legacy.in_ := Some (NewPipe 5);
            Legacy.pkt := Some {| Flag := FlagJSON; Req := -1;
                                  Body := Example.whoami "async" |} |}
       = Some (NewPipe 5)
    /\ Legacy.reqs r1 = <[-1 := 1%nat]> ∅
    /\ Legacy.heap r1
       = [Example.legacy_sink_request;
          {| Legacy.Type_ := "async"; Legacy.Method := ["whoami"]; Legacy.Args := [];
             Legacy.tipe := None; Legacy.Stream := Legacy.NewStream (-1);
             Legacy.in_ := Some (NewPipe 5);
             Legacy.pkt := Some {| Flag := FlagJSON; Req := -1;
                                   Body := Example.whoami "async" |} |}]
    /\ Legacy.spawned r1 = [Legacy.TaskOnConnect; Legacy.TaskOnCall 1%nat]
    /\ Legacy.highest r1 = 0
    /\ Legacy.fetchRequest (H := Ref.collaborators)
         {| Flag := FlagJSON; Req := -1; Body := [x31] |} r1
       = inl (r1, 1%nat, false).
Proof.
  exact (Legacy_fetchRequest_once Ref.collaborators
           {| Flag := FlagJSON; Req := -1; Body := Example.whoami "async" |}
           {| Flag := FlagJSON; Req := -1; Body := [x31] |}
           Example.legacy_session _ eq_refl eq_refl eq_refl).
Defined.
